(** * Page splitter of scripts/split_llms_pages.py

    A shallow embedding of the text-splitting routines of
    [scripts/split_llms_pages.py] and the properties its specification
    states about them.

    Python strings are sequences of Unicode code points: a character is
    a code point (an [N]) and a string is a list of them, so that [len]
    is [length] and slicing is [firstn]/[skipn].  The regular
    expressions of the script are embedded as the matchers the [re]
    engine runs for them; each matcher notes why no backtracking is
    left to model, and is proved equal to a backtracking matcher run
    on the expression as the script writes it. *)

From Stdlib Require Import Ascii String.
From Stdlib Require Import List NArith ZArith Arith Bool Lia DecimalNat.
From Stdlib Require Import Permutation.
Import ListNotations.

(** ** Characters and strings *)

Definition char := N.
Definition str := list char.

(** A Rocq string literal read as a Python string (code points below 256). *)
Definition py (s : string) : str := map N_of_ascii (list_ascii_of_string s).

Definition nl : char := 10%N.        (* '\n' *)
Definition hash : char := 35%N.      (* '#'  *)
Definition space : char := 32%N.     (* ' '  *)
Definition backtick : char := 96%N.  (* '`'  *)
Definition underscore : char := 95%N.
Definition hyphen : char := 45%N.
Definition zero_digit : char := 48%N.

(** [str.isspace] on one character, which is also what [\s] matches in
    a [str] pattern: the code points CPython lists as whitespace. *)
Definition isspace (c : char) : bool :=
  (((9 <=? c) && (c <=? 13)) || ((28 <=? c) && (c <=? 32))
   || (c =? 133) || (c =? 160) || (c =? 5760)
   || ((8192 <=? c) && (c <=? 8202))
   || (c =? 8232) || (c =? 8233) || (c =? 8239) || (c =? 8287)
   || (c =? 12288))%N.

(** [s.lstrip()], [s.rstrip()], [s.strip()]. *)
Fixpoint lstrip (s : str) : str :=
  match s with
  | [] => []
  | c :: s' => if isspace c then lstrip s' else s
  end.

Definition rstrip (s : str) : str := rev (lstrip (rev s)).

Definition strip (s : str) : str := rstrip (lstrip s).

(** [s[a:b]] for non-negative [a] and [b]: indices beyond the end are
    clipped, and the slice is empty when [b <= a]. *)
Definition slice (s : str) (a b : nat) : str := firstn (b - a) (skipn a s).

(** [enumerate(l)]. *)
Definition enumerate {A} (l : list A) : list (nat * A) :=
  combine (seq 0 (length l)) l.

(** ** Regular-expression pieces *)

(** A literal: the rest of the subject after it, if the subject starts
    with it. *)
Fixpoint lit (p s : str) : option str :=
  match p with
  | [] => Some s
  | c :: p' =>
      match s with
      | [] => None
      | d :: s' => if (c =? d)%N then lit p' s' else None
      end
  end.

(** The longest run of characters other than ['\n'], and what follows
    it: the greedy [.*] (without DOTALL) and [[^\n]*]. *)
Fixpoint span_line (s : str) : str * str :=
  match s with
  | [] => ([], [])
  | c :: s' =>
      if (c =? nl)%N then ([], s)
      else let (run, rest) := span_line s' in (c :: run, rest)
  end.

(** [^] under MULTILINE: the position is the start of the subject or
    follows a ['\n']. *)
Definition at_bol (text : str) (pos : nat) : bool :=
  match pos with
  | 0 => true
  | S p => match nth_error text p with
           | Some c => (c =? nl)%N
           | None => false
           end
  end.

(** A match object: [start()], [end()] and the captured groups. *)
Record re_match := {
  m_start : nat;
  m_end : nat;
  m_groups : list str
}.

Definition group (m : re_match) (k : nat) : str :=
  nth (pred k) (m_groups m) [].

(** [# (.+)$] from the start of a line: the literal, then a greedy [.+].
    The run is followed by ['\n'] or by the end of the subject, so [$]
    holds after the whole run and after no shorter one; the engine
    never backtracks into it ([header_only_engine] below).  Result: the
    title group and the rest of the subject. *)
Definition header_body (s : str) : option (str * str) :=
  match lit [hash; space] s with
  | None => None
  | Some s1 =>
      match span_line s1 with
      | ([], _) => None
      | (g1, rest) => Some (g1, rest)
      end
  end.

(** [https?://]: the greedy [s?] is tried first and, when what follows
    it fails, the empty alternative. *)
Definition scheme_body (s : str) : option str :=
  match lit (py "http") s with
  | None => None
  | Some s1 =>
      match (match lit (py "s") s1 with
             | Some s2 => lit (py "://") s2
             | None => None
             end) with
      | Some s3 => Some s3
      | None => lit (py "://") s1
      end
  end.

(** [https?://[^\n]+], with the text it matched (the URL group). *)
Definition url_body (s : str) : option (str * str) :=
  match scheme_body s with
  | None => None
  | Some s3 =>
      match span_line s3 with
      | ([], _) => None
      | (_, rest) => Some (firstn (length s - length rest) s, rest)
      end
  end.

(** [# (.+)$\nSource: (https?://[^\n]+)] from the start of a line. *)
Definition header_url_body (s : str) : option (list str * str) :=
  match header_body s with
  | None => None
  | Some (g1, r1) =>
      match lit (nl :: py "Source: ") r1 with
      | None => None
      | Some r2 =>
          match url_body r2 with
          | None => None
          | Some (g2, rest) => Some ([g1; g2], rest)
          end
      end
  end.

(** A pattern run at one position of the subject: [anchored] says
    whether it opens with [^]; [body] runs its remainder on the subject
    from that position and yields the groups and the unmatched rest. *)
Definition match_body_at (anchored : bool)
    (body : str -> option (list str * str))
    (text : str) (pos : nat) : option re_match :=
  if negb anchored || at_bol text pos then
    match body (skipn pos text) with
    | Some (gs, rest) =>
        Some {| m_start := pos;
                m_end := length text - length rest;
                m_groups := gs |}
    | None => None
    end
  else None.

(** [PAGE_PATTERN_WITH_URL], run at a position. *)
Definition PAGE_PATTERN_WITH_URL : str -> nat -> option re_match :=
  match_body_at true header_url_body.

Definition header_only_body (s : str) : option (list str * str) :=
  match header_body s with
  | Some (g1, rest) => Some ([g1], rest)
  | None => None
  end.

(** [PAGE_PATTERN_HEADER_ONLY], run at a position. *)
Definition PAGE_PATTERN_HEADER_ONLY : str -> nat -> option re_match :=
  match_body_at true header_only_body.

(** [^# ] under MULTILINE, the pattern of the inner [re.sub]. *)
Definition hash_body (s : str) : option (list str * str) :=
  match lit [hash; space] s with
  | Some rest => Some ([], rest)
  | None => None
  end.

Definition HASH_AT_BOL : str -> nat -> option re_match :=
  match_body_at true hash_body.

Definition fence : str := [backtick; backtick; backtick].

(** [[\s\S]*?```]: any characters, as few as possible, up to a fence.
    The lazy star first tries the fence where it stands and takes one
    more character (of any kind, ['\n'] included) only when that fails. *)
Fixpoint lazy_until_fence (s : str) : option str :=
  match lit fence s with
  | Some rest => Some rest
  | None =>
      match s with
      | [] => None
      | _ :: s' => lazy_until_fence s'
      end
  end.

(** [```[\s\S]*?```], the pattern of the outer [re.sub]. *)
Definition code_block_body (s : str) : option (list str * str) :=
  match lit fence s with
  | None => None
  | Some s1 =>
      match lazy_until_fence s1 with
      | Some rest => Some ([], rest)
      | None => None
      end
  end.

Definition CODE_BLOCK : str -> nat -> option re_match :=
  match_body_at false code_block_body.

(** [list(pattern.finditer(text))]: the subject is scanned from left to
    right; a match found at a position is reported and the scan resumes
    at its end, otherwise at the next position.  (After an empty match
    the scan moves on by one position; the patterns here never match
    the empty string.)  Every step moves on by at least one position,
    so [S (length text)] steps reach the end of the subject. *)
Fixpoint finditer_from (pattern : str -> nat -> option re_match)
    (text : str) (fuel pos : nat) : list re_match :=
  match fuel with
  | 0 => []
  | S fuel' =>
      if length text <? pos then []
      else match pattern text pos with
           | Some m =>
               m :: finditer_from pattern text fuel' (Nat.max (m_end m) (S pos))
           | None => finditer_from pattern text fuel' (S pos)
           end
  end.

Definition finditer (pattern : str -> nat -> option re_match)
    (text : str) : list re_match :=
  finditer_from pattern text (S (length text)) 0.

(** [re.sub(pattern, repl, text)] with a replacement function: the text
    between the matches is kept, every match is replaced by [repl]
    applied to the matched text ([match.group(0)]). *)
Fixpoint sub_pieces (repl : str -> str) (text : str) (pos : nat)
    (ms : list re_match) : str :=
  match ms with
  | [] => skipn pos text
  | m :: ms' =>
      slice text pos (m_start m)
      ++ repl (slice text (m_start m) (m_end m))
      ++ sub_pieces repl text (m_end m) ms'
  end.

Definition re_sub (pattern : str -> nat -> option re_match)
    (repl : str -> str) (text : str) : str :=
  sub_pieces repl text 0 (finditer pattern text).

(** ** Page records *)

Record page := {
  title : str;
  source_url : option str;
  content : str;
  content_length : nat
}.

Definition dummy_match : re_match :=
  {| m_start := 0; m_end := 0; m_groups := [] |}.

(** The loop shared by the two splitters: for the [i]-th match the page
    body runs from the end of the match to the start of the next match,
    or to the end of the text for the last one. *)
Definition build_pages (url_of : re_match -> option str)
    (text : str) (matches : list re_match) : list page :=
  map (fun im : nat * re_match =>
         let (i, m) := im in
         let content_start := m_end m in
         let content_end :=
           if i + 1 <? length matches
           then m_start (nth (i + 1) matches dummy_match)
           else length text in
         let page_content := strip (slice text content_start content_end) in
         {| title := strip (group m 1);
            source_url := url_of m;
            content := page_content;
            content_length := length page_content |})
      (enumerate matches).

(** [split_with_url_pattern(content)]. *)
Definition split_with_url_pattern (content : str) : list page :=
  let matches := finditer PAGE_PATTERN_WITH_URL content in
  build_pages (fun m => Some (strip (group m 2))) content matches.

(** [replace_headers_in_block(match)], on the matched block. *)
Definition replace_headers_in_block (block : str) : str :=
  re_sub HASH_AT_BOL (fun _ => py "### ") block.

(** [neutralize_code_block_headers(content)]. *)
Definition neutralize_code_block_headers (content : str) : str :=
  re_sub CODE_BLOCK replace_headers_in_block content.

(** [split_with_header_pattern(content)]. *)
Definition split_with_header_pattern (content : str) : list page :=
  let content_neutralized := neutralize_code_block_headers content in
  let matches := finditer PAGE_PATTERN_HEADER_ONLY content_neutralized in
  build_pages (fun _ => None) content_neutralized matches.

(** The two strategies, and what each of them scans. *)
Inductive strategy := WithUrl | HeaderOnly.

Definition split_pages (St : strategy) (content : str) : list page :=
  match St with
  | WithUrl => split_with_url_pattern content
  | HeaderOnly => split_with_header_pattern content
  end.

Definition scanned_text (St : strategy) (content : str) : str :=
  match St with
  | WithUrl => content
  | HeaderOnly => neutralize_code_block_headers content
  end.

Definition boundary_pattern (St : strategy) : str -> nat -> option re_match :=
  match St with
  | WithUrl => PAGE_PATTERN_WITH_URL
  | HeaderOnly => PAGE_PATTERN_HEADER_ONLY
  end.

Definition boundaries (St : strategy) (content : str) : list re_match :=
  finditer (boundary_pattern St) (scanned_text St content).

(** ** Writing the pages of one source *)

(** [f'{i:04d}'] for a list index: the decimal digits, zero-padded on
    the left to four characters. *)
Fixpoint uint_digits (u : Decimal.uint) : str :=
  match u with
  | Decimal.Nil => []
  | Decimal.D0 u' => 48%N :: uint_digits u'
  | Decimal.D1 u' => 49%N :: uint_digits u'
  | Decimal.D2 u' => 50%N :: uint_digits u'
  | Decimal.D3 u' => 51%N :: uint_digits u'
  | Decimal.D4 u' => 52%N :: uint_digits u'
  | Decimal.D5 u' => 53%N :: uint_digits u'
  | Decimal.D6 u' => 54%N :: uint_digits u'
  | Decimal.D7 u' => 55%N :: uint_digits u'
  | Decimal.D8 u' => 56%N :: uint_digits u'
  | Decimal.D9 u' => 57%N :: uint_digits u'
  end.

Definition format_04d (i : nat) : str :=
  let digits := uint_digits (Nat.to_uint i) in
  repeat zero_digit (4 - length digits) ++ digits.

(** [\s+]: a longest non-empty run of whitespace. *)
Fixpoint span_space (s : str) : str * str :=
  match s with
  | [] => ([], [])
  | c :: s' =>
      if isspace c
      then let (run, rest) := span_space s' in (c :: run, rest)
      else ([], s)
  end.

Definition space_run_body (s : str) : option (list str * str) :=
  match span_space s with
  | ([], _) => None
  | (_, rest) => Some ([], rest)
  end.

Definition SPACE_RUN : str -> nat -> option re_match :=
  match_body_at false space_run_body.

(** The dictionaries [process_source] returns, by their [status].  The
    average size of a successful result is the quotient of the total
    content length by the page count; it is kept as its numerator. *)
Inductive source_result :=
| Skipped (error : str) (page_count : nat)
| Failed (error : str) (page_count : nat)
| Succeeded (page_count : nat) (total_content_chars : nat) (output_dir : str).

(** The manifest written next to the pages ([avg_page_size] is the
    quotient of [total_content_chars] by [page_count]). *)
Record manifest := {
  mf_source : str;
  mf_input_file : str;
  mf_pattern_type : str;
  mf_page_count : nat;
  mf_total_content_chars : nat;
  mf_pages : list (nat * str * option str * nat)
}.

Inductive file_body :=
| PageJson (p : page)
| ManifestJson (mf : manifest).

(** [dir / name] on paths. *)
Definition path_join (dir name : str) : str := dir ++ py "/" ++ name.

Section ProcessSource.

(** [str.isalnum] on one character, from the Unicode database: with
    the underscore it makes the class [\w] of a [str] pattern. *)
Variable isalnum : char -> bool.

(** The two directories, fixed by the place of the script. *)
Variables RAW_DIR OUTPUT_DIR : str.

Definition isword (c : char) : bool := isalnum c || (c =? underscore)%N.

(** [[^\w\s-]]: one character outside the three classes. *)
Definition unsafe_char_body (s : str) : option (list str * str) :=
  match s with
  | [] => None
  | c :: rest =>
      if isword c || isspace c || (c =? hyphen)%N then None
      else Some ([], rest)
  end.

Definition UNSAFE_CHAR : str -> nat -> option re_match :=
  match_body_at false unsafe_char_body.

(** The file name of the [i]-th page. *)
Definition page_filename (i : nat) (p : page) : str :=
  let safe_title :=
    strip (firstn 50 (re_sub UNSAFE_CHAR (fun _ => []) (title p))) in
  let safe_title := re_sub SPACE_RUN (fun _ => [underscore]) safe_title in
  format_04d i ++ underscore :: safe_title ++ py ".json".

(** The page files of the loop over [enumerate(pages)], by name. *)
Definition page_files (pages : list page) : list (str * file_body) :=
  map (fun ip : nat * page =>
         let (i, p) := ip in (page_filename i p, PageJson p))
      (enumerate pages).

Definition build_manifest (source_name input_path : str)
    (use_header_only : bool) (pages : list page) : manifest :=
  {| mf_source := source_name;
     mf_input_file := input_path;
     mf_pattern_type :=
       if use_header_only then py "header_only" else py "with_url";
     mf_page_count := length pages;
     mf_total_content_chars :=
       fold_right Nat.add 0 (map content_length pages);
     mf_pages :=
       map (fun ip : nat * page =>
              let (i, p) := ip in
              (i, title p, source_url p, content_length p))
           (enumerate pages) |}.

(** [process_source(source_name, use_header_only)].  The raw file of
    the source is given by its decoded text, or [None] when it does not
    exist; the result comes with the files written, by path, in the
    order they are written. *)
Definition process_source (source_name : str) (raw_file : option str)
    (use_header_only : bool) : source_result * list (str * file_body) :=
  let input_path :=
    path_join (path_join RAW_DIR source_name) (py "llms-full.txt") in
  let output_dir := path_join OUTPUT_DIR source_name in
  match raw_file with
  | None => (Skipped (py "File not found: " ++ input_path) 0, [])
  | Some content =>
      let pages :=
        if use_header_only then split_with_header_pattern content
        else split_with_url_pattern content in
      match pages with
      | [] => (Failed (py "No pages found - check regex pattern") 0, [])
      | _ :: _ =>
          let mf :=
            build_manifest source_name input_path use_header_only pages in
          (Succeeded (length pages) (mf_total_content_chars mf) output_dir,
           map (fun nb : str * file_body =>
                  (path_join output_dir (fst nb), snd nb))
               (page_files pages)
           ++ [(path_join output_dir (py "manifest.json"), ManifestJson mf)])
      end
  end.

End ProcessSource.

(** ** The regular expressions as the script writes them

    The syntax the patterns of the script use, and the backtracking
    matcher of [re] for it: a pattern is run against the rest of the
    subject, with a continuation for what follows it; [bol] tells
    whether the position is at the start of a line, and the groups are
    collected as they close (none of the patterns nests groups).  The
    matchers above are proved to be what this matcher computes. *)

Inductive regex : Type :=
| Lit (l : str)                    (* literal characters *)
| Cls (cls : char -> bool)         (* one character of a class *)
| Bol                              (* [^] under MULTILINE *)
| Eol                              (* [$] under MULTILINE *)
| Plus (cls : char -> bool)        (* [c+], greedy *)
| LazyStar (cls : char -> bool)    (* [c*?], lazy *)
| Opt (r : regex)                  (* [r?], greedy *)
| Grp (r : regex)                  (* [(r)] *)
| Seq (r1 r2 : regex).

Definition bol_after (bol : bool) (consumed : str) : bool :=
  match consumed with
  | [] => bol
  | _ :: _ => (last consumed 0 =? nl)%N
  end.

(** [c*] greedy: one more character first, the continuation where it
    stands when that fails. *)
Fixpoint greedy_star {R} (cls : char -> bool) (bol : bool) (s : str)
    (k : bool -> str -> option R) : option R :=
  match s with
  | [] => k bol s
  | c :: s' =>
      if cls c then
        match greedy_star cls (c =? nl)%N s' k with
        | Some r => Some r
        | None => k bol s
        end
      else k bol s
  end.

(** [c*?] lazy: the continuation where it stands first, one more
    character when that fails. *)
Fixpoint lazy_star {R} (cls : char -> bool) (bol : bool) (s : str)
    (k : bool -> str -> option R) : option R :=
  match k bol s with
  | Some r => Some r
  | None =>
      match s with
      | [] => None
      | c :: s' => if cls c then lazy_star cls (c =? nl)%N s' k else None
      end
  end.

Fixpoint exec (r : regex) (bol : bool) (s : str) (gs : list str)
    (k : bool -> str -> list str -> option (list str * str))
    : option (list str * str) :=
  match r with
  | Lit l =>
      match lit l s with
      | Some rest => k (bol_after bol l) rest gs
      | None => None
      end
  | Cls cls =>
      match s with
      | c :: rest => if cls c then k (c =? nl)%N rest gs else None
      | [] => None
      end
  | Bol => if bol then k bol s gs else None
  | Eol =>
      match s with
      | [] => k bol s gs
      | c :: _ => if (c =? nl)%N then k bol s gs else None
      end
  | Plus cls =>
      match s with
      | c :: rest =>
          if cls c
          then greedy_star cls (c =? nl)%N rest (fun b s' => k b s' gs)
          else None
      | [] => None
      end
  | LazyStar cls => lazy_star cls bol s (fun b s' => k b s' gs)
  | Opt r' =>
      match exec r' bol s gs k with
      | Some x => Some x
      | None => k bol s gs
      end
  | Grp r' =>
      exec r' bol s gs
        (fun b s' gs' => k b s' (gs' ++ [firstn (length s - length s') s]))
  | Seq r1 r2 => exec r1 bol s gs (fun b s' gs' => exec r2 b s' gs' k)
  end.

Definition accept : bool -> str -> list str -> option (list str * str) :=
  fun _ rest gs => Some (gs, rest).

(** [pattern.match(text, pos)] for a compiled regular expression. *)
Definition run (r : regex) (text : str) (pos : nat) : option re_match :=
  match exec r (at_bol text pos) (skipn pos text) [] accept with
  | Some (gs, rest) =>
      Some {| m_start := pos; m_end := length text - length rest;
              m_groups := gs |}
  | None => None
  end.

(** [.] and [[^\n]]; [[\s\S]]. *)
Definition not_nl (c : char) : bool := negb (c =? nl)%N.
Definition any_char (c : char) : bool := isspace c || negb (isspace c).

(** [https?://[^\n]+] *)
Definition RE_URL : regex :=
  Seq (Lit (py "http")) (Seq (Opt (Lit (py "s")))
      (Seq (Lit (py "://")) (Plus not_nl))).

(** [^# (.+)$\nSource: (https?://[^\n]+)] *)
Definition RE_WITH_URL : regex :=
  Seq Bol (Seq (Lit (py "# ")) (Seq (Grp (Plus not_nl)) (Seq Eol
  (Seq (Lit (nl :: py "Source: ")) (Grp RE_URL))))).

(** [^# (.+)$] *)
Definition RE_HEADER_ONLY : regex :=
  Seq Bol (Seq (Lit (py "# ")) (Seq (Grp (Plus not_nl)) Eol)).

(** [^# ] *)
Definition RE_HASH : regex := Seq Bol (Lit (py "# ")).

(** [```[\s\S]*?```] *)
Definition RE_CODE_BLOCK : regex :=
  Seq (Lit (py "```")) (Seq (LazyStar any_char) (Lit (py "```"))).

(** [\s+] *)
Definition RE_SPACE_RUN : regex := Plus isspace.

(** [[^\w\s-]] *)
Definition RE_UNSAFE_CHAR (isalnum : char -> bool) : regex :=
  Cls (fun c => negb (isword isalnum c || isspace c || (c =? hyphen)%N)).

(** What is left of a text after its longest run in a class. *)
Fixpoint drop_while (cls : char -> bool) (s : str) : str :=
  match s with
  | [] => []
  | c :: s' => if cls c then drop_while cls s' else s
  end.

(** ** Well-formedness of patterns and of match lists *)

(** A pattern reports a match at the position it was run at, and the
    match is not empty and ends inside the subject. *)
Definition pattern_ok (pattern : str -> nat -> option re_match) : Prop :=
  forall text pos m,
    pattern text pos = Some m ->
    m_start m = pos /\ pos < m_end m <= length text.

(** Matches in scan order from [pos] on: each starts at or after the
    end of the one before it. *)
Fixpoint chained (len pos : nat) (ms : list re_match) : Prop :=
  match ms with
  | [] => True
  | m :: ms' =>
      pos <= m_start m /\ m_start m < m_end m /\ m_end m <= len
      /\ chained len (m_end m) ms'
  end.

(** [$] under MULTILINE, seen from the rest of the subject: the end of
    the subject or a ['\n'] comes next. *)
Definition at_eol (rest : str) : Prop :=
  match rest with
  | [] => True
  | c :: _ => c = nl
  end.

(** A pattern body consumes a non-empty prefix of its subject. *)
Definition body_ok (body : str -> option (list str * str)) : Prop :=
  forall s gs rest,
    body s = Some (gs, rest) ->
    exists matched, matched <> [] /\ s = matched ++ rest.

(** Reading a digit string back (any other character ends it): the
    inverse of [uint_digits], used to tell file names apart. *)
Fixpoint digits_uint (s : str) : Decimal.uint :=
  match s with
  | [] => Decimal.Nil
  | c :: s' =>
      if (c =? 48)%N then Decimal.D0 (digits_uint s')
      else if (c =? 49)%N then Decimal.D1 (digits_uint s')
      else if (c =? 50)%N then Decimal.D2 (digits_uint s')
      else if (c =? 51)%N then Decimal.D3 (digits_uint s')
      else if (c =? 52)%N then Decimal.D4 (digits_uint s')
      else if (c =? 53)%N then Decimal.D5 (digits_uint s')
      else if (c =? 54)%N then Decimal.D6 (digits_uint s')
      else if (c =? 55)%N then Decimal.D7 (digits_uint s')
      else if (c =? 56)%N then Decimal.D8 (digits_uint s')
      else if (c =? 57)%N then Decimal.D9 (digits_uint s')
      else Decimal.Nil
  end.

(** The [use_header_only] argument that selects a strategy. *)
Definition use_header_only (St : strategy) : bool :=
  match St with
  | WithUrl => false
  | HeaderOnly => true
  end.

(** ** The page loop and the pages as a partition *)

(** The page the loop of [build_pages] appends for the match [m] when
    its body ends at [content_end]. *)
Definition page_at (url_of : re_match -> option str) (text : str)
    (m : re_match) (content_end : nat) : page :=
  let page_content := strip (slice text (m_end m) content_end) in
  {| title := strip (group m 1);
     source_url := url_of m;
     content := page_content;
     content_length := length page_content |}.

(** The same loop, by recursion on the list of matches. *)
Fixpoint pages_rec (url_of : re_match -> option str) (text : str)
    (ms : list re_match) : list page :=
  match ms with
  | [] => []
  | m :: rest =>
      page_at url_of text m
        (match rest with
         | [] => length text
         | m' :: _ => m_start m'
         end)
      :: pages_rec url_of text rest
  end.

Definition url_of_strategy (St : strategy) : re_match -> option str :=
  match St with
  | WithUrl => fun m => Some (strip (group m 2))
  | HeaderOnly => fun _ => None
  end.

(** What a splitter returns for the text it scans. *)
Definition pages_of_scanned (St : strategy) (scanned : str) : list page :=
  build_pages (url_of_strategy St) scanned
    (finditer (boundary_pattern St) scanned).

(** The boundary markers: the text of each boundary match. *)
Definition marker_texts (St : strategy) (content : str) : list str :=
  map (fun m => slice (scanned_text St content) (m_start m) (m_end m))
      (boundaries St content).

(** A text put together again from the pages: per page, in order, its
    boundary marker, whitespace, its content, whitespace. *)
Fixpoint reassemble (markers : list str) (pages : list page)
    (gaps : list (str * str)) : str :=
  match markers, pages, gaps with
  | mk :: markers', pg :: pages', (lead, trail) :: gaps' =>
      mk ++ lead ++ content pg ++ trail ++ reassemble markers' pages' gaps'
  | _, _, _ => []
  end.

Definition all_space (s : str) : Prop := forallb isspace s = true.

(** The pages partition [T]: there is one marker per page and, for some
    whitespace trimmed from the edges of each page body (one pair per
    page), every marker and every page taken once, in order, with that
    whitespace give back [T]. *)
Definition reconstructs (T : str) (markers : list str) (pages : list page)
    : Prop :=
  length markers = length pages
  /\ exists gaps,
       length gaps = length pages
       /\ Forall (fun g => all_space (fst g) /\ all_space (snd g)) gaps
       /\ reassemble markers pages gaps = T.

(** A match of a text seen as a match of the text cut at [p]. *)
Definition shift_back (p : nat) (m : re_match) : re_match :=
  {| m_start := m_start m - p;
     m_end := m_end m - p;
     m_groups := m_groups m |}.

(** ** Positions rewritten by the code-block pass *)

(** The position lies in a match of the code-block pattern. *)
Definition in_block (text : str) (p : nat) : bool :=
  existsb (fun m => (m_start m <=? p) && (p <? m_end m))
          (finditer CODE_BLOCK text).

(** A line starts at the position, with [# ]. *)
Definition hash_line_at (text : str) (p : nat) : bool :=
  at_bol text p &&
  match lit [hash; space] (skipn p text) with
  | Some _ => true
  | None => false
  end.

(** The lines the pass demotes: they begin with [# ] inside a match of
    the code-block pattern. *)
Definition demoted (text : str) (p : nat) : bool :=
  hash_line_at text p && in_block text p.

(** The text with [##] put in front of the characters at the marked
    positions, [pos] being the position of the first character. *)
Fixpoint insert_from (marked : nat -> bool) (pos : nat) (s : str) : str :=
  match s with
  | [] => []
  | c :: s' =>
      (if marked pos then [hash; hash] else [])
      ++ c :: insert_from marked (S pos) s'
  end.

(** Number of line breaks of a text, and the number of the line a
    position is on. *)
Definition count_nl (s : str) : nat :=
  length (filter (fun c => (c =? nl)%N) s).

Definition line_of (text : str) (p : nat) : nat := count_nl (firstn p text).

(** Number of marked positions among the [n] positions from [pos]. *)
Definition count_marked (marked : nat -> bool) (pos n : nat) : nat :=
  length (filter marked (seq pos n)).

(** ** Runs of three backticks, as the code-block pattern pairs them *)

(** The pattern [```], run at a position; its matches in a text are
    found from left to right, without overlap. *)
Definition fence_body (s : str) : option (list str * str) :=
  match lit fence s with
  | Some rest => Some ([], rest)
  | None => None
  end.

Definition FENCE : str -> nat -> option re_match :=
  match_body_at false fence_body.

Definition fences (text : str) : list re_match := finditer FENCE text.

(** The matches of [```] taken two by two: from the start of one to
    the end of the next. *)
Fixpoint pair_up (fs : list re_match) : list re_match :=
  match fs with
  | f1 :: f2 :: rest =>
      {| m_start := m_start f1; m_end := m_end f2; m_groups := [] |}
      :: pair_up rest
  | _ => []
  end.

(** ** Fenced code blocks in the words of the specification *)

(** A run of three backticks starts at the position. *)
Definition backticks_at (text : str) (p : nat) : bool :=
  match lit fence (skipn p text) with
  | Some _ => true
  | None => false
  end.

(** A fence line: a line starts at the position and begins with
    exactly three backticks (a fourth one does not follow; an info
    string may). *)
Definition fence_line_at (text : str) (p : nat) : bool :=
  at_bol text p &&
  match lit fence (skipn p text) with
  | Some (c :: _) => negb (c =? backtick)%N
  | Some [] => true
  | None => false
  end.

(** The starts of the fence lines of a text, in the order of the text.
    They are taken alternately as opening and closing: the first one
    opens a block, the next one closes it, the third one opens the next
    block, and so on. *)
Definition fence_lines (text : str) : list nat :=
  filter (fence_line_at text) (seq 0 (length text)).

(** The fences are well-formed: every opening fence line has a closing
    one after it, that is, the fence lines come in pairs. *)
Definition fences_well_formed (text : str) : bool :=
  Nat.even (length (fence_lines text)).

(** A position lies inside a fenced code block: the last fence line
    that starts before it is an opening one, and a fence line that
    closes the block starts after it. *)
Definition inside_fence (text : str) (p : nat) : bool :=
  Nat.odd (length (filter (fun q => q <? p) (fence_lines text)))
  && existsb (fun q => p <? q) (fence_lines text).

(** A line that begins with [# ] inside a fenced code block starts at
    the position. *)
Definition fenced_header (text : str) (p : nat) : bool :=
  hash_line_at text p && inside_fence text p.

(** Every run of three backticks of the text starts a line: none
    stands in the middle of a line, and none is part of a longer run
    of backticks. *)
Definition backticks_start_lines (text : str) : bool :=
  forallb (fun p => implb (backticks_at text p) (at_bol text p))
          (seq 0 (length text)).

(** A small document with a comment line inside a fenced block. *)
Definition fenced_doc : str :=
  py "```" ++ nl :: py "# not a header" ++ nl :: py "```" ++ nl ::
  py "# Real Header" ++ nl :: py "body" ++ [nl].

(** A document whose prose mentions three backticks in the middle of
    a line, before a fenced block that holds a comment line. *)
Definition inline_backticks_doc : str :=
  py "# Doc" ++ nl :: py "Use ``` here." ++ nl :: py "```" ++ nl ::
  py "# c" ++ nl :: py "```" ++ [nl].

(** A document with a fenced block shown inside a block that is fenced
    by four backticks. *)
Definition nested_fence_doc : str :=
  py "# Doc" ++ nl :: py "````" ++ nl :: py "```" ++ nl ::
  py "# inner" ++ nl :: py "```" ++ nl :: py "````" ++ nl ::
  py "tail" ++ [nl].

(** A small document with text before its first boundary. *)
Definition preamble_doc : str :=
  py "x" ++ nl :: py "# A" ++ nl :: py "Source: http://u" ++ nl :: py "body".

(** A document of three pages for Strategy A, with text before the
    first boundary and blank lines around a page body. *)
Definition three_page_doc : str :=
  py "intro" ++ nl :: py "# A" ++ nl :: py "Source: http://u" ++ nl :: nl ::
  py "body a" ++ nl :: nl :: py "# B" ++ nl :: py "Source: https://v" ++ nl ::
  py "b" ++ nl :: py "# C" ++ nl :: py "Source: http://w" ++ [nl].

(** A document of two pages for Strategy B, the first with a fenced
    block that holds a comment line. *)
Definition block_pages_doc : str :=
  py "# A" ++ nl :: py "```" ++ nl :: py "# c" ++ nl :: py "```" ++ nl :: nl ::
  py "# B" ++ nl :: py "text" ++ [nl].

(** ** The statements of the specification *)

(** A page record is emitted for the position [pos] of the scanned
    text: one of the boundaries starts there and the page built from it
    is in the result, at the same index. *)
Definition page_emitted_at (St : strategy) (content : str) (pos : nat)
    : Prop :=
  exists i m pg,
    nth_error (boundaries St content) i = Some m
    /\ m_start m = pos
    /\ nth_error (split_pages St content) i = Some pg.

(** The words of the specification for a boundary of Strategy A: at
    [pos] a line begins with a single [#], a blank and a non-empty
    title, and the very next line begins with [Source: ] and an
    [http://] or [https://] URL. *)
Definition header_then_source_at (text : str) (pos : nat) : Prop :=
  (pos = 0 \/ exists p, pos = S p /\ nth_error text p = Some nl)
  /\ exists ttl scheme c tail,
       skipn pos text =
         hash :: space :: ttl ++ nl :: py "Source: " ++ scheme ++ c :: tail
       /\ ttl <> [] /\ ~ In nl ttl
       /\ (scheme = py "http://" \/ scheme = py "https://")
       /\ c <> nl.

(** ** Lines, page bodies and the run over all sources *)

(** The text from a position to the end of its line. *)
Definition line_from (text : str) (pos : nat) : str :=
  fst (span_line (skipn pos text)).

(** Where the body of the [i]-th page ends: [content_end] in the loop
    of the splitters. *)
Definition body_end (ms : list re_match) (len i : nat) : nat :=
  match nth_error ms (S i) with
  | Some m' => m_start m'
  | None => len
  end.

(** A text does not begin with whitespace. *)
Definition starts_unspaced (s : str) : Prop :=
  match s with
  | [] => True
  | c :: _ => isspace c = false
  end.

Definition slash : char := 47%N.     (* '/'  *)

(** [a == b] on strings. *)
Definition str_eqb (a b : str) : bool :=
  if list_eq_dec N.eq_dec a b then true else false.

(** [d[k] = v] on a dictionary kept in insertion order: the value of a
    key already present is replaced where it stands, a new key is put
    at the end. *)
Definition dict_set {V} (d : list (str * V)) (k : str) (v : V)
    : list (str * V) :=
  if existsb (fun e => str_eqb (fst e) k) d
  then map (fun e => if str_eqb (fst e) k then (k, v) else e) d
  else d ++ [(k, v)].

Definition SOURCES_WITH_URL : list str :=
  [py "LangChain"; py "Anthropic"; py "Prefect"; py "FastMCP";
   py "McpProtocol"].

Definition SOURCES_HEADER_ONLY : list str := [py "PydanticAI"; py "Zep"].

(** [result['status'] == 'success'] *)
Definition is_success (r : source_result) : bool :=
  match r with
  | Succeeded _ _ _ => true
  | _ => false
  end.

(** [result['page_count']] *)
Definition result_page_count (r : source_result) : nat :=
  match r with
  | Skipped _ n => n
  | Failed _ n => n
  | Succeeded n _ _ => n
  end.

(** The manifest [main] writes over all the sources. *)
Record overall_manifest := {
  sources_processed : nat;
  total_pages : nat;
  results : list (str * source_result)
}.

Inductive written :=
| SourceFile (b : file_body)
| OverallManifest (om : overall_manifest).

Definition is_page_file (w : written) : bool :=
  match w with
  | SourceFile (PageJson _) => true
  | _ => false
  end.

Definition is_source_manifest (w : written) : bool :=
  match w with
  | SourceFile (ManifestJson _) => true
  | _ => false
  end.

(** What a result adds to [total_pages]. *)
Definition counted (r : source_result) : nat :=
  if is_success r then result_page_count r else 0.

Section Main.

Variable isalnum : char -> bool.
Variables RAW_DIR OUTPUT_DIR : str.

(** The raw file of each source, by the name of the source: its
    decoded text, or [None] when the file does not exist. *)
Variable read_raw : str -> option str.

(** The state of the two loops of [main]: the dictionary [results],
    the counter [total_pages] and the files written so far. *)
Definition main_state : Type :=
  list (str * source_result) * nat * list (str * file_body).

(** [process_source(source, use_header_only)] with the raw file it
    reads. *)
Definition run_source (use_header_only : bool) (source : str)
    : source_result * list (str * file_body) :=
  process_source isalnum RAW_DIR OUTPUT_DIR source (read_raw source)
    use_header_only.

(** One of the two [for source in ...] loops of [main]. *)
Definition process_sources (use_header_only : bool) (sources : list str)
    (st : main_state) : main_state :=
  fold_left
    (fun (st : main_state) (source : str) =>
       let '(results, total_pages, files) := st in
       let (result, files') := run_source use_header_only source in
       (dict_set results source result,
        (if is_success result
         then total_pages + result_page_count result
         else total_pages),
        files ++ files'))
    sources st.

(** [main()]: the overall manifest and all the files written, by path,
    in the order they are written. *)
Definition main : overall_manifest * list (str * written) :=
  let st := process_sources false SOURCES_WITH_URL ([], 0, []) in
  let '(results, total_pages, files) :=
    process_sources true SOURCES_HEADER_ONLY st in
  let overall :=
    {| sources_processed :=
         length (filter is_success (map snd results));
       total_pages := total_pages;
       results := results |} in
  (overall,
   map (fun nb : str * file_body => (fst nb, SourceFile (snd nb))) files
   ++ [(path_join OUTPUT_DIR (py "manifest.json"), OverallManifest overall)]).

End Main.

(** ** The structure analysis of scripts/analyze_llms_structure.py *)

(** [^# (.+)\nSource: (https?://[^\n]+)\n] from the start of a line:
    the greedy [.+] runs to the end of the line, where the literal
    ['\n'] must follow, so up to the URL the matcher is the one of
    [PAGE_PATTERN_WITH_URL]; the pattern then asks for the ['\n'] that
    ends the URL line ([document_engine] below). *)
Definition document_body (s : str) : option (list str * str) :=
  match header_url_body s with
  | None => None
  | Some (gs, r) =>
      match lit [nl] r with
      | Some rest => Some (gs, rest)
      | None => None
      end
  end.

Definition DOCUMENT_PATTERN : str -> nat -> option re_match :=
  match_body_at true document_body.

Record document_info := {
  doc_title : str;
  doc_source_url : str;
  doc_content : str;
  size_chars : nat
}.

(** [split_into_documents(content)]. *)
Definition split_into_documents (content : str) : list document_info :=
  let matches := finditer DOCUMENT_PATTERN content in
  map (fun im : nat * re_match =>
         let (i, m) := im in
         let start := m_end m in
         let end_ :=
           if i + 1 <? length matches
           then m_start (nth (i + 1) matches dummy_match)
           else length content in
         let content_of_doc := strip (slice content start end_) in
         {| doc_title := group m 1;
            doc_source_url := group m 2;
            doc_content := content_of_doc;
            size_chars := length content_of_doc |})
      (enumerate matches).

(** [^#{n} .+] under MULTILINE, for a header of level [n]. *)
Definition heading_body (n : nat) (s : str) : option (list str * str) :=
  match lit (repeat hash n ++ [space]) s with
  | None => None
  | Some s1 =>
      match span_line s1 with
      | ([], _) => None
      | (_, rest) => Some ([], rest)
      end
  end.

Definition HEADING (n : nat) : str -> nat -> option re_match :=
  match_body_at true (heading_body n).

Record header_counts := { h1 : nat; h2 : nat; h3 : nat; h4 : nat }.

(** [analyze_headers(content)]: [len(re.findall(...))] is the number of
    matches [finditer] reports. *)
Definition analyze_headers (content : str) : header_counts :=
  {| h1 := length (finditer (HEADING 1) content);
     h2 := length (finditer (HEADING 2) content);
     h3 := length (finditer (HEADING 3) content);
     h4 := length (finditer (HEADING 4) content) |}.

(** [^# (.+)\nSource: (https?://[^\n]+)\n] *)
Definition RE_DOCUMENT : regex :=
  Seq Bol (Seq (Lit (py "# ")) (Seq (Grp (Plus not_nl))
  (Seq (Lit (nl :: py "Source: ")) (Seq (Grp RE_URL) (Lit [nl]))))).

(** [^#{n} .+] *)
Definition RE_HEADING (n : nat) : regex :=
  Seq Bol (Seq (Lit (repeat hash n ++ [space])) (Plus not_nl)).

(** A page record made of a document of the analysis: the splitter
    trims the title and the URL, the analysis keeps them as matched. *)
Definition page_of_document (d : document_info) : page :=
  {| title := strip (doc_title d);
     source_url := Some (strip (doc_source_url d));
     content := doc_content d;
     content_length := size_chars d |}.

(** ** Loading the pages: scripts/upload_to_qdrant.py *)

Definition dot : char := 46%N.       (* '.'  *)

(** [s.rfind(c)]: the index of the last occurrence, if there is one. *)
Fixpoint rfind_from (c : char) (s : str) (pos : nat) (found : option nat)
    : option nat :=
  match s with
  | [] => found
  | d :: s' =>
      rfind_from c s' (S pos) (if (d =? c)%N then Some pos else found)
  end.

Definition rfind (c : char) (s : str) : option nat := rfind_from c s 0 None.

(** [PurePath.stem] of a file name: the name without its last suffix;
    a dot at either end of the name starts no suffix. *)
Definition stem (name : str) : str :=
  match rfind dot name with
  | Some i =>
      if (0 <? i) && (i <? length name - 1) then firstn i name else name
  | None => name
  end.

(** [s.split(sep)[0]] for a one-character separator: the text before
    its first occurrence, all of [s] when there is none. *)
Fixpoint split_first (sep : char) (s : str) : str :=
  match s with
  | [] => []
  | c :: s' => if (c =? sep)%N then [] else c :: split_first sep s'
  end.

(** [name] matches the glob [*suffix]. *)
Definition glob_suffix (suffix name : str) : bool :=
  (length suffix <=? length name)
  && str_eqb (skipn (length name - length suffix) name) suffix.

(** The LangChain document of a page and the metadata the loader
    attaches to it.  The hierarchy keys ([header_level] and the like)
    are absent from the files of the splitter, so [data.get] gives
    [None] for them; [avg_content_length] is left out with the
    average of the result. *)
Record document := {
  page_content : str;
  md_title : str;
  md_source_url : option str;
  md_content_length : nat;
  md_source_name : str;
  md_total_pages : nat;
  md_doc_id : str;
  md_page_number : str
}.

Inductive load_error :=
| ManifestNotFound            (* FileNotFoundError *)
| KeyError (key : str).       (* data["content"] on a file without it *)

(** [data.get("title") or "Untitled"] *)
Definition title_or_untitled (t : str) : str :=
  match t with
  | [] => py "Untitled"
  | _ :: _ => t
  end.

(** The body of the loop over [json_files], for one file. *)
Definition load_json_file (source_name : str) (source_manifest : source_result)
    (file : str * file_body) : load_error + document :=
  match snd file with
  | ManifestJson _ => inl (KeyError (py "content"))
  | PageJson data =>
      let page_num := split_first underscore (stem (fst file)) in
      inr {| page_content := content data;
             md_title := title_or_untitled (title data);
             md_source_url := source_url data;
             md_content_length := content_length data;
             md_source_name := source_name;
             md_total_pages := result_page_count source_manifest;
             md_doc_id := source_name ++ underscore :: page_num;
             md_page_number := page_num |}
  end.

Fixpoint load_json_files (source_name : str) (source_manifest : source_result)
    (files : list (str * file_body)) : load_error + list document :=
  match files with
  | [] => inr []
  | f :: files' =>
      match load_json_file source_name source_manifest f with
      | inl e => inl e
      | inr d =>
          match load_json_files source_name source_manifest files' with
          | inl e => inl e
          | inr ds => inr (d :: ds)
          end
      end
  end.

(** The documents of one source directory, whose entries are given by
    name in the order [glob] lists them. *)
Definition load_source_documents (source_name : str)
    (source_manifest : source_result) (listing : list (str * file_body))
    : load_error + list document :=
  let json_files :=
    filter (fun f => glob_suffix (py ".json") (fst f)
                     && negb (str_eqb (fst f) (py "manifest.json")))
           listing in
  load_json_files source_name source_manifest json_files.

(** [d.get(k)] on a dictionary kept as a list of entries. *)
Fixpoint dict_get {V} (d : list (str * V)) (k : str) : option V :=
  match d with
  | [] => None
  | (k', v) :: d' => if str_eqb k' k then Some v else dict_get d' k
  end.

(** [load_documents(pages_dir, source_filter)].  The overall manifest is
    given by its [results] ([None] when the file does not exist), the
    entries of [pages_dir] in sorted order, each with its listing when
    it is a directory. *)
Fixpoint load_entries (results : list (str * source_result))
    (source_filter : option (list str))
    (entries : list (str * option (list (str * file_body))))
    : load_error + list document :=
  match entries with
  | [] => inr []
  | (source_name, entry) :: entries' =>
      let rest := load_entries results source_filter entries' in
      match entry with
      | None => rest                       (* not a directory *)
      | Some listing =>
          let filtered_out :=
            match source_filter with
            | None => false
            | Some names =>
                match names with
                | [] => false
                | _ :: _ => negb (existsb (str_eqb source_name) names)
                end
            end in
          if filtered_out then rest
          else
            match dict_get results source_name with
            | None => rest                 (* not in the manifest *)
            | Some source_manifest =>
                match load_source_documents source_name source_manifest
                        listing with
                | inl e => inl e
                | inr docs =>
                    match rest with
                    | inl e => inl e
                    | inr docs' => inr (docs ++ docs')
                    end
                end
            end
      end
  end.

Definition load_documents (manifest : option (list (str * source_result)))
    (source_filter : option (list str))
    (entries : list (str * option (list (str * file_body))))
    : load_error + list document :=
  match manifest with
  | None => inl ManifestNotFound
  | Some results => load_entries results source_filter entries
  end.

(** ** Batches of scripts/upload_to_qdrant.py *)

(** [l[a:b]] on any list, for non-negative [a] and [b]. *)
Definition list_slice {A} (l : list A) (a b : nat) : list A :=
  firstn (b - a) (skipn a l).

(** [range(0, n, step)] for a positive [step], from [i] on: each step
    moves on by at least one, so [fuel = n] steps reach [n]. *)
Fixpoint range_from (fuel i n step : nat) : list nat :=
  match fuel with
  | 0 => []
  | S fuel' =>
      if i <? n then i :: range_from fuel' (i + step) n step else []
  end.

(** [range(0, n, step)]: a [ValueError] when [step] is zero, empty when
    it is negative. *)
Definition py_range (n : nat) (step : Z) : option (list nat) :=
  if (step =? 0)%Z then None
  else if (step <? 0)%Z then Some []
  else Some (range_from n 0 n (Z.to_nat step)).

(** [[documents[i : i + batch_size]
      for i in range(0, len(documents), batch_size)]] *)
Definition batches {A} (documents : list A) (batch_size : Z)
    : option (list (list A)) :=
  match py_range (length documents) batch_size with
  | None => None
  | Some starts =>
      Some (map (fun i =>
                   list_slice documents i (i + Z.to_nat batch_size))
                starts)
  end.

(** A match that takes one more character: the ['\n'] after it. *)
Definition with_newline (m : re_match) : re_match :=
  {| m_start := m_start m; m_end := S (m_end m); m_groups := m_groups m |}.

(** The document the loader is to make of the [i]-th page of a
    source. *)
Definition document_of_page (source_name : str) (source_manifest : source_result)
    (i : nat) (p : page) : document :=
  {| page_content := content p;
     md_title := title_or_untitled (title p);
     md_source_url := source_url p;
     md_content_length := content_length p;
     md_source_name := source_name;
     md_total_pages := result_page_count source_manifest;
     md_doc_id := source_name ++ underscore :: format_04d i;
     md_page_number := format_04d i |}.

(** ** Uploading the batches *)

Section Upload.

(** [vector_store.add_documents(documents=batch)]: the identifiers of
    the stored documents, or the message of the exception raised. *)
Variable add_documents : list document -> str + list str.





End Upload.


(** ** Header lines *)

(** A line starts at [p] and is [# ] followed by the non-empty text
    [ttl], up to the end of the line. *)
Definition header_line_at (text : str) (p : nat) (ttl : str) : Prop :=
  at_bol text p = true
  /\ exists rest,
       skipn p text = hash :: space :: ttl ++ rest
       /\ ttl <> [] /\ ~ In nl ttl /\ at_eol rest.

(** ** The search tool of mcp_server.py *)

(** [needle in hay] on strings. *)
Fixpoint contains (needle hay : str) : bool :=
  match lit needle hay with
  | Some _ => true
  | None =>
      match hay with
      | [] => false
      | _ :: hay' => contains needle hay'
      end
  end.

(** [str(n)] and [f'{n}'] for a length or a count. *)
Definition str_of_nat (n : nat) : str := uint_digits (Nat.to_uint n).

(** [f'{v}'] for a metadata value that is a string or [None]. *)
Definition str_of_option (v : option str) : str :=
  match v with
  | Some s => s
  | None => py "None"
  end.

(** [sep.join(parts)] *)
Fixpoint join (sep : str) (parts : list str) : str :=
  match parts with
  | [] => []
  | part :: parts' =>
      match parts' with
      | [] => part
      | _ :: _ => part ++ sep ++ join sep parts'
      end
  end.

(** [k = max(1, min(k, 20))] *)
Definition clamp_k (k : Z) : Z := Z.max 1 (Z.min k 20).

(** [if source:] for an optional string. *)
Definition truthy (source : option str) : bool :=
  match source with
  | Some (_ :: _) => true
  | _ => false
  end.

(** What the search of [search_docs] comes to: an early answer, the
    results to format, or an exception for the outer handler. *)
Inductive search_outcome :=
| Answer (message : str)
| Results (results : list document)
| Raised (error : str).

Section Search.

(** [vector_store.similarity_search(query, k=k, filter=...)]: the
    filter, when there is one, asks for the documents of one source;
    the results, or the text of the exception raised. *)
Variable similarity_search : str -> Z -> option str -> str + list document.

(** The search proper of [search_docs]: lines 90 to 125. *)
Definition search_results (query : str) (k : Z) (source : option str)
    : search_outcome :=
  let k := clamp_k k in
  let filter_dict := if truthy source then source else None in
  match similarity_search query k filter_dict with
  | inr results => Results results
  | inl filter_error =>
      if truthy source && contains (py "Index required") filter_error then
        match similarity_search query (k * 3) None with
        | inl e => Raised e
        | inr results =>
            let results :=
              firstn (Z.to_nat k)
                (filter (fun doc =>
                           match source with
                           | Some s => str_eqb (md_source_name doc) s
                           | None => false
                           end) results) in
            match results with
            | [] =>
                Answer (py "No results found for query '" ++ query
                        ++ py "' in source '" ++ str_of_option source
                        ++ py "'. Note: payload index not created for optimal filtering.")
            | _ :: _ => Results results
            end
        end
      else Raised filter_error
  end.

(** The lines [search_docs] appends for the [i]-th of [n] results. *)
Definition format_result (i n : nat) (doc : document) : list str :=
  [ nl :: repeat 61%N 80;
    py "Result " ++ str_of_nat i ++ py "/" ++ str_of_nat n;
    repeat 61%N 80;
    py "Title: " ++ md_title doc;
    py "Source: " ++ md_source_name doc;
    py "URL: " ++ str_of_option (md_source_url doc);
    py "Doc ID: " ++ md_doc_id doc;
    nl :: py "Content Preview (" ++ str_of_nat (length (page_content doc))
       ++ py " chars total):";
    repeat 45%N 80 ]
  ++ (let preview_length := 1000 in
      if preview_length <? length (page_content doc)
      then [ firstn preview_length (page_content doc) ++ py "...";
             nl :: py "[Truncated. Full content: "
                ++ str_of_nat (length (page_content doc)) ++ py " chars]" ]
      else [ page_content doc ]).

Definition format_results (query : str) (results : list document) : str :=
  join [nl]
    ((py "Found " ++ str_of_nat (length results) ++ py " results for: '"
      ++ query ++ py "'" ++ [nl])
     :: flat_map (fun id : nat * document =>
                    format_result (S (fst id)) (length results) (snd id))
          (enumerate results)).

(** [search_docs(query, k, source)]; [store_error] is the text of the
    exception [get_vector_store()] raises when the environment is not
    set up. *)
Definition search_docs (store_error : option str) (query : str) (k : Z)
    (source : option str) : str :=
  match store_error with
  | Some e => py "Error during search: " ++ e
  | None =>
      match search_results query k source with
      | Answer message => message
      | Raised e => py "Error during search: " ++ e
      | Results [] => py "No results found for query: '" ++ query ++ py "'"
      | Results (doc :: results) => format_results query (doc :: results)
      end
  end.

End Search.

(** ** Removing stale projects: analysis-docs/cleanup_claude_json.py *)


Section Cleanup.

(** [os.path.isdir], and the type of a project's configuration. *)
Variable isdir : str -> bool.
Variable project_config : Type.



End Cleanup.

(** ** Reading the environment file: scripts/add_qdrant_to_project.py *)

Definition equals_sign : char := 61%N.   (* '=' *)

(** [s.startswith(prefix)] *)
Definition startswith (prefix s : str) : bool :=
  match lit prefix s with
  | Some _ => true
  | None => false
  end.

(** The body of the loop over the lines of [.env]: a line that, once
    stripped, is not empty, is no comment and holds an [=] sets the
    key before its first [=] to all that follows it. *)
Definition read_env_line (env_vars : list (str * str)) (line : str)
    : list (str * str) :=
  let line := strip line in
  if match line with [] => false | _ :: _ => true end
     && negb (startswith (py "#") line)
     && existsb (N.eqb equals_sign) line
  then
    let key := split_first equals_sign line in
    let value := skipn (S (length key)) line in
    dict_set env_vars key value
  else env_vars.

(** [env_vars] after the loop, for the lines of the file in order. *)
Definition read_env (lines : list str) : list (str * str) :=
  fold_left read_env_line lines [].

Definition required_vars : list str :=
  [py "QDRANT_API_URL"; py "QDRANT_API_KEY"; py "OPENAI_API_KEY"].

(** [[var for var in required_vars if var not in env_vars]] *)
Definition missing_vars (env_vars : list (str * str)) : list str :=
  filter (fun var =>
            match dict_get env_vars var with
            | Some _ => false
            | None => true
            end)
         required_vars.

(** * Properties *)

(** ** Strings and slices *)

Lemma lstrip_split (s : str) :
  exists lead, s = lead ++ lstrip s /\ forallb isspace lead = true.
Proof.
  induction s as [|c s IH]; simpl.
  - exists []. auto.
  - destruct (isspace c) eqn:E.
    + destruct IH as (lead & Hs & Hl).
      exists (c :: lead). simpl. rewrite E, Hl. split; [congruence | reflexivity].
    + exists []. auto.
Qed.

Lemma rstrip_split (s : str) :
  exists trail, s = rstrip s ++ trail /\ forallb isspace trail = true.
Proof.
  unfold rstrip. destruct (lstrip_split (rev s)) as (lead & Hs & Hl).
  exists (rev lead). split.
  - rewrite <- rev_app_distr, <- Hs. symmetry. apply rev_involutive.
  - apply forallb_forall. intros c Hc. apply in_rev in Hc.
    rewrite forallb_forall in Hl. auto.
Qed.

Lemma strip_split (s : str) :
  exists lead trail,
    s = lead ++ strip s ++ trail
    /\ forallb isspace lead = true /\ forallb isspace trail = true.
Proof.
  destruct (lstrip_split s) as (lead & Hs & Hl).
  destruct (rstrip_split (lstrip s)) as (trail & Hr & Ht).
  exists lead, trail. unfold strip. rewrite <- Hr. auto.
Qed.

Lemma slice_skipn (s : str) (a b : nat) :
  a <= b -> slice s a b ++ skipn b s = skipn a s.
Proof.
  intros Hab. unfold slice.
  replace (skipn b s) with (skipn (b - a) (skipn a s)).
  - apply firstn_skipn.
  - rewrite skipn_skipn. f_equal. lia.
Qed.

Lemma slice_to_end (s : str) (a : nat) : slice s a (length s) = skipn a s.
Proof.
  unfold slice. apply firstn_all2. rewrite length_skipn. lia.
Qed.

Lemma length_slice (s : str) (a b : nat) :
  b <= length s -> length (slice s a b) = b - a.
Proof.
  intros Hb. unfold slice. rewrite length_firstn, length_skipn. lia.
Qed.

Lemma slice_shift (s : str) (p a b : nat) :
  slice (skipn p s) a b = slice s (p + a) (p + b).
Proof.
  unfold slice. rewrite skipn_skipn.
  replace (p + b - (p + a)) with (b - a) by lia.
  replace (a + p) with (p + a) by lia. reflexivity.
Qed.

(** ** The scan of [finditer] *)

Section Finditer.

Variable pattern : str -> nat -> option re_match.
Variable text : str.
Hypothesis Hok : pattern_ok pattern.

Lemma max_end (pos : nat) (m : re_match) :
  pattern text pos = Some m -> Nat.max (m_end m) (S pos) = m_end m.
Proof. intros H. apply Hok in H. lia. Qed.

(** The fuel of [finditer] is enough: more of it changes nothing. *)
Lemma finditer_from_fuel (fuel1 fuel2 pos : nat) :
  length text < fuel1 + pos -> length text < fuel2 + pos ->
  finditer_from pattern text fuel1 pos = finditer_from pattern text fuel2 pos.
Proof.
  revert fuel2 pos.
  induction fuel1 as [|f1 IH]; intros fuel2 pos H1 H2.
  - destruct fuel2; simpl; [reflexivity|].
    destruct (Nat.ltb_spec (length text) pos); [reflexivity | lia].
  - destruct fuel2 as [|f2]; simpl.
    + destruct (Nat.ltb_spec (length text) pos); [reflexivity | lia].
    + destruct (Nat.ltb_spec (length text) pos); [reflexivity|].
      destruct (pattern text pos) as [m|].
      * f_equal. apply IH; lia.
      * apply IH; lia.
Qed.

Lemma finditer_from_S (fuel pos : nat) :
  finditer_from pattern text (S fuel) pos =
  if length text <? pos then []
  else match pattern text pos with
       | Some m =>
           m :: finditer_from pattern text fuel (Nat.max (m_end m) (S pos))
       | None => finditer_from pattern text fuel (S pos)
       end.
Proof. reflexivity. Qed.

(** One step of the scan, whatever fuel is left for it. *)
Lemma finditer_from_step (fuel pos : nat) :
  length text < fuel + pos -> pos <= length text ->
  finditer_from pattern text fuel pos =
  match pattern text pos with
  | Some m => m :: finditer_from pattern text fuel (m_end m)
  | None => finditer_from pattern text fuel (S pos)
  end.
Proof.
  intros Hf Hp. destruct fuel as [|f]; [lia|].
  etransitivity; [apply finditer_from_S|].
  destruct (Nat.ltb_spec (length text) pos); [lia|].
  destruct (pattern text pos) as [m|] eqn:E.
  - rewrite (max_end _ _ E). apply Hok in E. f_equal.
    apply finditer_from_fuel; lia.
  - apply finditer_from_fuel; lia.
Qed.

Lemma finditer_from_past (fuel pos : nat) :
  length text < pos -> finditer_from pattern text fuel pos = [].
Proof.
  intros H. destruct fuel; simpl; [reflexivity|].
  destruct (Nat.ltb_spec (length text) pos); [reflexivity | lia].
Qed.

(** Every reported match is a match of the pattern where it starts. *)
Lemma finditer_from_sound (fuel pos : nat) (m : re_match) :
  In m (finditer_from pattern text fuel pos) ->
  pattern text (m_start m) = Some m /\ pos <= m_start m.
Proof.
  revert pos. induction fuel as [|f IH]; intros pos; simpl; [tauto|].
  destruct (length text <? pos); [simpl; tauto|].
  destruct (pattern text pos) as [m0|] eqn:E.
  - intros [<- | Hin].
    + destruct (Hok _ _ _ E) as [-> _]. auto.
    + apply IH in Hin. destruct Hin. split; [assumption | lia].
  - intros Hin. apply IH in Hin. destruct Hin. split; [assumption | lia].
Qed.

(** The reported matches come in scan order and do not overlap. *)
Lemma finditer_from_chained (fuel pos : nat) :
  chained (length text) pos (finditer_from pattern text fuel pos).
Proof.
  revert pos. induction fuel as [|f IH]; intros pos; simpl; [exact I|].
  destruct (length text <? pos); [exact I|].
  destruct (pattern text pos) as [m0|] eqn:E.
  - rewrite (max_end _ _ E). destruct (Hok _ _ _ E) as [Hs He].
    simpl. repeat split; try lia. apply IH.
  - specialize (IH (S pos)).
    destruct (finditer_from pattern text f (S pos)); simpl in *; [exact I|].
    intuition lia.
Qed.

(** No match of the pattern is skipped, except inside a reported one. *)
Lemma finditer_from_complete (fuel pos p : nat) (m : re_match) :
  length text < fuel + pos -> pos <= p ->
  pattern text p = Some m ->
  In m (finditer_from pattern text fuel pos)
  \/ exists m', In m' (finditer_from pattern text fuel pos)
                /\ m_start m' < p < m_end m'.
Proof.
  revert pos. induction fuel as [|f IH]; intros pos Hf Hp Hm.
  - apply Hok in Hm. lia.
  - simpl. destruct (Nat.ltb_spec (length text) pos).
    { apply Hok in Hm. lia. }
    destruct (pattern text pos) as [m0|] eqn:E.
    + rewrite (max_end _ _ E). destruct (Hok _ _ _ E) as [Hs He].
      destruct (Nat.eq_dec p pos) as [->|Hne].
      { left. left. congruence. }
      destruct (Nat.lt_ge_cases p (m_end m0)).
      * right. exists m0. split; [left; reflexivity | lia].
      * destruct (IH (m_end m0)) as [Hin | (m' & Hin & Hr)]; try lia; auto.
        -- left. right. exact Hin.
        -- right. exists m'. split; [right; exact Hin | exact Hr].
    + destruct (Nat.eq_dec p pos) as [->|Hne]; [congruence|].
      apply IH; [lia | lia | exact Hm].
Qed.

(** Before the first reported match the pattern matches nowhere. *)
Lemma finditer_from_first (fuel pos p : nat) (m : re_match)
    (ms : list re_match) :
  finditer_from pattern text fuel pos = m :: ms ->
  pos <= p < m_start m -> pattern text p = None.
Proof.
  revert pos. induction fuel as [|f IH]; intros pos; simpl; [discriminate|].
  destruct (length text <? pos); [discriminate|].
  destruct (pattern text pos) as [m0|] eqn:E.
  - intros [= <- _] Hp. apply Hok in E. lia.
  - intros Hfi Hp. destruct (Nat.eq_dec p pos) as [->|Hne]; [exact E|].
    apply (IH (S pos)); [exact Hfi | lia].
Qed.

(** The scan from the start of the first match gives the same list. *)
Lemma finditer_from_skip (fuel pos : nat) (m : re_match)
    (ms : list re_match) :
  length text < fuel + pos ->
  finditer_from pattern text fuel pos = m :: ms ->
  finditer_from pattern text fuel (m_start m) = m :: ms.
Proof.
  revert pos. induction fuel as [|f IH]; intros pos Hf Hfi; [discriminate|].
  cbn [finditer_from] in Hfi.
  destruct (Nat.ltb_spec (length text) pos) as [|Hle]; [discriminate|].
  destruct (pattern text pos) as [m0|] eqn:E.
  - injection Hfi as -> <-. destruct (Hok _ _ _ E) as [-> _].
    cbn [finditer_from].
    destruct (Nat.ltb_spec (length text) pos); [lia|]. rewrite E. reflexivity.
  - assert (Hge : S pos <= m_start m).
    { apply (finditer_from_sound f (S pos) m). rewrite Hfi. left. reflexivity. }
    rewrite <- (IH (S pos)) by (try lia; exact Hfi).
    apply finditer_from_fuel; lia.
Qed.

(** What follows a reported match is the scan from its end. *)
Lemma finditer_from_tail (fuel pos : nat) (m : re_match)
    (ms : list re_match) :
  length text < fuel + pos ->
  finditer_from pattern text fuel pos = m :: ms ->
  ms = finditer_from pattern text fuel (m_end m).
Proof.
  intros Hf Hfi.
  assert (Hin : In m (finditer_from pattern text fuel pos))
    by (rewrite Hfi; left; reflexivity).
  destruct (finditer_from_sound _ _ _ Hin) as [Hm Hge].
  destruct (Hok _ _ _ Hm) as [_ Hend].
  assert (Hsk := finditer_from_skip _ _ _ _ Hf Hfi).
  rewrite finditer_from_step in Hsk by lia. rewrite Hm in Hsk.
  congruence.
Qed.

(** Where the scan finds nothing, the pattern matches nowhere. *)
Lemma finditer_from_nil (fuel pos p : nat) :
  length text < fuel + pos ->
  finditer_from pattern text fuel pos = [] ->
  pos <= p -> pattern text p = None.
Proof.
  intros Hf Hnil Hp. destruct (pattern text p) as [m|] eqn:E; [|reflexivity].
  destruct (finditer_from_complete fuel pos p m Hf Hp E)
    as [Hin | (m' & Hin & _)]; rewrite Hnil in Hin; destruct Hin.
Qed.

Lemma finditer_from_nil_later (fuel pos pos' : nat) :
  length text < fuel + pos ->
  finditer_from pattern text fuel pos = [] ->
  pos <= pos' ->
  finditer_from pattern text fuel pos' = [].
Proof.
  intros Hf Hnil Hle.
  destruct (finditer_from pattern text fuel pos') as [|m ms] eqn:E;
    [reflexivity|].
  assert (Hin : In m (finditer_from pattern text fuel pos'))
    by (rewrite E; left; reflexivity).
  destruct (finditer_from_sound _ _ _ Hin) as [Hm Hge].
  rewrite (finditer_from_nil fuel pos (m_start m) Hf Hnil) in Hm by lia.
  discriminate.
Qed.

End Finditer.

(** [finditer] never runs out of fuel: with more of it the scan returns
    the same list of matches. *)
Lemma finditer_fuel_enough (pattern : str -> nat -> option re_match)
    (text : str) (fuel : nat) :
  length text < fuel ->
  finditer_from pattern text fuel 0 = finditer pattern text.
Proof. intros H. apply finditer_from_fuel; lia. Qed.

(** ** The patterns *)

Lemma lit_Some (p s rest : str) : lit p s = Some rest <-> s = p ++ rest.
Proof.
  revert s. induction p as [|c p IH]; intros s; simpl.
  - split; congruence.
  - destruct s as [|d s]; [split; discriminate|].
    destruct (N.eqb_spec c d) as [->|Hne].
    + rewrite IH. split; congruence.
    + split; [discriminate | congruence].
Qed.

Lemma lit_app (p rest : str) : lit p (p ++ rest) = Some rest.
Proof. apply lit_Some. reflexivity. Qed.

Lemma span_line_spec (s run rest : str) :
  span_line s = (run, rest) <->
  s = run ++ rest /\ ~ In nl run /\ at_eol rest.
Proof.
  revert run. induction s as [|c s IH]; intros run; simpl.
  - split.
    + intros [= <- <-]. simpl. auto.
    + intros (Hs & _ & _). symmetry in Hs. apply app_eq_nil in Hs.
      destruct Hs as [-> ->]. reflexivity.
  - destruct (N.eqb_spec c nl) as [->|Hne].
    + split.
      * intros [= <- <-]. simpl. auto.
      * intros (Hs & Hn & _). destruct run as [|d run].
        -- simpl in Hs. subst rest. reflexivity.
        -- injection Hs as <- _. exfalso. apply Hn. left. reflexivity.
    + destruct (span_line s) as [run0 rest0] eqn:E.
      split.
      * intros [= <- <-]. destruct (proj1 (IH run0) eq_refl) as (-> & Hn & He).
        simpl. repeat split; auto. intros [Hc|Hc]; [congruence | auto].
      * intros (Hs & Hn & He). destruct run as [|d run].
        -- simpl in Hs. subst rest. simpl in He. congruence.
        -- injection Hs as <- Hs.
           assert (Hr : (run0, rest0) = (run, rest)).
           { apply IH. repeat split; auto. intros Hc. apply Hn. right. exact Hc. }
           injection Hr as -> ->. reflexivity.
Qed.

Lemma span_line_app (run rest : str) :
  ~ In nl run -> at_eol rest -> span_line (run ++ rest) = (run, rest).
Proof. intros. apply span_line_spec. auto. Qed.

Lemma header_body_spec (s g1 rest : str) :
  header_body s = Some (g1, rest) <->
  s = hash :: space :: g1 ++ rest /\ g1 <> [] /\ ~ In nl g1 /\ at_eol rest.
Proof.
  unfold header_body. split.
  - destruct (lit [hash; space] s) as [s1|] eqn:El; [|discriminate].
    apply lit_Some in El. destruct (span_line s1) as [run r] eqn:Es.
    apply span_line_spec in Es. destruct Es as (-> & Hn & He).
    destruct run as [|c run]; [discriminate|].
    intros [= <- <-]. subst s. repeat split; auto. discriminate.
  - intros (-> & Hne & Hn & He).
    change (hash :: space :: g1 ++ rest) with ([hash; space] ++ g1 ++ rest).
    rewrite lit_app, span_line_app by assumption.
    destruct g1; [congruence | reflexivity].
Qed.

Lemma scheme_body_spec (s s3 : str) :
  scheme_body s = Some s3 <->
  s = py "http://" ++ s3 \/ s = py "https://" ++ s3.
Proof.
  unfold scheme_body. split.
  - destruct (lit (py "http") s) as [s1|] eqn:E1; [|discriminate].
    apply lit_Some in E1.
    destruct (lit (py "s") s1) as [s2|] eqn:E2.
    + apply lit_Some in E2. destruct (lit (py "://") s2) as [s3'|] eqn:E3.
      * apply lit_Some in E3. intros [= <-]. right. subst. reflexivity.
      * intros E4. apply lit_Some in E4. left. subst s. rewrite E4. reflexivity.
    + intros E4. apply lit_Some in E4. left. subst s. rewrite E4. reflexivity.
  - intros [-> | ->]; reflexivity.
Qed.

Lemma firstn_app_len (a b : str) :
  firstn (length (a ++ b) - length b) (a ++ b) = a.
Proof.
  rewrite length_app.
  replace (length a + length b - length b) with (length a + 0) by lia.
  rewrite firstn_app_2. simpl. apply app_nil_r.
Qed.

Lemma url_body_spec (s g2 rest : str) :
  url_body s = Some (g2, rest) <->
  s = g2 ++ rest /\ at_eol rest /\
  exists scheme u,
    g2 = scheme ++ u /\ (scheme = py "http://" \/ scheme = py "https://")
    /\ u <> [] /\ ~ In nl u.
Proof.
  unfold url_body. split.
  - destruct (scheme_body s) as [s3|] eqn:E1; [|discriminate].
    destruct (span_line s3) as [run r] eqn:Es.
    apply span_line_spec in Es. destruct Es as (Hs3 & Hn & He).
    destruct run as [|c run]; [discriminate|].
    intros [= <- <-].
    assert (Hs : exists scheme,
               (scheme = py "http://" \/ scheme = py "https://")
               /\ s = (scheme ++ c :: run) ++ r).
    { apply scheme_body_spec in E1. subst s3.
      destruct E1 as [-> | ->];
        [exists (py "http://") | exists (py "https://")];
        (split; [auto|]); rewrite <- app_assoc; reflexivity. }
    destruct Hs as (scheme & Hscheme & ->).
    rewrite firstn_app_len. split; [reflexivity|]. split; [exact He|].
    exists scheme, (c :: run). repeat split; auto. discriminate.
  - intros (-> & He & scheme & u & -> & Hscheme & Hne & Hn).
    assert (E1 : scheme_body ((scheme ++ u) ++ rest) = Some (u ++ rest)).
    { apply scheme_body_spec. rewrite <- app_assoc.
      destruct Hscheme as [-> | ->]; auto. }
    rewrite E1, span_line_app by assumption.
    destruct u; [congruence|]. rewrite firstn_app_len. reflexivity.
Qed.

Lemma header_url_body_spec (s : str) (gs : list str) (rest : str) :
  header_url_body s = Some (gs, rest) <->
  exists g1 g2,
    gs = [g1; g2]
    /\ s = hash :: space :: g1 ++ nl :: py "Source: " ++ g2 ++ rest
    /\ g1 <> [] /\ ~ In nl g1 /\ at_eol rest /\
    exists scheme u,
      g2 = scheme ++ u /\ (scheme = py "http://" \/ scheme = py "https://")
      /\ u <> [] /\ ~ In nl u.
Proof.
  unfold header_url_body. split.
  - destruct (header_body s) as [[g1 r1]|] eqn:E1; [|discriminate].
    apply header_body_spec in E1. destruct E1 as (-> & Hne & Hn & _).
    destruct (lit (nl :: py "Source: ") r1) as [r2|] eqn:E2; [|discriminate].
    apply lit_Some in E2. subst r1.
    destruct (url_body r2) as [[g2 r]|] eqn:E3; [|discriminate].
    apply url_body_spec in E3. destruct E3 as (-> & He & Hurl).
    intros [= <- <-]. exists g1, g2. repeat split; auto.
  - intros (g1 & g2 & -> & -> & Hne & Hn & He & Hurl).
    assert (E1 : header_body
                   (hash :: space :: g1 ++ nl :: py "Source: " ++ g2 ++ rest)
                 = Some (g1, nl :: py "Source: " ++ g2 ++ rest)).
    { apply header_body_spec. repeat split; auto. }
    rewrite E1.
    change (nl :: py "Source: " ++ g2 ++ rest)
      with ((nl :: py "Source: ") ++ g2 ++ rest).
    rewrite lit_app.
    assert (E3 : url_body (g2 ++ rest) = Some (g2, rest)).
    { apply url_body_spec. auto. }
    rewrite E3. reflexivity.
Qed.

Lemma match_body_at_Some (anchored : bool)
    (body : str -> option (list str * str)) (text : str) (pos : nat)
    (m : re_match) :
  body_ok body ->
  match_body_at anchored body text pos = Some m ->
  (anchored = true -> at_bol text pos = true)
  /\ exists gs rest matched,
       body (skipn pos text) = Some (gs, rest)
       /\ skipn pos text = matched ++ rest /\ matched <> []
       /\ m = {| m_start := pos; m_end := pos + length matched;
                 m_groups := gs |}.
Proof.
  intros Hb. unfold match_body_at.
  destruct (negb anchored || at_bol text pos) eqn:Ea; [|discriminate].
  destruct (body (skipn pos text)) as [[gs rest]|] eqn:E; [|discriminate].
  intros [= <-]. split.
  - intros ->. exact Ea.
  - destruct (Hb _ _ _ E) as (matched & Hne & Hs).
    exists gs, rest, matched. repeat split; auto.
    f_equal.
    assert (Hl : length (skipn pos text) = length (matched ++ rest))
      by (rewrite Hs; reflexivity).
    rewrite length_skipn, length_app in Hl.
    destruct matched; [congruence|]. simpl in *. lia.
Qed.

Lemma match_body_at_ok (anchored : bool)
    (body : str -> option (list str * str)) :
  body_ok body -> pattern_ok (match_body_at anchored body).
Proof.
  intros Hb text pos m Hm.
  destruct (match_body_at_Some _ _ _ _ _ Hb Hm)
    as (_ & gs & rest & matched & _ & Hs & Hne & ->).
  simpl. split; [reflexivity|].
  assert (Hl : length (skipn pos text) = length (matched ++ rest))
    by (rewrite Hs; reflexivity).
  rewrite length_skipn, length_app in Hl.
  destruct matched; [congruence|]. simpl in *. lia.
Qed.

Lemma header_only_body_ok : body_ok header_only_body.
Proof.
  intros s gs rest. unfold header_only_body.
  destruct (header_body s) as [[g1 r]|] eqn:E; [|discriminate].
  intros [= <- <-]. apply header_body_spec in E. destruct E as (-> & _).
  exists (hash :: space :: g1). split; [discriminate | reflexivity].
Qed.

Lemma header_url_body_ok : body_ok header_url_body.
Proof.
  intros s gs rest E. apply header_url_body_spec in E.
  destruct E as (g1 & g2 & _ & -> & _).
  exists (hash :: space :: g1 ++ nl :: py "Source: " ++ g2).
  split; [discriminate|]. simpl. rewrite <- app_assoc. reflexivity.
Qed.

Lemma hash_body_ok : body_ok hash_body.
Proof.
  intros s gs rest. unfold hash_body.
  destruct (lit [hash; space] s) as [r|] eqn:E; [|discriminate].
  intros [= <- <-]. apply lit_Some in E.
  exists [hash; space]. split; [discriminate | exact E].
Qed.

Lemma lazy_until_fence_spec (s rest : str) :
  lazy_until_fence s = Some rest ->
  exists inner, s = inner ++ fence ++ rest.
Proof.
  induction s as [|c s IH]; cbn [lazy_until_fence].
  - discriminate.
  - destruct (lit fence (c :: s)) as [r|] eqn:E.
    + intros [= <-]. apply lit_Some in E. exists []. exact E.
    + intros H. destruct (IH H) as (inner & ->). exists (c :: inner). reflexivity.
Qed.

Lemma code_block_body_spec (s : str) (gs : list str) (rest : str) :
  code_block_body s = Some (gs, rest) ->
  exists inner, s = fence ++ inner ++ fence ++ rest.
Proof.
  unfold code_block_body.
  destruct (lit fence s) as [s1|] eqn:E1; [|discriminate].
  destruct (lazy_until_fence s1) as [r|] eqn:E2; [|discriminate].
  intros [= <- <-]. apply lit_Some in E1.
  destruct (lazy_until_fence_spec _ _ E2) as (inner & ->).
  exists inner. exact E1.
Qed.

Lemma code_block_body_ok : body_ok code_block_body.
Proof.
  intros s gs rest E. destruct (code_block_body_spec _ _ _ E) as (inner & ->).
  exists (fence ++ inner ++ fence). split; [discriminate|].
  rewrite <- !app_assoc. reflexivity.
Qed.

Lemma with_url_ok : pattern_ok PAGE_PATTERN_WITH_URL.
Proof. apply match_body_at_ok, header_url_body_ok. Qed.

Lemma header_only_ok : pattern_ok PAGE_PATTERN_HEADER_ONLY.
Proof. apply match_body_at_ok, header_only_body_ok. Qed.

Lemma hash_at_bol_ok : pattern_ok HASH_AT_BOL.
Proof. apply match_body_at_ok, hash_body_ok. Qed.

Lemma code_block_ok : pattern_ok CODE_BLOCK.
Proof. apply match_body_at_ok, code_block_body_ok. Qed.

Lemma boundary_pattern_ok (St : strategy) : pattern_ok (boundary_pattern St).
Proof. destruct St; [apply with_url_ok | apply header_only_ok]. Qed.

(** ** The matchers are what the engine computes on the patterns *)

Lemma greedy_star_longest {R} (cls : char -> bool)
    (k : bool -> str -> option R) :
  (forall b1 b2 s, k b1 s = k b2 s) ->
  (forall b c s', cls c = true ->
     k false (drop_while cls s') = None -> k b (c :: s') = None) ->
  forall b s, greedy_star cls b s k = k false (drop_while cls s).
Proof.
  intros Hfree Hback b s. revert b.
  induction s as [|c s' IH]; intros b; cbn [greedy_star drop_while].
  - apply Hfree.
  - destruct (cls c) eqn:Ec; [|apply Hfree].
    rewrite IH. destruct (k false (drop_while cls s')) eqn:Ek; [reflexivity|].
    apply Hback; assumption.
Qed.

Lemma drop_while_not_nl (s : str) : drop_while not_nl s = snd (span_line s).
Proof.
  induction s as [|c s IH]; [reflexivity|].
  cbn [drop_while span_line]. unfold not_nl at 1.
  destruct (c =? nl)%N; cbn [negb]; [reflexivity|].
  rewrite IH. destruct (span_line s). reflexivity.
Qed.

Lemma drop_while_isspace (s : str) : drop_while isspace s = snd (span_space s).
Proof.
  induction s as [|c s IH]; [reflexivity|].
  cbn [drop_while span_space].
  destruct (isspace c); [|reflexivity].
  rewrite IH. destruct (span_space s). reflexivity.
Qed.

Lemma span_line_fst (s : str) :
  firstn (length s - length (snd (span_line s))) s = fst (span_line s).
Proof.
  destruct (span_line s) as [run rest] eqn:E. apply span_line_spec in E.
  destruct E as (-> & _). cbn [fst snd]. apply firstn_app_len.
Qed.

Lemma lazy_star_fence (b : bool) (s : str) (gs : list str) :
  lazy_star any_char b s
    (fun _ s' => match lit fence s' with
                 | Some rest => Some (gs, rest)
                 | None => None
                 end)
  = match lazy_until_fence s with
    | Some rest => Some (gs, rest)
    | None => None
    end.
Proof.
  revert b. induction s as [|c s IH]; intros b.
  - reflexivity.
  - cbn [lazy_star lazy_until_fence].
    destruct (lit fence (c :: s)) as [rest|]; [reflexivity|].
    assert (Hany : any_char c = true)
      by (unfold any_char; destruct (isspace c); reflexivity).
    rewrite Hany. apply IH.
Qed.

(** The matcher of the code-block pattern is the engine on it. *)
Lemma code_block_engine (text : str) (pos : nat) :
  run RE_CODE_BLOCK text pos = CODE_BLOCK text pos.
Proof.
  unfold run, accept, CODE_BLOCK, match_body_at, code_block_body, RE_CODE_BLOCK.
  cbn [negb orb exec accept]. change (py "```") with fence.
  destruct (lit fence (skipn pos text)) as [s1|]; [|reflexivity].
  rewrite lazy_star_fence.
  destruct (lazy_until_fence s1); reflexivity.
Qed.

Lemma hash_engine (text : str) (pos : nat) :
  run RE_HASH text pos = HASH_AT_BOL text pos.
Proof.
  unfold run, accept, HASH_AT_BOL, match_body_at, hash_body, RE_HASH.
  cbn [negb orb exec accept]. change (py "# ") with [hash; space].
  destruct (at_bol text pos); [|reflexivity].
  destruct (lit [hash; space] (skipn pos text)); reflexivity.
Qed.

Lemma header_group_engine (b : bool) (s1 : str)
    (k : bool -> str -> list str -> option (list str * str)) :
  (forall b1 b2 s gs, k b1 s gs = k b2 s gs) ->
  (forall b c s' gs, c <> nl -> k b (c :: s') gs = None) ->
  exec (Grp (Plus not_nl)) b s1 [] k
  = match span_line s1 with
    | ([], _) => None
    | (g1, rest) => k false rest [g1]
    end.
Proof.
  intros Hfree Hguard. cbn [exec].
  destruct s1 as [|c s']; [reflexivity|].
  cbn [span_line]. unfold not_nl at 1.
  destruct (N.eqb_spec c nl) as [->|Hc]; cbn [negb]; [reflexivity|].
  rewrite greedy_star_longest.
  - rewrite drop_while_not_nl.
    destruct (span_line s') as [run rest] eqn:E. cbn [snd app].
    apply span_line_spec in E. destruct E as (-> & _).
    change (c :: run ++ rest) with ((c :: run) ++ rest).
    rewrite firstn_app_len. reflexivity.
  - intros b1 b2 s. apply Hfree.
  - intros b0 c0 s0 Hc0 _. apply Hguard.
    unfold not_nl in Hc0. intros ->. discriminate.
Qed.

Lemma exec_Seq (r1 r2 : regex) (b : bool) (s : str) (gs : list str)
    (k : bool -> str -> list str -> option (list str * str)) :
  exec (Seq r1 r2) b s gs k
  = exec r1 b s gs (fun b' s' gs' => exec r2 b' s' gs' k).
Proof. reflexivity. Qed.

Lemma exec_Bol (b : bool) (s : str) (gs : list str)
    (k : bool -> str -> list str -> option (list str * str)) :
  exec Bol b s gs k = if b then k b s gs else None.
Proof. reflexivity. Qed.

Lemma exec_Lit (l : str) (b : bool) (s : str) (gs : list str)
    (k : bool -> str -> list str -> option (list str * str)) :
  exec (Lit l) b s gs k
  = match lit l s with
    | Some rest => k (bol_after b l) rest gs
    | None => None
    end.
Proof. reflexivity. Qed.

Lemma exec_Eol_at_eol (b : bool) (s : str) (gs : list str)
    (k : bool -> str -> list str -> option (list str * str)) :
  at_eol s -> exec Eol b s gs k = k b s gs.
Proof.
  intros H. destruct s as [|c s]; [reflexivity|].
  cbn in H. subst c. reflexivity.
Qed.

Lemma exec_Eol_guard (b : bool) (c : char) (s : str) (gs : list str)
    (k : bool -> str -> list str -> option (list str * str)) :
  c <> nl -> exec Eol b (c :: s) gs k = None.
Proof.
  intros H. cbn [exec]. destruct (N.eqb_spec c nl); [contradiction|].
  reflexivity.
Qed.

Lemma exec_Eol_free (b1 b2 : bool) (s : str) (gs : list str)
    (k : bool -> str -> list str -> option (list str * str)) :
  (forall b1 b2 s gs, k b1 s gs = k b2 s gs) ->
  exec Eol b1 s gs k = exec Eol b2 s gs k.
Proof.
  intros H. cbn [exec]. destruct s as [|c s]; [apply H|].
  destruct (c =? nl)%N; [apply H | reflexivity].
Qed.

Lemma url_tail_engine (b : bool) (r2 s3 : str) (gs : list str) :
  exec (Seq (Lit (py "://")) (Plus not_nl)) b s3 gs
    (fun b' s' gs' => accept b' s' (gs' ++ [firstn (length r2 - length s') r2]))
  = match lit (py "://") s3 with
    | None => None
    | Some s4 =>
        match span_line s4 with
        | ([], _) => None
        | (_, rest) =>
            Some (gs ++ [firstn (length r2 - length rest) r2], rest)
        end
    end.
Proof.
  rewrite exec_Seq, exec_Lit.
  destruct (lit (py "://") s3) as [s4|]; [|reflexivity].
  cbn [exec]. destruct s4 as [|c s']; [reflexivity|].
  cbn [span_line]. unfold not_nl at 1.
  destruct (N.eqb_spec c nl) as [->|Hc]; cbn [negb]; [reflexivity|].
  rewrite greedy_star_longest.
  - rewrite drop_while_not_nl. destruct (span_line s'). reflexivity.
  - reflexivity.
  - intros b0 c0 s0 _ H. discriminate.
Qed.

Lemma url_group_engine (b : bool) (r2 : str) (gs : list str) :
  exec (Grp RE_URL) b r2 gs accept
  = match url_body r2 with
    | Some (g2, rest) => Some (gs ++ [g2], rest)
    | None => None
    end.
Proof.
  unfold RE_URL, url_body, scheme_body.
  change (exec (Grp ?r) b r2 gs accept)
    with (exec r b r2 gs
            (fun b' s' gs' =>
               accept b' s' (gs' ++ [firstn (length r2 - length s') r2]))).
  rewrite exec_Seq, exec_Lit.
  destruct (lit (py "http") r2) as [s1|]; [|reflexivity].
  rewrite exec_Seq.
  change (exec (Opt ?r) ?b0 s1 gs ?k)
    with (match exec r b0 s1 gs k with
          | Some x => Some x
          | None => k b0 s1 gs
          end).
  rewrite exec_Lit. cbv beta.
  destruct (lit (py "s") s1) as [s2|] eqn:E2; rewrite !url_tail_engine.
  - assert (Hno : lit (py "://") s1 = None).
    { apply lit_Some in E2. subst s1. reflexivity. }
    rewrite Hno.
    destruct (lit (py "://") s2) as [s3|]; [|reflexivity].
    destruct (span_line s3) as [[|c run] rest]; reflexivity.
  - destruct (lit (py "://") s1) as [s3|]; [|reflexivity].
    destruct (span_line s3) as [[|c run] rest]; reflexivity.
Qed.

(** The matcher of the header-only pattern is the engine on it. *)
Lemma header_only_engine (text : str) (pos : nat) :
  run RE_HEADER_ONLY text pos = PAGE_PATTERN_HEADER_ONLY text pos.
Proof.
  unfold run, PAGE_PATTERN_HEADER_ONLY, match_body_at, header_only_body,
    header_body, RE_HEADER_ONLY.
  cbn [negb orb]. rewrite exec_Seq, exec_Bol.
  destruct (at_bol text pos); [|reflexivity].
  rewrite exec_Seq, exec_Lit. change (py "# ") with [hash; space].
  destruct (lit [hash; space] (skipn pos text)) as [s1|]; [|reflexivity].
  rewrite exec_Seq, header_group_engine.
  - destruct (span_line s1) as [g1 rest] eqn:E.
    apply span_line_spec in E. destruct E as (_ & _ & He).
    destruct g1 as [|c g1]; [reflexivity|].
    rewrite exec_Eol_at_eol by exact He. reflexivity.
  - intros b1 b2 s gs. apply exec_Eol_free. reflexivity.
  - intros b c s' gs Hc. apply exec_Eol_guard. exact Hc.
Qed.

(** The matcher of the header-and-URL pattern is the engine on it. *)
Lemma with_url_engine (text : str) (pos : nat) :
  run RE_WITH_URL text pos = PAGE_PATTERN_WITH_URL text pos.
Proof.
  unfold run, PAGE_PATTERN_WITH_URL, match_body_at, header_url_body,
    header_body, RE_WITH_URL.
  cbn [negb orb]. rewrite exec_Seq, exec_Bol.
  destruct (at_bol text pos); [|reflexivity].
  rewrite exec_Seq, exec_Lit. change (py "# ") with [hash; space].
  destruct (lit [hash; space] (skipn pos text)) as [s1|]; [|reflexivity].
  rewrite exec_Seq, header_group_engine.
  - destruct (span_line s1) as [g1 rest] eqn:E.
    apply span_line_spec in E. destruct E as (_ & _ & He).
    destruct g1 as [|c g1]; [reflexivity|].
    rewrite exec_Seq, exec_Eol_at_eol by exact He.
    rewrite exec_Seq, exec_Lit.
    destruct (lit (nl :: py "Source: ") rest) as [r2|]; [|reflexivity].
    change (exec (Grp RE_URL) ?b r2 ?gs ?k) with (exec (Grp RE_URL) b r2 gs accept).
    rewrite url_group_engine.
    destruct (url_body r2) as [[g2 rest']|]; reflexivity.
  - intros b1 b2 s gs. rewrite !exec_Seq. apply exec_Eol_free.
    intros b3 b4 s0 gs0. rewrite !exec_Seq, !exec_Lit. reflexivity.
  - intros b c s' gs Hc. rewrite exec_Seq. apply exec_Eol_guard. exact Hc.
Qed.

Lemma space_run_engine (text : str) (pos : nat) :
  run RE_SPACE_RUN text pos = SPACE_RUN text pos.
Proof.
  unfold run, accept, SPACE_RUN, match_body_at, space_run_body, RE_SPACE_RUN.
  cbn [negb orb exec accept].
  destruct (skipn pos text) as [|c s']; [reflexivity|].
  cbn [span_space]. destruct (isspace c); [|reflexivity].
  rewrite greedy_star_longest.
  - rewrite drop_while_isspace. destruct (span_space s'). reflexivity.
  - reflexivity.
  - intros b0 c0 s0 _ H. discriminate.
Qed.

Lemma unsafe_char_engine (isalnum : char -> bool) (text : str) (pos : nat) :
  run (RE_UNSAFE_CHAR isalnum) text pos = UNSAFE_CHAR isalnum text pos.
Proof.
  unfold run, accept, UNSAFE_CHAR, match_body_at, unsafe_char_body, RE_UNSAFE_CHAR.
  cbn [negb orb exec accept].
  destruct (skipn pos text) as [|c s']; [reflexivity|].
  destruct (isword isalnum c || isspace c || (c =? hyphen)%N); reflexivity.
Qed.

(** ** Pages built from the matches *)

Lemma nth_error_enumerate_from {A} (l : list A) (a i : nat) :
  nth_error (combine (seq a (length l)) l) i =
  option_map (pair (a + i)) (nth_error l i).
Proof.
  revert a i. induction l as [|x l IH]; intros a i; simpl.
  - destruct i; reflexivity.
  - destruct i as [|i]; simpl.
    + rewrite Nat.add_0_r. reflexivity.
    + rewrite IH. rewrite Nat.add_succ_r. reflexivity.
Qed.

Lemma nth_error_enumerate {A} (l : list A) (i : nat) :
  nth_error (enumerate l) i = option_map (pair i) (nth_error l i).
Proof. apply (nth_error_enumerate_from l 0 i). Qed.

Lemma length_enumerate {A} (l : list A) : length (enumerate l) = length l.
Proof.
  unfold enumerate. rewrite length_combine, length_seq. apply Nat.min_id.
Qed.

Lemma length_build_pages (url_of : re_match -> option str) (text : str)
    (ms : list re_match) :
  length (build_pages url_of text ms) = length ms.
Proof. unfold build_pages. rewrite length_map. apply length_enumerate. Qed.

Lemma build_pages_content_length (url_of : re_match -> option str)
    (text : str) (ms : list re_match) :
  Forall (fun p => content_length p = length (content p))
         (build_pages url_of text ms).
Proof.
  unfold build_pages. apply Forall_forall. intros p Hin.
  apply in_map_iff in Hin. destruct Hin as ([i m] & <- & _). reflexivity.
Qed.

Lemma nth_error_build_pages (url_of : re_match -> option str) (text : str)
    (ms : list re_match) (i : nat) (m : re_match) :
  nth_error ms i = Some m ->
  exists pg,
    nth_error (build_pages url_of text ms) i = Some pg
    /\ title pg = strip (group m 1)
    /\ source_url pg = url_of m
    /\ content pg =
         strip (slice text (m_end m)
                  (match nth_error ms (S i) with
                   | Some m' => m_start m'
                   | None => length text
                   end)).
Proof.
  intros Hm. unfold build_pages.
  rewrite nth_error_map, nth_error_enumerate, Hm. cbn [option_map].
  eexists. split; [reflexivity|]. cbn [title source_url content].
  repeat split. do 2 f_equal. rewrite Nat.add_1_r.
  destruct (Nat.ltb_spec (S i) (length ms)) as [Hlt|Hge].
  - destruct (nth_error ms (S i)) eqn:E.
    + apply (nth_error_nth _ _ dummy_match) in E. rewrite E. reflexivity.
    + apply nth_error_None in E. lia.
  - apply nth_error_None in Hge. rewrite Hge. reflexivity.
Qed.

Lemma split_pages_build (St : strategy) (text : str) :
  split_pages St text =
  build_pages (match St with
               | WithUrl => fun m => Some (strip (group m 2))
               | HeaderOnly => fun _ => None
               end)
    (scanned_text St text) (boundaries St text).
Proof. destruct St; reflexivity. Qed.

(** ** End-to-end example, content length, failures and empty titles *)

(** C6: splitting the two-page example text with Strategy A yields
    exactly the two page records of the specification, in order: Intro
    with its URL and body, then Next with its URL and body. *)
Theorem strategy_a_end_to_end :
  split_pages WithUrl
    (py "# Intro" ++ nl :: py "Source: https://example.com/a" ++ nl ::
     py "Hello world." ++ nl :: py "# Next" ++ nl ::
     py "Source: https://example.com/b" ++ nl :: py "Bye." ++ [nl])
  = [ {| title := py "Intro";
         source_url := Some (py "https://example.com/a");
         content := py "Hello world."; content_length := 12 |};
      {| title := py "Next";
         source_url := Some (py "https://example.com/b");
         content := py "Bye."; content_length := 4 |} ].
Proof. vm_compute. reflexivity. Qed.

(** C7: for every input and either strategy, the content_length field
    of every returned page equals the number of characters of the
    content field of that same page. *)
Theorem content_length_is_len_of_content (St : strategy) (text : str) :
  Forall (fun p => content_length p = length (content p))
         (split_pages St text).
Proof. rewrite split_pages_build. apply build_pages_content_length. Qed.

Lemma split_pages_nil (St : strategy) (text : str) :
  boundaries St text = [] <-> split_pages St text = [].
Proof.
  rewrite split_pages_build. split.
  - intros ->. reflexivity.
  - intros H. apply (f_equal (@length page)) in H.
    rewrite length_build_pages in H.
    destruct (boundaries St text); [reflexivity | discriminate].
Qed.

Lemma process_source_pages (isalnum : char -> bool)
    (RAW_DIR OUTPUT_DIR source_name content : str) (St : strategy) :
  process_source isalnum RAW_DIR OUTPUT_DIR source_name (Some content)
    (use_header_only St) =
  match split_pages St content with
  | [] => (Failed (py "No pages found - check regex pattern") 0, [])
  | pages =>
      let input_path :=
        path_join (path_join RAW_DIR source_name) (py "llms-full.txt") in
      let output_dir := path_join OUTPUT_DIR source_name in
      let mf :=
        build_manifest source_name input_path (use_header_only St) pages in
      (Succeeded (length pages) (mf_total_content_chars mf) output_dir,
       map (fun nb : str * file_body =>
              (path_join output_dir (fst nb), snd nb))
           (page_files isalnum pages)
       ++ [(path_join output_dir (py "manifest.json"), ManifestJson mf)])
  end.
Proof.
  unfold process_source.
  destruct St; cbn [use_header_only split_pages].
  - destruct (split_with_url_pattern content); reflexivity.
  - destruct (split_with_header_pattern content); reflexivity.
Qed.

(** C3: when the pattern of the chosen strategy matches nowhere in a
    non-empty input, the splitter returns the empty sequence (so no
    page holds the whole input) and [process_source] returns the
    structured result with status failed, the no-pages-found message
    and page count 0, writing no file. *)
Theorem no_boundary_reports_failure (isalnum : char -> bool)
    (RAW_DIR OUTPUT_DIR source_name content : str) (St : strategy) :
  content <> [] ->
  boundaries St content = [] ->
  split_pages St content = []
  /\ process_source isalnum RAW_DIR OUTPUT_DIR source_name (Some content)
       (use_header_only St)
     = (Failed (py "No pages found - check regex pattern") 0, []).
Proof.
  intros _ Hb. apply split_pages_nil in Hb. split; [exact Hb|].
  rewrite process_source_pages, Hb. reflexivity.
Qed.

Lemma no_boundary_reports_failure_witness :
  split_pages HeaderOnly (py "no headers at all") = []
  /\ process_source (fun _ => false) (py "data/raw") (py "data/interim/pages")
       (py "Zep") (Some (py "no headers at all")) (use_header_only HeaderOnly)
     = (Failed (py "No pages found - check regex pattern") 0, []).
Proof.
  apply (no_boundary_reports_failure (fun _ => false) (py "data/raw")
           (py "data/interim/pages") (py "Zep") (py "no headers at all")
           HeaderOnly).
  - discriminate.
  - vm_compute. reflexivity.
Defined.

(** C8: a boundary whose title capture is only whitespace still gives a
    page record at that place, its title is the empty string, and
    [process_source] reports success, not a failure. *)
Theorem empty_title_page_accepted (St : strategy) (content : str) (i : nat)
    (m : re_match) :
  nth_error (boundaries St content) i = Some m ->
  strip (group m 1) = [] ->
  (exists pg, nth_error (split_pages St content) i = Some pg /\ title pg = [])
  /\ forall (isalnum : char -> bool) (RAW_DIR OUTPUT_DIR source_name : str),
       exists n total dir files,
         process_source isalnum RAW_DIR OUTPUT_DIR source_name (Some content)
           (use_header_only St)
         = (Succeeded n total dir, files).
Proof.
  intros Hm Ht.
  assert (Hpg : exists pg,
             nth_error (split_pages St content) i = Some pg /\ title pg = []).
  { rewrite split_pages_build.
    destruct (nth_error_build_pages
                (match St with
                 | WithUrl => fun m => Some (strip (group m 2))
                 | HeaderOnly => fun _ => None
                 end) (scanned_text St content) _ _ _ Hm)
      as (pg & Hpg & Htitle & _).
    exists pg. split; [exact Hpg | congruence]. }
  split; [exact Hpg|].
  intros isalnum RAW_DIR OUTPUT_DIR source_name.
  rewrite process_source_pages.
  destruct Hpg as (pg & Hpg & _).
  destruct (split_pages St content) as [|p0 ps].
  - destruct i; discriminate.
  - cbv zeta. eauto.
Qed.

Lemma empty_title_page_accepted_witness :
  (exists pg,
      nth_error (split_pages WithUrl
                   (py "#   " ++ nl :: py "Source: http://x" ++ nl :: py "body"))
                0 = Some pg /\ title pg = [])
  /\ forall (isalnum : char -> bool) (RAW_DIR OUTPUT_DIR source_name : str),
       exists n total dir files,
         process_source isalnum RAW_DIR OUTPUT_DIR source_name
           (Some (py "#   " ++ nl :: py "Source: http://x" ++ nl :: py "body"))
           (use_header_only WithUrl)
         = (Succeeded n total dir, files).
Proof.
  apply (empty_title_page_accepted WithUrl
           (py "#   " ++ nl :: py "Source: http://x" ++ nl :: py "body") 0
           {| m_start := 0; m_end := 21;
              m_groups := [py "  "; py "http://x"] |}).
  - vm_compute. reflexivity.
  - vm_compute. reflexivity.
Defined.

(** ** File names of the pages *)

Lemma digits_uint_uint_digits (u : Decimal.uint) :
  digits_uint (uint_digits u) = u.
Proof. induction u; simpl; congruence. Qed.

Lemma uint_digits_no_underscore (u : Decimal.uint) :
  ~ In underscore (uint_digits u).
Proof.
  induction u; simpl; try tauto;
    intros [H|H]; try discriminate; auto.
Qed.

Lemma format_04d_no_underscore (i : nat) : ~ In underscore (format_04d i).
Proof.
  unfold format_04d. intros H. apply in_app_or in H. destruct H as [H|H].
  - apply repeat_spec in H. discriminate.
  - exact (uint_digits_no_underscore _ H).
Qed.

Lemma of_uint_zeros (k : nat) (ds : str) :
  Nat.of_uint (digits_uint (repeat zero_digit k ++ ds))
  = Nat.of_uint (digits_uint ds).
Proof. induction k as [|k IH]; simpl; [reflexivity | exact IH]. Qed.

Lemma format_04d_inj (i j : nat) : format_04d i = format_04d j -> i = j.
Proof.
  unfold format_04d. intros H.
  apply (f_equal (fun s => Nat.of_uint (digits_uint s))) in H.
  rewrite !of_uint_zeros, !digits_uint_uint_digits in H.
  rewrite !DecimalNat.Unsigned.of_to in H. exact H.
Qed.

Lemma app_sep_inj (x : char) (a b r1 r2 : str) :
  ~ In x a -> ~ In x b -> a ++ x :: r1 = b ++ x :: r2 -> a = b.
Proof.
  revert b. induction a as [|c a IH]; intros b Ha Hb H.
  - destruct b as [|d b]; [reflexivity|]. simpl in H. injection H as <- _.
    exfalso. apply Hb. left. reflexivity.
  - destruct b as [|d b]; simpl in H.
    + injection H as -> _. exfalso. apply Ha. left. reflexivity.
    + injection H as <- H. f_equal. apply IH with (b := b); auto.
      * intros Hc. apply Ha. right. exact Hc.
      * intros Hc. apply Hb. right. exact Hc.
Qed.

Lemma page_filename_inj (isalnum : char -> bool) (i j : nat) (p q : page) :
  page_filename isalnum i p = page_filename isalnum j q -> i = j.
Proof.
  unfold page_filename. intros H. apply format_04d_inj.
  eapply app_sep_inj; [| | exact H]; apply format_04d_no_underscore.
Qed.

Lemma uint_digits_digit (u : Decimal.uint) (c : char) :
  In c (uint_digits u) -> (48 <= c <= 57)%N.
Proof.
  induction u; simpl; try tauto;
    (intros [<- | H]; [lia | auto]).
Qed.

Lemma format_04d_digit (i : nat) (c : char) :
  In c (format_04d i) -> (48 <= c <= 57)%N.
Proof.
  unfold format_04d. intros H. apply in_app_or in H. destruct H as [H|H].
  - apply repeat_spec in H. subst c. unfold zero_digit. lia.
  - exact (uint_digits_digit _ _ H).
Qed.

Lemma format_04d_cons (i : nat) :
  exists c rest, format_04d i = c :: rest /\ (48 <= c <= 57)%N.
Proof.
  destruct (format_04d i) as [|c rest] eqn:E.
  - apply (f_equal (@length char)) in E. unfold format_04d in E.
    cbv zeta in E. rewrite length_app, repeat_length in E.
    change (length (@nil char)) with 0 in E. lia.
  - exists c, rest. split; [reflexivity|].
    apply (format_04d_digit i). rewrite E. left. reflexivity.
Qed.

Lemma path_join_inj (dir a b : str) :
  path_join dir a = path_join dir b -> a = b.
Proof.
  unfold path_join. intros H. apply app_inv_head in H.
  apply app_inv_head in H. exact H.
Qed.

Lemma page_filenames_NoDup (isalnum : char -> bool) (pages : list page) :
  NoDup (map fst (page_files isalnum pages)).
Proof.
  apply NoDup_nth_error. intros i j Hi Heq.
  unfold page_files in *. rewrite length_map, length_map, length_enumerate in Hi.
  rewrite !nth_error_map, !nth_error_enumerate in Heq.
  destruct (nth_error pages i) as [p|] eqn:Ep.
  2:{ apply nth_error_None in Ep. lia. }
  destruct (nth_error pages j) as [q|] eqn:Eq; [|discriminate].
  simpl in Heq. injection Heq as Heq.
  eapply page_filename_inj. exact Heq.
Qed.

Lemma NoDup_map_inj {A B} (f : A -> B) (l : list A) :
  (forall x y, f x = f y -> x = y) -> NoDup l -> NoDup (map f l).
Proof.
  intros Hinj Hl. induction Hl as [|x l Hx Hl IH]; cbn [map]; constructor.
  - intros Hin. apply in_map_iff in Hin. destruct Hin as (y & Hy & Hin).
    apply Hinj in Hy. subst y. contradiction.
  - exact IH.
Qed.

(** C9: the name under which the [i]-th page is written starts with the
    zero-padded index [i]; the names of the pages of any list are
    pairwise distinct, whatever their titles (equal titles included);
    and so are the paths of all the files [process_source] writes. *)
Theorem page_filenames_distinct (isalnum : char -> bool) (pages : list page) :
  (forall i p, exists rest,
      page_filename isalnum i p = format_04d i ++ underscore :: rest)
  /\ NoDup (map fst (page_files isalnum pages))
  /\ forall RAW_DIR OUTPUT_DIR source_name raw_file use_header_only,
       NoDup (map fst (snd (process_source isalnum RAW_DIR OUTPUT_DIR
                              source_name raw_file use_header_only))).
Proof.
  split; [|split].
  - intros i p. unfold page_filename. eexists. reflexivity.
  - apply page_filenames_NoDup.
  - intros RAW_DIR OUTPUT_DIR source_name raw_file use_header_only.
    unfold process_source. destruct raw_file as [content|]; [|constructor].
    destruct (if use_header_only then split_with_header_pattern content
              else split_with_url_pattern content) as [|p0 ps];
      [constructor|].
    cbn [snd]. rewrite map_app, map_map. cbn [map fst].
    set (dir := path_join OUTPUT_DIR source_name).
    apply NoDup_app.
    + rewrite <- (map_map fst (path_join dir)).
      apply NoDup_map_inj; [apply path_join_inj | apply page_filenames_NoDup].
    + constructor; [intros [] | constructor].
    + intros path Hin [<- | []].
      apply in_map_iff in Hin. destruct Hin as ([name body] & Hpath & Hin).
      cbn [fst] in Hpath. apply path_join_inj in Hpath.
      unfold page_files in Hin. apply in_map_iff in Hin.
      destruct Hin as ([i p] & Hnb & _). injection Hnb as Hname _.
      rewrite <- Hname in Hpath. unfold page_filename in Hpath.
      destruct (format_04d_cons i) as (c & rest & Hf & Hc).
      rewrite Hf in Hpath. cbn in Hpath. injection Hpath as -> _. lia.
Qed.

(** ** Strategy A: where a boundary is recognised *)

Lemma at_bol_spec (text : str) (pos : nat) :
  at_bol text pos = true <->
  pos = 0 \/ exists p, pos = S p /\ nth_error text p = Some nl.
Proof.
  unfold at_bol. destruct pos as [|p].
  - split; auto.
  - split.
    + intros H. right. exists p. split; [reflexivity|].
      destruct (nth_error text p) as [c|]; [|discriminate].
      apply N.eqb_eq in H. subst c. reflexivity.
    + intros [H | (q & [= <-] & Hq)]; [discriminate|].
      rewrite Hq. apply N.eqb_refl.
Qed.

Lemma nth_error_unique_sep (x : char) (A B : str) (j : nat) :
  ~ In x A -> ~ In x B -> nth_error (A ++ x :: B) j = Some x ->
  j = length A.
Proof.
  intros HA HB H.
  destruct (Nat.lt_trichotomy j (length A)) as [Hlt | [Heq | Hgt]].
  - rewrite nth_error_app1 in H by exact Hlt.
    apply nth_error_In in H. contradiction.
  - exact Heq.
  - rewrite nth_error_app2 in H by lia.
    destruct (j - length A) as [|k] eqn:E; [lia|].
    simpl in H. apply nth_error_In in H. contradiction.
Qed.

Lemma skipn_app_sep (x : char) (A B : str) :
  skipn (S (length A)) (A ++ x :: B) = B.
Proof. induction A as [|c A IH]; [reflexivity | exact IH]. Qed.

Lemma source_line_no_nl (g2 : str) :
  (exists scheme u,
      g2 = scheme ++ u /\ (scheme = py "http://" \/ scheme = py "https://")
      /\ u <> [] /\ ~ In nl u) ->
  ~ In nl (py "Source: " ++ g2).
Proof.
  intros (scheme & u & -> & Hscheme & _ & Hu) H.
  apply in_app_or in H. destruct H as [H|H].
  - unfold nl in H. simpl in H. intuition discriminate.
  - apply in_app_or in H. destruct H as [H|H]; [|contradiction].
    unfold nl in H. destruct Hscheme as [-> | ->]; simpl in H;
      intuition discriminate.
Qed.

(** A line that starts inside a match of the Strategy A pattern is its
    [Source:] line, which does not begin with [#]: candidates for a
    boundary never overlap. *)
Lemma with_url_no_overlap (text : str) (p pos : nat) (m : re_match)
    (tail : str) :
  PAGE_PATTERN_WITH_URL text p = Some m ->
  m_start m < pos < m_end m ->
  at_bol text pos = true ->
  skipn pos text = hash :: tail ->
  False.
Proof.
  intros Hm Hpos Hbol Hskip.
  destruct (match_body_at_Some _ _ _ _ _ header_url_body_ok Hm)
    as (_ & gs & rest & matched & Hbody & Hs & _ & ->).
  simpl in Hpos.
  apply header_url_body_spec in Hbody.
  destruct Hbody as (g1 & g2 & _ & Hs' & _ & Hg1 & _ & Hurl).
  assert (HB := source_line_no_nl _ Hurl).
  set (A := hash :: space :: g1) in *.
  set (B := py "Source: " ++ g2) in *.
  assert (HA : ~ In nl A).
  { subst A. unfold nl, hash, space in *. simpl. intuition discriminate. }
  assert (Hskip_p : skipn p text = (A ++ nl :: B) ++ rest).
  { rewrite Hs'. subst A B. simpl. rewrite <- ?app_assoc. simpl.
    rewrite <- ?app_assoc. reflexivity. }
  assert (Hmatched : matched = A ++ nl :: B).
  { rewrite Hs in Hskip_p. apply app_inv_tail in Hskip_p. exact Hskip_p. }
  subst matched.
  apply at_bol_spec in Hbol. destruct Hbol as [-> | (q & -> & Hq)]; [lia|].
  assert (Hq' : nth_error (A ++ nl :: B) (q - p) = Some nl).
  { rewrite <- (nth_error_app1 _ rest) by lia.
    rewrite <- Hskip_p, nth_error_skipn.
    replace (p + (q - p)) with q by lia. exact Hq. }
  apply nth_error_unique_sep in Hq'; [|assumption|assumption].
  assert (Hsk : skipn (S q) text = B ++ rest).
  { replace (S q) with (S (length A) + p) by lia.
    rewrite <- skipn_skipn, Hskip_p, <- app_assoc.
    apply skipn_app_sep. }
  rewrite Hsk in Hskip. subst B. discriminate.
Qed.

Lemma page_emitted_at_iff (St : strategy) (content : str) (pos : nat) :
  page_emitted_at St content pos <->
  exists m, In m (boundaries St content) /\ m_start m = pos.
Proof.
  unfold page_emitted_at. split.
  - intros (i & m & pg & Hm & Hs & _). exists m. split; [|exact Hs].
    eapply nth_error_In. exact Hm.
  - intros (m & Hin & Hs). apply In_nth_error in Hin. destruct Hin as (i & Hm).
    rewrite split_pages_build.
    destruct (nth_error_build_pages
                (match St with
                 | WithUrl => fun m => Some (strip (group m 2))
                 | HeaderOnly => fun _ => None
                 end) (scanned_text St content) _ _ _ Hm) as (pg & Hpg & _).
    exists i, m, pg. auto.
Qed.

Lemma boundaries_sound (St : strategy) (content : str) (m : re_match) :
  In m (boundaries St content) ->
  boundary_pattern St (scanned_text St content) (m_start m) = Some m.
Proof.
  intros Hin. apply (finditer_from_sound _ _ (boundary_pattern_ok St)) in Hin.
  apply Hin.
Qed.

(** C5: under Strategy A a page record is emitted for a position exactly
    when a line starting there begins with [# ] and a non-empty title
    and the very next line begins with [Source: ] and an http:// or
    https:// URL; so a header line whose next line is not such a URL
    line gives no boundary at its position. *)
Theorem strategy_a_boundary_iff (text : str) (pos : nat) :
  (page_emitted_at WithUrl text pos <-> header_then_source_at text pos)
  /\ (~ header_then_source_at text pos -> ~ page_emitted_at WithUrl text pos).
Proof.
  assert (Hiff : page_emitted_at WithUrl text pos
                 <-> header_then_source_at text pos).
  { rewrite page_emitted_at_iff. split.
    - intros (m & Hin & <-). apply boundaries_sound in Hin.
      cbn [boundary_pattern scanned_text] in Hin.
      destruct (match_body_at_Some _ _ _ _ _ header_url_body_ok Hin)
        as (Hbol & gs & rest & matched & Hbody & _).
      apply header_url_body_spec in Hbody.
      destruct Hbody
        as (g1 & g2 & _ & Hs & Hne & Hn & _ & scheme & u & -> & Hsch & Hu & Hnu).
      split; [apply at_bol_spec, Hbol; reflexivity|].
      destruct u as [|c u]; [congruence|].
      exists g1, scheme, c, (u ++ rest). repeat split; auto.
      + rewrite Hs. rewrite <- app_assoc. reflexivity.
      + intros ->. apply Hnu. left. reflexivity.
    - intros (Hbol & ttl & scheme & c & tail & Hskip & Hne & Hn & Hsch & Hc).
      apply at_bol_spec in Hbol.
      destruct (span_line tail) as [run rest] eqn:Espan.
      apply span_line_spec in Espan. destruct Espan as (-> & Hrun & Heol).
      assert (Hbody : header_url_body (skipn pos text)
                      = Some ([ttl; scheme ++ c :: run], rest)).
      { apply header_url_body_spec.
        exists ttl, (scheme ++ c :: run). repeat split; auto.
        - rewrite Hskip. rewrite <- app_assoc. reflexivity.
        - exists scheme, (c :: run). repeat split; auto; [discriminate|].
          intros [H|H]; [congruence | contradiction]. }
      set (m := {| m_start := pos; m_end := length text - length rest;
                   m_groups := [ttl; scheme ++ c :: run] |}).
      assert (Hm : PAGE_PATTERN_WITH_URL text pos = Some m).
      { unfold PAGE_PATTERN_WITH_URL, match_body_at.
        rewrite Hbol, Hbody. reflexivity. }
      exists m. split; [|reflexivity].
      destruct (finditer_from_complete _ text with_url_ok
                  (S (length text)) 0 pos m) as [Hin | (m' & Hin & Hov)];
        [lia | lia | exact Hm | exact Hin |].
      exfalso. apply (finditer_from_sound _ _ with_url_ok) in Hin.
      destruct Hin as [Hm' _].
      exact (with_url_no_overlap _ _ _ _ _ Hm' Hov Hbol Hskip). }
  split; [exact Hiff|]. intros Hn He. apply Hn, Hiff, He.
Qed.

Example strategy_a_boundary_example :
  page_emitted_at WithUrl
    (py "intro" ++ nl :: py "# A" ++ nl :: py "Source: http://x" ++ nl ::
     py "# B" ++ nl :: py "body")
    6
  /\ ~ page_emitted_at WithUrl
        (py "intro" ++ nl :: py "# A" ++ nl :: py "Source: http://x" ++ nl ::
         py "# B" ++ nl :: py "body")
        27.
Proof.
  split.
  - exists 0. eexists. eexists. vm_compute. repeat split.
  - rewrite page_emitted_at_iff. intros (m & Hin & Hs).
    vm_compute in Hin. destruct Hin as [<- | []]. discriminate.
Qed.

(** ** The loop over the matches, by recursion *)

Lemma build_pages_rec_from (url_of : re_match -> option str) (text : str)
    (pre l : list re_match) :
  map (fun im : nat * re_match =>
         let (i, m) := im in
         let content_start := m_end m in
         let content_end :=
           if i + 1 <? length (pre ++ l)
           then m_start (nth (i + 1) (pre ++ l) dummy_match)
           else length text in
         let page_content := strip (slice text content_start content_end) in
         {| title := strip (group m 1);
            source_url := url_of m;
            content := page_content;
            content_length := length page_content |})
      (combine (seq (length pre) (length l)) l)
  = pages_rec url_of text l.
Proof.
  revert pre. induction l as [|m l IH]; intros pre; [reflexivity|].
  cbn [length seq combine map pages_rec]. f_equal.
  - unfold page_at. rewrite length_app. cbn [length].
    replace (length pre + 1) with (S (length pre)) by lia.
    rewrite app_nth2 by lia.
    replace (S (length pre) - length pre) with 1 by lia.
    destruct l as [|m' l']; cbn [length nth];
      match goal with
      | |- context [?a <? ?b] => destruct (Nat.ltb_spec a b)
      end; try lia; reflexivity.
  - specialize (IH (pre ++ [m])).
    replace ((pre ++ [m]) ++ l) with (pre ++ m :: l) in IH
      by (rewrite <- app_assoc; reflexivity).
    replace (length (pre ++ [m])) with (S (length pre)) in IH
      by (rewrite length_app; simpl; lia).
    exact IH.
Qed.

Lemma build_pages_rec (url_of : re_match -> option str) (text : str)
    (ms : list re_match) :
  build_pages url_of text ms = pages_rec url_of text ms.
Proof. exact (build_pages_rec_from url_of text [] ms). Qed.

Lemma split_pages_scanned (St : strategy) (text : str) :
  split_pages St text = pages_of_scanned St (scanned_text St text).
Proof. destruct St; reflexivity. Qed.

Lemma split_pages_rec (St : strategy) (text : str) :
  split_pages St text =
  pages_rec (url_of_strategy St) (scanned_text St text) (boundaries St text).
Proof.
  rewrite split_pages_scanned. unfold pages_of_scanned.
  apply build_pages_rec.
Qed.

(** ** Pages as a partition of the scanned text *)

Lemma app3_assoc (a b c d : str) : a ++ b ++ c ++ d = (a ++ b ++ c) ++ d.
Proof. rewrite <- !app_assoc. reflexivity. Qed.

Lemma reassemble_chained (url_of : re_match -> option str) (text : str)
    (ms : list re_match) (pos : nat) (m0 : re_match) (rest : list re_match) :
  chained (length text) pos ms ->
  ms = m0 :: rest ->
  exists gaps,
    length gaps = length (pages_rec url_of text ms)
    /\ Forall (fun g => all_space (fst g) /\ all_space (snd g)) gaps
    /\ reassemble (map (fun m => slice text (m_start m) (m_end m)) ms)
         (pages_rec url_of text ms) gaps
       = skipn (m_start m0) text.
Proof.
  revert pos m0 rest.
  induction ms as [|m ms IH]; intros pos m0 rest Hch Heq; [discriminate|].
  injection Heq as <- <-.
  destruct Hch as (_ & Hse & Hel & Hch).
  destruct ms as [|m' ms'].
  - destruct (strip_split (slice text (m_end m) (length text)))
      as (lead & trail & Hbody & Hlead & Htrail).
    exists [(lead, trail)]. split; [reflexivity|]. split.
    + constructor; [split; assumption | constructor].
    + cbn [reassemble pages_rec map page_at content].
      rewrite app_nil_r, <- Hbody, slice_to_end. apply slice_skipn. lia.
  - destruct (strip_split (slice text (m_end m) (m_start m')))
      as (lead & trail & Hbody & Hlead & Htrail).
    destruct (IH (m_end m) m' ms' Hch eq_refl) as (gaps & Hlen & Hws & Hre).
    exists ((lead, trail) :: gaps). split; [|split].
    + change (pages_rec url_of text (m :: m' :: ms'))
        with (page_at url_of text m (m_start m')
              :: pages_rec url_of text (m' :: ms')).
      cbn [length]. f_equal. exact Hlen.
    + constructor; [split; assumption | exact Hws].
    + change (pages_rec url_of text (m :: m' :: ms'))
        with (page_at url_of text m (m_start m')
              :: pages_rec url_of text (m' :: ms')).
      change (map (fun m1 => slice text (m_start m1) (m_end m1))
                (m :: m' :: ms'))
        with (slice text (m_start m) (m_end m)
              :: map (fun m1 => slice text (m_start m1) (m_end m1))
                   (m' :: ms')).
      cbn [reassemble]. rewrite Hre. cbn [page_at content].
      rewrite (app3_assoc lead), <- Hbody.
      destruct Hch as (Hle & _).
      rewrite slice_skipn by exact Hle. apply slice_skipn. lia.
Qed.

(** One marker per page: the pages that reconstruct a text from given
    markers cannot be more, or fewer. *)
Lemma reconstructs_page_count (T T' : str) (markers : list str)
    (pages pages' : list page) :
  reconstructs T markers pages -> reconstructs T' markers pages' ->
  length pages' = length pages.
Proof. intros [H _] [H' _]. congruence. Qed.

Example reconstructs_no_extra_page (T : str) (markers : list str)
    (pages : list page) (pg : page) :
  reconstructs T markers pages -> ~ reconstructs T markers (pages ++ [pg]).
Proof.
  intros H H'. assert (Hl := reconstructs_page_count _ _ _ _ _ H H').
  rewrite length_app in Hl. cbn [length] in Hl. lia.
Qed.

(** C1 as the specification states it fails: text before the first
    boundary is in no page (Strategy A), and the contents are cut from
    the rewritten text, not from the input (Strategy B).  In both texts
    there is one marker per page, and still no choice of whitespace
    gives the input back. *)
Lemma pages_do_not_reconstruct_input :
  (boundaries WithUrl
     (py "x" ++ nl :: py "# A" ++ nl :: py "Source: http://u" ++ nl ::
      py "body") <> []
   /\ length (marker_texts WithUrl
                (py "x" ++ nl :: py "# A" ++ nl :: py "Source: http://u" ++
                 nl :: py "body"))
      = length (split_pages WithUrl
                  (py "x" ++ nl :: py "# A" ++ nl :: py "Source: http://u" ++
                   nl :: py "body"))
   /\ ~ reconstructs
         (py "x" ++ nl :: py "# A" ++ nl :: py "Source: http://u" ++ nl ::
          py "body")
         (marker_texts WithUrl
            (py "x" ++ nl :: py "# A" ++ nl :: py "Source: http://u" ++ nl ::
             py "body"))
         (split_pages WithUrl
            (py "x" ++ nl :: py "# A" ++ nl :: py "Source: http://u" ++ nl ::
             py "body")))
  /\ (boundaries HeaderOnly
        (py "# A" ++ nl :: py "```" ++ nl :: py "# c" ++ nl :: py "```" ++ [nl])
      <> []
      /\ length (marker_texts HeaderOnly
                   (py "# A" ++ nl :: py "```" ++ nl :: py "# c" ++ nl ::
                    py "```" ++ [nl]))
         = length (split_pages HeaderOnly
                     (py "# A" ++ nl :: py "```" ++ nl :: py "# c" ++ nl ::
                      py "```" ++ [nl]))
      /\ ~ reconstructs
            (py "# A" ++ nl :: py "```" ++ nl :: py "# c" ++ nl ::
             py "```" ++ [nl])
            (marker_texts HeaderOnly
               (py "# A" ++ nl :: py "```" ++ nl :: py "# c" ++ nl ::
                py "```" ++ [nl]))
            (split_pages HeaderOnly
               (py "# A" ++ nl :: py "```" ++ nl :: py "# c" ++ nl ::
                py "```" ++ [nl]))).
Proof.
  split; (split; [|split]).
  - vm_compute. discriminate.
  - vm_compute. reflexivity.
  - intros (_ & gaps & Hlen & _ & Hre).
    vm_compute in Hlen.
    destruct gaps as [|[lead trail] [|g gaps]]; try discriminate Hlen.
    revert Hre. vm_compute. discriminate.
  - vm_compute. discriminate.
  - vm_compute. reflexivity.
  - intros (_ & gaps & Hlen & _ & Hre).
    vm_compute in Hlen.
    destruct gaps as [|[lead trail] [|g gaps]]; try discriminate Hlen.
    assert (Hm : marker_texts HeaderOnly
                   (py "# A" ++ nl :: py "```" ++ nl :: py "# c" ++ nl ::
                    py "```" ++ [nl]) = [py "# A"])
      by (vm_compute; reflexivity).
    assert (Hp : map content
                   (split_pages HeaderOnly
                      (py "# A" ++ nl :: py "```" ++ nl :: py "# c" ++ nl ::
                       py "```" ++ [nl]))
                 = [py "```" ++ nl :: py "### c" ++ nl :: py "```"])
      by (vm_compute; reflexivity).
    rewrite Hm in Hre.
    destruct (split_pages HeaderOnly _) as [|pg [|pg' pgs]];
      try discriminate.
    injection Hp as Hp. cbn [reassemble] in Hre. rewrite Hp in Hre.
    assert (Hl := f_equal (@length char) Hre).
    rewrite !length_app in Hl. simpl in Hl.
    destruct lead; [|simpl in Hl; lia].
    revert Hre. vm_compute. discriminate.
Qed.

(** C1, amended: when the strategy finds at least one boundary, the
    boundary markers, the page contents and the whitespace trimmed from
    the edges of each page body, taken page by page in order, give back
    exactly the scanned text from the start of the first boundary to its
    end; the scanned text is the input under Strategy A and the input
    with its code blocks rewritten under Strategy B. *)
Theorem pages_partition_scanned_text (St : strategy) (T : str)
    (m0 : re_match) (ms : list re_match) :
  boundaries St T = m0 :: ms ->
  reconstructs (skipn (m_start m0) (scanned_text St T))
    (marker_texts St T) (split_pages St T).
Proof.
  intros Hb. unfold reconstructs, marker_texts. split.
  - rewrite length_map, split_pages_scanned. unfold pages_of_scanned.
    symmetry. apply length_build_pages.
  - rewrite split_pages_rec.
    apply (reassemble_chained (url_of_strategy St) (scanned_text St T)
             (boundaries St T) 0 m0 ms); [|exact Hb].
    apply finditer_from_chained, boundary_pattern_ok.
Qed.

Lemma pages_partition_scanned_text_witness :
  reconstructs
    (skipn 6 (scanned_text WithUrl three_page_doc))
    (marker_texts WithUrl three_page_doc)
    (split_pages WithUrl three_page_doc)
  /\ reconstructs
       (skipn 0 (scanned_text HeaderOnly block_pages_doc))
       (marker_texts HeaderOnly block_pages_doc)
       (split_pages HeaderOnly block_pages_doc).
Proof.
  split.
  - apply (pages_partition_scanned_text WithUrl three_page_doc
             {| m_start := 6; m_end := 26;
                m_groups := [py "A"; py "http://u"] |}
             [ {| m_start := 36; m_end := 57;
                  m_groups := [py "B"; py "https://v"] |};
               {| m_start := 60; m_end := 80;
                  m_groups := [py "C"; py "http://w"] |} ]).
    vm_compute. reflexivity.
  - apply (pages_partition_scanned_text HeaderOnly block_pages_doc
             {| m_start := 0; m_end := 3; m_groups := [py "A"] |}
             [ {| m_start := 19; m_end := 22; m_groups := [py "B"] |} ]).
    vm_compute. reflexivity.
Defined.

(** The pages of the two documents: three and two, in the order of the
    text, each content trimmed. *)
Example three_page_doc_pages :
  map (fun pg => (title pg, content pg)) (split_pages WithUrl three_page_doc)
  = [ (py "A", py "body a"); (py "B", py "b"); (py "C", []) ]
  /\ map (fun pg => (title pg, content pg))
       (split_pages HeaderOnly block_pages_doc)
     = [ (py "A", py "```" ++ nl :: py "### c" ++ nl :: py "```");
         (py "B", py "text") ].
Proof. split; vm_compute; reflexivity. Qed.

(** ** Text before the first boundary *)

Lemma at_bol_skipn (text : str) (p q : nat) :
  at_bol text p = true ->
  at_bol (skipn p text) q = at_bol text (p + q).
Proof.
  intros Hp. destruct q as [|q].
  - rewrite Nat.add_0_r, Hp. reflexivity.
  - rewrite Nat.add_succ_r. unfold at_bol. rewrite nth_error_skipn.
    reflexivity.
Qed.

Lemma match_body_at_shift (body : str -> option (list str * str))
    (text : str) (p q : nat) :
  p <= length text ->
  at_bol text p = true ->
  match_body_at true body (skipn p text) q =
  option_map (shift_back p) (match_body_at true body text (p + q)).
Proof.
  intros Hp Hbol. unfold match_body_at.
  rewrite at_bol_skipn by exact Hbol. cbn [negb orb].
  destruct (at_bol text (p + q)); [|reflexivity].
  rewrite skipn_skipn. replace (q + p) with (p + q) by lia.
  destruct (body (skipn (p + q) text)) as [[gs rest]|]; [|reflexivity].
  cbn [option_map]. unfold shift_back. cbn [m_start m_end m_groups].
  rewrite length_skipn. do 2 f_equal; lia.
Qed.

Lemma finditer_from_shift (pattern : str -> nat -> option re_match)
    (text : str) (p : nat) :
  pattern_ok pattern ->
  p <= length text ->
  (forall q, pattern (skipn p text) q =
             option_map (shift_back p) (pattern text (p + q))) ->
  forall fuel q,
    finditer_from pattern (skipn p text) fuel q =
    map (shift_back p) (finditer_from pattern text fuel (p + q)).
Proof.
  intros Hok Hp Hshift fuel.
  induction fuel as [|f IH]; intros q; [reflexivity|].
  cbn [finditer_from]. rewrite length_skipn, Hshift.
  destruct (Nat.ltb_spec (length text - p) q);
    destruct (Nat.ltb_spec (length text) (p + q)); try lia; [reflexivity|].
  destruct (pattern text (p + q)) as [m|] eqn:E; cbn [option_map map].
  - destruct (Hok _ _ _ E) as [Hs He].
    f_equal. rewrite IH. do 2 f_equal. cbn [shift_back m_end]. lia.
  - rewrite IH. do 2 f_equal. lia.
Qed.

Lemma chained_weaken (len pos pos' : nat) (ms : list re_match) :
  pos' <= pos -> chained len pos ms -> chained len pos' ms.
Proof.
  intros Hle. destruct ms as [|m ms]; [auto|].
  intros (H1 & H2 & H3 & H4). repeat split; auto. lia.
Qed.

Lemma pages_rec_shift (url_of : re_match -> option str) (text : str)
    (p : nat) (ms : list re_match) :
  (forall m, url_of (shift_back p m) = url_of m) ->
  p <= length text ->
  forall pos, p <= pos -> chained (length text) pos ms ->
  pages_rec url_of (skipn p text) (map (shift_back p) ms)
  = pages_rec url_of text ms.
Proof.
  intros Hurl Hp. induction ms as [|m ms IH]; intros pos Hpos Hch.
  - reflexivity.
  - destruct Hch as (Hs & Hse & Hel & Hch). cbn [map pages_rec]. f_equal.
    + unfold page_at. rewrite Hurl.
      replace (group (shift_back p m) 1) with (group m 1) by reflexivity.
      assert (Hsl : forall ce, p <= ce ->
                 slice (skipn p text) (m_end (shift_back p m)) (ce - p)
                 = slice text (m_end m) ce).
      { intros ce Hce. rewrite slice_shift. cbn [shift_back m_end].
        f_equal; lia. }
      destruct ms as [|m' ms']; cbn [map].
      * rewrite length_skipn, Hsl by lia. reflexivity.
      * destruct Hch as (Hle & _).
        replace (m_start (shift_back p m')) with (m_start m' - p)
          by reflexivity.
        rewrite Hsl by lia. reflexivity.
    + apply (IH (m_end m)); [lia | exact Hch].
Qed.

(** ** The code-block pass, position by position *)

Lemma insert_from_app (marked : nat -> bool) (pos : nat) (a b : str) :
  insert_from marked pos (a ++ b)
  = insert_from marked pos a ++ insert_from marked (pos + length a) b.
Proof.
  revert pos. induction a as [|c a IH]; intros pos; cbn [app insert_from length].
  - rewrite Nat.add_0_r. reflexivity.
  - rewrite IH, <- app_assoc. cbn [app].
    replace (S pos + length a) with (pos + S (length a)) by lia.
    reflexivity.
Qed.

Lemma insert_from_unmarked (marked : nat -> bool) (pos : nat) (s : str) :
  (forall p, pos <= p < pos + length s -> marked p = false) ->
  insert_from marked pos s = s.
Proof.
  revert pos. induction s as [|c s IH]; intros pos H; [reflexivity|].
  cbn [insert_from]. rewrite H by (cbn [length]; lia). cbn [app]. f_equal.
  apply IH. intros p Hp. apply H. cbn [length]. lia.
Qed.

Lemma insert_from_ext (f g : nat -> bool) (a b : nat) (s : str) :
  (forall j, j < length s -> f (a + j) = g (b + j)) ->
  insert_from f a s = insert_from g b s.
Proof.
  revert a b. induction s as [|c s IH]; intros a b H; [reflexivity|].
  cbn [insert_from].
  assert (H0 := H 0). rewrite !Nat.add_0_r in H0.
  rewrite H0 by (cbn [length]; lia). do 2 f_equal.
  apply IH. intros j Hj. rewrite !Nat.add_succ_comm. apply H.
  cbn [length]. lia.
Qed.

Lemma count_nl_app (a b : str) : count_nl (a ++ b) = count_nl a + count_nl b.
Proof. unfold count_nl. rewrite filter_app, length_app. reflexivity. Qed.

Lemma count_nl_insert_from (marked : nat -> bool) (pos : nat) (s : str) :
  count_nl (insert_from marked pos s) = count_nl s.
Proof.
  revert pos. induction s as [|c s IH]; intros pos; [reflexivity|].
  cbn [insert_from].
  change (c :: insert_from marked (S pos) s)
    with ([c] ++ insert_from marked (S pos) s).
  change (c :: s) with ([c] ++ s).
  rewrite !count_nl_app, IH. destruct (marked pos); reflexivity.
Qed.

Lemma length_insert_from (marked : nat -> bool) (pos : nat) (s : str) :
  length (insert_from marked pos s)
  = length s + 2 * count_marked marked pos (length s).
Proof.
  unfold count_marked. revert pos.
  induction s as [|c s IH]; intros pos; [reflexivity|].
  cbn [insert_from length seq filter]. rewrite length_app. cbn [length].
  rewrite IH. destruct (marked pos); cbn [length]; lia.
Qed.

Lemma chained_In (len pos : nat) (ms : list re_match) (m : re_match) :
  chained len pos ms -> In m ms ->
  pos <= m_start m /\ m_start m < m_end m <= len.
Proof.
  revert pos. induction ms as [|m0 ms IH]; intros pos Hch Hin; [destruct Hin|].
  destruct Hch as (H1 & H2 & H3 & Hch). destruct Hin as [<- | Hin].
  - lia.
  - destruct (IH _ Hch Hin). lia.
Qed.

(** A substitution whose replacements put [##] in front of the marked
    characters of each match, where nothing is marked outside the
    matches, does so for the whole text. *)
Lemma sub_pieces_insert (repl : str -> str) (marked : nat -> bool)
    (text : str) (ms : list re_match) :
  (forall m, In m ms ->
     repl (slice text (m_start m) (m_end m))
     = insert_from marked (m_start m) (slice text (m_start m) (m_end m))) ->
  forall pos,
    chained (length text) pos ms ->
    (forall p, pos <= p < length text -> marked p = true ->
       exists m, In m ms /\ m_start m <= p < m_end m) ->
    sub_pieces repl text pos ms = insert_from marked pos (skipn pos text).
Proof.
  induction ms as [|m ms IH]; intros Hrepl pos Hch Hmarked.
  - cbn [sub_pieces]. symmetry. apply insert_from_unmarked.
    intros p Hp. rewrite length_skipn in Hp.
    destruct (marked p) eqn:E; [|reflexivity].
    destruct (Hmarked p) as (m & [] & _); [lia | exact E].
  - destruct Hch as (Hs & Hse & Hel & Hch). cbn [sub_pieces].
    rewrite <- (slice_skipn text pos (m_start m)) by exact Hs.
    rewrite <- (slice_skipn text (m_start m) (m_end m)) by lia.
    rewrite !insert_from_app, !length_slice by lia.
    replace (pos + (m_start m - pos)) with (m_start m) by lia.
    replace (m_start m + (m_end m - m_start m)) with (m_end m) by lia.
    f_equal; [|f_equal].
    + symmetry. apply insert_from_unmarked. intros p Hp.
      rewrite length_slice in Hp by lia.
      destruct (marked p) eqn:E; [|reflexivity].
      destruct (Hmarked p) as (m' & [<- | Hin] & Hm'); [lia | exact E | lia |].
      destruct (chained_In _ _ _ _ Hch Hin). lia.
    + apply Hrepl. left. reflexivity.
    + apply IH.
      * intros m' Hin. apply Hrepl. right. exact Hin.
      * exact Hch.
      * intros p Hp E.
        destruct (Hmarked p) as (m' & [<- | Hin] & Hm'); [lia | exact E | lia |].
        exists m'. split; assumption.
Qed.

Lemma hash_at_bol_Some (text : str) (p : nat) (m : re_match) :
  HASH_AT_BOL text p = Some m ->
  hash_line_at text p = true
  /\ m = {| m_start := p; m_end := p + 2; m_groups := [] |}
  /\ exists rest, skipn p text = hash :: space :: rest.
Proof.
  intros Hm. unfold hash_line_at.
  destruct (match_body_at_Some _ _ _ _ _ hash_body_ok Hm)
    as (Hbol & gs & rest & matched & Hbody & Hs & _ & ->).
  rewrite (Hbol eq_refl). unfold hash_body in Hbody.
  destruct (lit [hash; space] (skipn p text)) as [r|] eqn:E; [|discriminate].
  injection Hbody as <- <-. apply lit_Some in E.
  assert (matched = [hash; space]).
  { rewrite E in Hs. apply app_inv_tail in Hs. congruence. }
  subst matched. repeat split. exists r. exact E.
Qed.

Lemma hash_line_at_match (text : str) (p : nat) :
  hash_line_at text p = true -> exists m, HASH_AT_BOL text p = Some m.
Proof.
  unfold hash_line_at, HASH_AT_BOL, match_body_at, hash_body.
  intros H. apply andb_true_iff in H. destruct H as [-> H]. cbn [negb orb].
  destruct (lit [hash; space] (skipn p text)); [|discriminate].
  eexists. reflexivity.
Qed.

Lemma at_bol_after_hash (text : str) (p : nat) (rest : str) :
  skipn p text = hash :: rest -> at_bol text (S p) = false.
Proof.
  intros H. unfold at_bol.
  assert (Hn : nth_error text p = Some hash).
  { rewrite <- (Nat.add_0_r p), <- nth_error_skipn, H. reflexivity. }
  rewrite Hn. reflexivity.
Qed.

Lemma hash_line_at_after_hash (text : str) (p : nat) (rest : str) :
  skipn p text = hash :: rest -> hash_line_at text (S p) = false.
Proof.
  intros H. unfold hash_line_at. rewrite (at_bol_after_hash _ _ _ H).
  reflexivity.
Qed.

(** The inner substitution puts [##] in front of every line of the
    block that begins with [# ]. *)
Lemma replace_headers_in_block_insert (block : str) :
  replace_headers_in_block block
  = insert_from (hash_line_at block) 0 block.
Proof.
  unfold replace_headers_in_block, re_sub.
  rewrite (sub_pieces_insert _ (hash_line_at block)); [reflexivity | | |].
  - intros m Hin. apply (finditer_from_sound _ _ hash_at_bol_ok) in Hin.
    destruct Hin as [Hm _]. apply hash_at_bol_Some in Hm.
    destruct Hm as (Hmark & Hm & rest & Hs).
    assert (He : m_end m = m_start m + 2) by (rewrite Hm; reflexivity).
    rewrite He.
    unfold slice. replace (m_start m + 2 - m_start m) with 2 by lia.
    rewrite Hs. cbn [firstn insert_from]. rewrite Hmark.
    rewrite (hash_line_at_after_hash _ _ _ Hs). reflexivity.
  - apply finditer_from_chained, hash_at_bol_ok.
  - intros p Hp Hmark. destruct (hash_line_at_match _ _ Hmark) as (m & Hm).
    destruct (finditer_from_complete _ block hash_at_bol_ok
                (S (length block)) 0 p m) as [Hin | (m' & Hin & Hov)];
      [lia | lia | exact Hm | |].
    + exists m. split; [exact Hin|]. apply hash_at_bol_Some in Hm.
      destruct Hm as (_ & Hm & _). rewrite Hm. cbn [m_start m_end]. lia.
    + exfalso. apply (finditer_from_sound _ _ hash_at_bol_ok) in Hin.
      destruct Hin as [Hm' _]. apply hash_at_bol_Some in Hm'.
      destruct Hm' as (_ & Hm' & rest & Hs).
      assert (He : m_end m' = m_start m' + 2) by (rewrite Hm'; reflexivity).
      assert (p = S (m_start m')) by lia. subst p.
      rewrite (hash_line_at_after_hash _ _ _ Hs) in Hmark. discriminate.
Qed.

Lemma code_block_Some (text : str) (p : nat) (m : re_match) :
  CODE_BLOCK text p = Some m ->
  exists inner rest,
    skipn p text = (fence ++ inner ++ fence) ++ rest
    /\ m = {| m_start := p; m_end := p + length (fence ++ inner ++ fence);
              m_groups := [] |}.
Proof.
  intros Hm.
  destruct (match_body_at_Some _ _ _ _ _ code_block_body_ok Hm)
    as (_ & gs & rest & matched & Hbody & Hs & _ & ->).
  assert (Hgs : gs = []).
  { unfold code_block_body in Hbody.
    destruct (lit fence (skipn p text)); [|discriminate].
    destruct (lazy_until_fence s); [|discriminate]. congruence. }
  destruct (code_block_body_spec _ _ _ Hbody) as (inner & Hs').
  exists inner, rest.
  assert (matched = fence ++ inner ++ fence).
  { rewrite Hs' in Hs.
    replace (fence ++ inner ++ fence ++ rest)
      with ((fence ++ inner ++ fence) ++ rest) in Hs
      by (rewrite <- !app_assoc; reflexivity).
    apply app_inv_tail in Hs. congruence. }
  subst matched gs. split; [exact Hs | reflexivity].
Qed.

Lemma in_block_In (text : str) (p : nat) :
  in_block text p = true <->
  exists m, In m (finditer CODE_BLOCK text) /\ m_start m <= p < m_end m.
Proof.
  unfold in_block. rewrite existsb_exists. split.
  - intros (m & Hin & H). apply andb_true_iff in H. destruct H as [H1 H2].
    apply Nat.leb_le in H1. apply Nat.ltb_lt in H2. exists m. auto.
  - intros (m & Hin & H1 & H2). exists m. split; [exact Hin|].
    apply andb_true_iff. split; [apply Nat.leb_le | apply Nat.ltb_lt];
      assumption.
Qed.

Lemma hash_start_cut (X rest : str) :
  match lit [hash; space] ((X ++ [backtick]) ++ rest) with
  | Some _ => true
  | None => false
  end
  = match lit [hash; space] (X ++ [backtick]) with
    | Some _ => true
    | None => false
    end.
Proof.
  destruct X as [|c [|d X]]; cbn [app lit].
  - reflexivity.
  - destruct (hash =? c)%N; reflexivity.
  - destruct (hash =? c)%N; [|reflexivity].
    destruct (space =? d)%N; reflexivity.
Qed.

(** Inside a block the lines that begin with [# ] are the same whether
    the block is read on its own or in place. *)
Lemma hash_line_at_block (text : str) (s : nat) (inner rest : str) (j : nat) :
  skipn s text = (fence ++ inner ++ fence) ++ rest ->
  j < length (fence ++ inner ++ fence) ->
  hash_line_at (fence ++ inner ++ fence) j = hash_line_at text (s + j).
Proof.
  intros Hs Hj. set (blk := fence ++ inner ++ fence) in *.
  unfold hash_line_at.
  assert (Hsk : skipn (s + j) text = skipn j blk ++ rest).
  { replace (s + j) with (j + s) by lia.
    rewrite <- skipn_skipn, Hs, skipn_app.
    replace (j - length blk) with 0 by lia. reflexivity. }
  assert (Hlast : exists Y, blk = Y ++ [backtick]).
  { exists (fence ++ inner ++ [backtick; backtick]). subst blk.
    rewrite <- !app_assoc. reflexivity. }
  destruct Hlast as (Y & HY).
  assert (Hcut : skipn j blk = skipn j Y ++ [backtick]).
  { rewrite HY, skipn_app.
    rewrite HY, length_app in Hj. cbn [length] in Hj.
    replace (j - length Y) with 0 by lia. reflexivity. }
  rewrite Hsk, Hcut, hash_start_cut.
  destruct j as [|j].
  - assert (H0 : skipn 0 Y ++ [backtick] = blk) by (rewrite HY; reflexivity).
    rewrite H0. subst blk. cbn. rewrite !andb_false_r. reflexivity.
  - f_equal. unfold at_bol. rewrite Nat.add_succ_r.
    rewrite <- (nth_error_skipn s), Hs, nth_error_app1 by lia. reflexivity.
Qed.

(** The pass puts [##] in front of every line that begins with [# ]
    inside a match of the code-block pattern, and changes nothing
    else. *)
Lemma neutralize_insert (content : str) :
  neutralize_code_block_headers content
  = insert_from (demoted content) 0 content.
Proof.
  unfold neutralize_code_block_headers, re_sub.
  rewrite (sub_pieces_insert _ (demoted content)); [reflexivity | | |].
  - intros m Hin.
    assert (Hblock : in_block content (m_start m) = true
                     /\ forall j, j < m_end m - m_start m ->
                          in_block content (m_start m + j) = true).
    { assert (Hb := finditer_from_chained _ content code_block_ok
                      (S (length content)) 0).
      destruct (chained_In _ _ _ _ Hb Hin) as (_ & Hlt & _).
      split; [|intros j Hj]; apply in_block_In; exists m;
        (split; [exact Hin | lia]). }
    apply (finditer_from_sound _ _ code_block_ok) in Hin.
    destruct Hin as [Hm _]. apply code_block_Some in Hm.
    destruct Hm as (inner & rest & Hs & Hm).
    assert (He : m_end m = m_start m + length (fence ++ inner ++ fence))
      by (rewrite Hm; reflexivity).
    assert (Hsl : slice content (m_start m) (m_end m)
                  = fence ++ inner ++ fence).
    { rewrite He. unfold slice.
      replace (m_start m + length (fence ++ inner ++ fence) - m_start m)
        with (length (fence ++ inner ++ fence) + 0) by lia.
      rewrite Hs, firstn_app_2. cbn [firstn]. apply app_nil_r. }
    rewrite Hsl, replace_headers_in_block_insert.
    apply insert_from_ext. intros j Hj. unfold demoted.
    rewrite <- (hash_line_at_block _ _ _ _ _ Hs Hj).
    destruct Hblock as [_ Hblock]. rewrite Hblock.
    + rewrite andb_true_r. reflexivity.
    + lia.
  - apply finditer_from_chained, code_block_ok.
  - intros p Hp Hmark. unfold demoted in Hmark.
    apply andb_true_iff in Hmark. destruct Hmark as [_ Hb].
    apply in_block_In. exact Hb.
Qed.

(** ** Strategy B: no boundary inside a match of the code-block pattern *)

Lemma firstn_S_nth_error (t : str) (q : nat) (c : char) :
  nth_error t q = Some c -> firstn (S q) t = firstn q t ++ [c].
Proof.
  revert q. induction t as [|d t IH]; intros q H.
  - destruct q; discriminate.
  - destruct q as [|q]; cbn in H.
    + injection H as ->. reflexivity.
    + cbn [firstn app]. f_equal. apply IH. exact H.
Qed.

Lemma line_of_mono (t : str) (q q' : nat) :
  q <= q' -> line_of t q <= line_of t q'.
Proof.
  intros Hle. unfold line_of.
  rewrite <- (firstn_skipn q (firstn q' t)), firstn_firstn, count_nl_app.
  replace (Nat.min q q') with q by lia. lia.
Qed.

Lemma line_of_after_nl (t : str) (q : nat) :
  nth_error t q = Some nl -> line_of t (S q) = S (line_of t q).
Proof.
  intros H. unfold line_of. rewrite (firstn_S_nth_error _ _ _ H).
  rewrite count_nl_app. cbn. lia.
Qed.

(** A line has one start: two line starts on the same line are equal. *)
Lemma line_start_unique (t : str) (q1 q2 : nat) :
  at_bol t q1 = true -> at_bol t q2 = true ->
  line_of t q1 = line_of t q2 -> q1 = q2.
Proof.
  assert (Hlt : forall a b, a < b -> at_bol t b = true ->
                            line_of t a < line_of t b).
  { intros a b Hab Hb. apply at_bol_spec in Hb.
    destruct Hb as [-> | (b' & -> & Hnl)]; [lia|].
    rewrite (line_of_after_nl _ _ Hnl).
    assert (H := line_of_mono t a b'). lia. }
  intros H1 H2 Heq.
  destruct (Nat.lt_trichotomy q1 q2) as [H | [H | H]]; [|exact H|].
  - specialize (Hlt _ _ H H2). lia.
  - specialize (Hlt _ _ H H1). lia.
Qed.

Lemma insert_from_last (marked : nat -> bool) (pos : nat) (a : str)
    (c : char) :
  exists X, insert_from marked pos (a ++ [c]) = X ++ [c].
Proof.
  rewrite insert_from_app. cbn [insert_from].
  exists (insert_from marked pos a
          ++ (if marked (pos + length a) then [hash; hash] else [])).
  rewrite <- !app_assoc. reflexivity.
Qed.

(** The line of the rewritten text that stands for a line of the input
    starting with [#] inside a code block does not match the header
    pattern; [q] is the position of that line in the rewritten text. *)
Lemma block_hash_line_image (T : str) (p : nat) :
  at_bol T p = true ->
  nth_error T p = Some hash ->
  in_block T p = true ->
  exists q,
    at_bol (neutralize_code_block_headers T) q = true
    /\ line_of (neutralize_code_block_headers T) q = line_of T p
    /\ PAGE_PATTERN_HEADER_ONLY (neutralize_code_block_headers T) q = None.
Proof.
  intros Hbol Hhash Hblock. rewrite neutralize_insert.
  set (mk := demoted T).
  assert (Hp : p < length T) by (apply nth_error_Some; congruence).
  assert (HT : T = firstn p T ++ skipn p T) by (symmetry; apply firstn_skipn).
  assert (HlenA : length (firstn p T) = p) by (rewrite length_firstn; lia).
  assert (HN : insert_from mk 0 T
               = insert_from mk 0 (firstn p T) ++ insert_from mk p (skipn p T)).
  { rewrite HT at 1. rewrite insert_from_app, HlenA. reflexivity. }
  set (NA := insert_from mk 0 (firstn p T)) in *.
  set (NB := insert_from mk p (skipn p T)) in *.
  exists (length NA). rewrite HN. split; [|split].
  - apply at_bol_spec. apply at_bol_spec in Hbol.
    destruct Hbol as [-> | (p' & -> & Hnl)].
    + left. reflexivity.
    + right. subst NA. rewrite (firstn_S_nth_error _ _ _ Hnl).
      destruct (insert_from_last mk 0 (firstn p' T) nl) as (X & ->).
      exists (length X). split.
      * rewrite length_app. cbn [length]. lia.
      * rewrite <- app_assoc, nth_error_app2, Nat.sub_diag by lia.
        reflexivity.
  - unfold line_of.
    replace (length NA) with (length NA + 0) by lia.
    rewrite firstn_app_2. cbn [firstn]. rewrite app_nil_r.
    subst NA. apply count_nl_insert_from.
  - unfold PAGE_PATTERN_HEADER_ONLY, match_body_at.
    destruct (negb true || at_bol (NA ++ NB) (length NA)); [|reflexivity].
    rewrite skipn_app, skipn_all, Nat.sub_diag. cbn [skipn app].
    assert (Hsk : exists B', skipn p T = hash :: B').
    { destruct (skipn p T) as [|c B'] eqn:E.
      - apply (f_equal (@length char)) in E. rewrite length_skipn in E.
        cbn in E. lia.
      - assert (Hn : nth_error (skipn p T) 0 = Some hash)
          by (rewrite nth_error_skipn, Nat.add_0_r; exact Hhash).
        rewrite E in Hn. injection Hn as ->. exists B'. reflexivity. }
    destruct Hsk as (B' & Hsk).
    assert (Hnb : header_only_body NB = None).
    { unfold header_only_body, header_body. subst NB. rewrite Hsk.
      cbn [insert_from]. destruct (mk p) eqn:Emk.
      - reflexivity.
      - cbn [app]. destruct B' as [|d B''].
        + reflexivity.
        + cbn [insert_from].
          assert (Hmk1 : mk (S p) = false).
          { subst mk. unfold demoted.
            rewrite (hash_line_at_after_hash _ _ _ Hsk). reflexivity. }
          rewrite Hmk1. cbn [app].
          assert (Hd : d <> space).
          { intros ->. subst mk. unfold demoted, hash_line_at in Emk.
            rewrite Hbol, Hblock, Hsk in Emk. cbn in Emk. discriminate. }
          cbn [lit]. rewrite N.eqb_refl.
          destruct (N.eqb_spec space d); [congruence | reflexivity]. }
    rewrite Hnb. reflexivity.
Qed.

(** No boundary of Strategy B is on a line that starts with [#] inside
    a match of the code-block pattern. *)
Lemma no_boundary_in_block (T : str) (p : nat) (m : re_match) :
  at_bol T p = true ->
  nth_error T p = Some hash ->
  in_block T p = true ->
  In m (boundaries HeaderOnly T) ->
  line_of (scanned_text HeaderOnly T) (m_start m) <> line_of T p.
Proof.
  intros Hbol Hhash Hblock Hin Hline.
  destruct (block_hash_line_image T p Hbol Hhash Hblock)
    as (q & Hq & Hlq & Hnone).
  apply boundaries_sound in Hin. cbn [boundary_pattern scanned_text] in *.
  destruct (match_body_at_Some _ _ _ _ _ header_only_body_ok Hin)
    as (Hmb & _).
  assert (m_start m = q).
  { apply (line_start_unique (neutralize_code_block_headers T));
      [apply Hmb; reflexivity | exact Hq | congruence]. }
  congruence.
Qed.

(** ** Fences and code blocks *)

Lemma fence_body_ok : body_ok fence_body.
Proof.
  intros s gs rest. unfold fence_body.
  destruct (lit fence s) as [r|] eqn:E; [|discriminate].
  intros [= <- <-]. apply lit_Some in E.
  exists fence. split; [discriminate | exact E].
Qed.

Lemma fence_ok : pattern_ok FENCE.
Proof. apply match_body_at_ok, fence_body_ok. Qed.

Lemma fence_at (T : str) (q : nat) :
  FENCE T q =
  match lit fence (skipn q T) with
  | Some rest =>
      Some {| m_start := q; m_end := length T - length rest; m_groups := [] |}
  | None => None
  end.
Proof.
  unfold FENCE, match_body_at, fence_body. cbn [negb orb].
  destruct (lit fence (skipn q T)); reflexivity.
Qed.

Lemma code_block_at (T : str) (q : nat) :
  CODE_BLOCK T q =
  match lit fence (skipn q T) with
  | Some s1 =>
      match lazy_until_fence s1 with
      | Some rest =>
          Some {| m_start := q; m_end := length T - length rest;
                  m_groups := [] |}
      | None => None
      end
  | None => None
  end.
Proof.
  unfold CODE_BLOCK, match_body_at, code_block_body. cbn [negb orb].
  destruct (lit fence (skipn q T)) as [s1|]; [|reflexivity].
  destruct (lazy_until_fence s1); reflexivity.
Qed.

Lemma skipn_cons_S (T : str) (q : nat) (c : char) (s' : str) :
  skipn q T = c :: s' -> skipn (S q) T = s'.
Proof.
  intros H. change (S q) with (1 + q). rewrite <- skipn_skipn, H. reflexivity.
Qed.

Lemma lit_fence_skipn (T : str) (q : nat) (s1 : str) :
  lit fence (skipn q T) = Some s1 ->
  s1 = skipn (q + 3) T /\ length T - length s1 = q + 3
  /\ q + 3 <= length T.
Proof.
  intros H. apply lit_Some in H.
  assert (Hl := f_equal (@length char) H).
  rewrite length_skipn, length_app in Hl. cbn [fence length] in Hl.
  split; [|lia].
  replace (q + 3) with (3 + q) by lia. rewrite <- skipn_skipn, H. reflexivity.
Qed.

(** The lazy search for the closing fence stops at the next fence of
    the scan. *)
Lemma lazy_fence_scan (T s : str) (q : nat) :
  s = skipn q T ->
  match lazy_until_fence s with
  | None => finditer_from FENCE T (S (length T)) q = []
  | Some rest =>
      exists f2,
        finditer_from FENCE T (S (length T)) q
        = f2 :: finditer_from FENCE T (S (length T)) (m_end f2)
        /\ m_end f2 = length T - length rest /\ q < m_end f2
  end.
Proof.
  revert q. induction s as [|c s' IH]; intros q Hs.
  - assert (Hq : length T <= q).
    { assert (Hl := f_equal (@length char) Hs).
      rewrite length_skipn in Hl. cbn in Hl. lia. }
    cbn [lazy_until_fence lit fence].
    destruct (Nat.eq_dec q (length T)) as [->|Hne].
    + rewrite (finditer_from_step _ _ fence_ok) by lia.
      rewrite fence_at, <- Hs. cbn [lit fence].
      apply finditer_from_past. lia.
    + apply finditer_from_past. lia.
  - assert (Hq : q < length T).
    { assert (Hl := f_equal (@length char) Hs).
      rewrite length_skipn in Hl. cbn in Hl. lia. }
    cbn [lazy_until_fence].
    destruct (lit fence (c :: s')) as [rest|] eqn:E.
    + rewrite Hs in E.
      exists {| m_start := q; m_end := length T - length rest;
                m_groups := [] |}.
      rewrite (finditer_from_step _ _ fence_ok) by lia.
      rewrite fence_at, E. cbn [m_end]. repeat split.
      apply lit_fence_skipn in E. lia.
    + specialize (IH (S q) (eq_sym (skipn_cons_S _ _ _ _ (eq_sym Hs)))).
      rewrite (finditer_from_step _ _ fence_ok) by lia.
      rewrite fence_at, <- Hs, E.
      destruct (lazy_until_fence s') as [rest|].
      * destruct IH as (f2 & H1 & H2 & H3). exists f2.
        split; [exact H1 | split; [exact H2 | lia]].
      * exact IH.
Qed.

(** The code blocks are the fences taken two by two. *)
Lemma blocks_pair_up_from (T : str) (n q : nat) :
  S (length T) - q <= n ->
  finditer_from CODE_BLOCK T (S (length T)) q
  = pair_up (finditer_from FENCE T (S (length T)) q).
Proof.
  revert q. induction n as [|n IH]; intros q Hn.
  - rewrite !finditer_from_past by lia. reflexivity.
  - destruct (Nat.lt_ge_cases (length T) q) as [Hgt|Hle].
    { rewrite !finditer_from_past by lia. reflexivity. }
    rewrite (finditer_from_step _ _ code_block_ok) by lia.
    rewrite (finditer_from_step _ _ fence_ok) by lia.
    rewrite code_block_at, fence_at.
    destruct (lit fence (skipn q T)) as [s1|] eqn:E; [|apply IH; lia].
    destruct (lit_fence_skipn _ _ _ E) as (Hs1 & He1 & Hq3).
    cbn [m_end]. rewrite He1.
    assert (Hscan := lazy_fence_scan T s1 (q + 3) Hs1).
    destruct (lazy_until_fence s1) as [rest|].
    + destruct Hscan as (f2 & Hf2 & He2 & Hlt).
      rewrite Hf2. cbn [pair_up m_start m_end]. rewrite <- He2.
      f_equal. apply IH. lia.
    + rewrite Hscan. cbn [pair_up]. rewrite IH by lia.
      destruct (finditer_from FENCE T (S (length T)) (S q))
        as [|f' rest'] eqn:Ef; [reflexivity|].
      assert (Hin : In f' (finditer_from FENCE T (S (length T)) (S q)))
        by (rewrite Ef; left; reflexivity).
      destruct (finditer_from_sound _ _ fence_ok _ _ _ Hin) as [Hm Hge].
      destruct (fence_ok _ _ _ Hm) as [_ Hend].
      assert (Hend' : m_end f' = m_start f' + 3).
      { rewrite fence_at in Hm.
        destruct (lit fence (skipn (m_start f') T)) as [r|] eqn:Er;
          [|discriminate].
        apply lit_fence_skipn in Er. injection Hm as Hm.
        apply (f_equal m_end) in Hm. cbn [m_end] in Hm. lia. }
      assert (Hf : length T < S (length T) + S q) by lia.
      rewrite (finditer_from_tail _ _ fence_ok _ _ _ _ Hf Ef).
      rewrite (finditer_from_nil_later _ _ fence_ok _ (q + 3) (m_end f'))
        by (try exact Hscan; lia).
      reflexivity.
Qed.

Lemma blocks_pair_up (T : str) :
  finditer CODE_BLOCK T = pair_up (fences T).
Proof. apply (blocks_pair_up_from T (S (length T)) 0). lia. Qed.

Lemma list_pair_ind {A} (P : list A -> Prop) :
  P [] -> (forall x, P [x]) ->
  (forall x y l, P l -> P (x :: y :: l)) ->
  forall l, P l.
Proof.
  intros H0 H1 H2 l.
  assert (H : P l /\ forall x, P (x :: l)).
  { induction l as [|y l [IHl IHx]]; split; auto. }
  apply H.
Qed.

Lemma filter_none {A} (f : A -> bool) (l : list A) :
  (forall x, In x l -> f x = false) -> filter f l = [].
Proof.
  induction l as [|x l IH]; intros H; [reflexivity|].
  cbn [filter]. rewrite (H x) by (left; reflexivity).
  apply IH. intros y Hy. apply H. right. exact Hy.
Qed.

(** ** Fence lines and the runs of three backticks *)

(** Where a run of three backticks starts, three backticks stand. *)
Lemma backticks_at_chars (T : str) (p : nat) :
  backticks_at T p = true ->
  p + 3 <= length T
  /\ forall j, j < 3 -> nth_error T (p + j) = Some backtick.
Proof.
  unfold backticks_at. intros H.
  destruct (lit fence (skipn p T)) as [rest|] eqn:E; [|discriminate].
  destruct (lit_fence_skipn _ _ _ E) as (_ & _ & Hle).
  split; [exact Hle|]. intros j Hj.
  apply lit_Some in E.
  rewrite <- nth_error_skipn, E.
  destruct j as [|[|[|j]]]; try reflexivity; lia.
Qed.

Lemma backticks_at_fence (T : str) (p : nat) :
  backticks_at T p =
  match FENCE T p with
  | Some _ => true
  | None => false
  end.
Proof.
  unfold backticks_at. rewrite fence_at.
  destruct (lit fence (skipn p T)); reflexivity.
Qed.

Lemma backticks_start_lines_spec (T : str) (p : nat) :
  backticks_start_lines T = true ->
  backticks_at T p = true -> at_bol T p = true.
Proof.
  unfold backticks_start_lines. intros H Hb.
  rewrite forallb_forall in H.
  destruct (backticks_at_chars T p Hb) as (Hle & _).
  specialize (H p). rewrite Hb in H. apply H.
  apply in_seq. lia.
Qed.

(** Runs that start lines do not overlap: none starts inside another. *)
Lemma backticks_apart (T : str) (p j : nat) :
  backticks_start_lines T = true ->
  backticks_at T p = true ->
  0 < j < 3 ->
  backticks_at T (p + j) = false.
Proof.
  intros H Hb Hj.
  destruct (backticks_at T (p + j)) eqn:E; [|reflexivity].
  apply (backticks_start_lines_spec T _ H) in E.
  apply at_bol_spec in E.
  destruct E as [E | (q & Hq & Hnl)]; [lia|].
  destruct (backticks_at_chars T p Hb) as (_ & Hc).
  assert (Hq' : q = p + (j - 1)) by lia.
  rewrite Hq', Hc in Hnl by lia. discriminate.
Qed.

(** When every run of three backticks starts a line, the fence lines
    are the places where such a run starts. *)
Lemma fence_line_backticks (T : str) (p : nat) :
  backticks_start_lines T = true ->
  fence_line_at T p = backticks_at T p.
Proof.
  intros H. unfold fence_line_at.
  destruct (backticks_at T p) eqn:Hb.
  - rewrite (backticks_start_lines_spec T p H Hb). cbn [andb].
    assert (H1 := backticks_apart T p 1 H Hb ltac:(lia)).
    unfold backticks_at in Hb, H1.
    destruct (lit fence (skipn p T)) as [rest|] eqn:E; [|discriminate].
    destruct rest as [|c rest]; [reflexivity|].
    destruct (N.eqb_spec c backtick) as [->|Hne]; [|reflexivity].
    exfalso. apply lit_Some in E.
    replace (p + 1) with (1 + p) in H1 by lia.
    rewrite <- skipn_skipn, E in H1. cbn in H1. discriminate.
  - unfold backticks_at in Hb.
    destruct (lit fence (skipn p T)); [discriminate|].
    apply andb_false_r.
Qed.

Lemma seq_three (q k : nat) :
  seq q (3 + k) = q :: (q + 1) :: (q + 2) :: seq (q + 3) k.
Proof.
  cbn [seq Nat.add].
  replace (q + 1) with (S q) by lia.
  replace (q + 2) with (S (S q)) by lia.
  replace (q + 3) with (S (S (S q))) by lia.
  reflexivity.
Qed.

(** The scan for [```] finds every run when the runs start lines. *)
Lemma fences_starts_from (T : str) (n q : nat) :
  backticks_start_lines T = true ->
  S (length T) - q <= n ->
  map m_start (finditer_from FENCE T (S (length T)) q)
  = filter (backticks_at T) (seq q (length T - q)).
Proof.
  intros H. revert q. induction n as [|n IH]; intros q Hn.
  - rewrite finditer_from_past by lia.
    replace (length T - q) with 0 by lia. reflexivity.
  - destruct (Nat.lt_ge_cases (length T) q) as [Hgt|Hle].
    { rewrite finditer_from_past by lia.
      replace (length T - q) with 0 by lia. reflexivity. }
    rewrite (finditer_from_step _ _ fence_ok) by lia.
    destruct (backticks_at T q) eqn:Hb.
    + destruct (backticks_at_chars T q Hb) as (Hq3 & _).
      assert (H1 := backticks_apart T q 1 H Hb ltac:(lia)).
      assert (H2 := backticks_apart T q 2 H Hb ltac:(lia)).
      rewrite backticks_at_fence in Hb. rewrite fence_at in *.
      destruct (lit fence (skipn q T)) as [rest|] eqn:E; [|discriminate].
      destruct (lit_fence_skipn _ _ _ E) as (_ & He & _).
      cbn [m_end map m_start]. rewrite He.
      replace (length T - q) with (3 + (length T - (q + 3))) by lia.
      rewrite seq_three. cbn [filter].
      unfold backticks_at at 1. rewrite E. rewrite H1, H2.
      f_equal. apply IH. lia.
    + assert (Hf : FENCE T q = None).
      { rewrite backticks_at_fence in Hb.
        destruct (FENCE T q); [discriminate | reflexivity]. }
      rewrite Hf.
      destruct (Nat.eq_dec q (length T)) as [->|Hne].
      * rewrite finditer_from_past by lia.
        rewrite Nat.sub_diag. reflexivity.
      * replace (length T - q) with (S (length T - S q)) by lia.
        cbn [seq filter]. rewrite Hb. apply IH. lia.
Qed.

Lemma fence_lines_starts (T : str) :
  backticks_start_lines T = true ->
  map m_start (fences T) = fence_lines T.
Proof.
  intros H. unfold fences, finditer, fence_lines.
  rewrite (fences_starts_from T (S (length T)) 0 H) by lia.
  rewrite Nat.sub_0_r. apply filter_ext.
  intros p. symmetry. apply fence_line_backticks. exact H.
Qed.

(** The characters of a match of [```] are backticks. *)
Lemma fence_token (T : str) (f : re_match) (p : nat) :
  In f (fences T) ->
  m_start f <= p < m_end f ->
  nth_error T p = Some backtick.
Proof.
  intros Hin Hp.
  apply (finditer_from_sound _ _ fence_ok) in Hin. destruct Hin as [Hm _].
  rewrite fence_at in Hm.
  destruct (lit fence (skipn (m_start f) T)) as [rest|] eqn:E;
    [|discriminate].
  destruct (lit_fence_skipn _ _ _ E) as (_ & He & _).
  assert (Hend : m_end f = m_start f + 3).
  { injection Hm as Hm. apply (f_equal m_end) in Hm. cbn [m_end] in Hm. lia. }
  assert (Hb : backticks_at T (m_start f) = true)
    by (unfold backticks_at; rewrite E; reflexivity).
  destruct (backticks_at_chars T _ Hb) as (_ & Hc).
  replace p with (m_start f + (p - m_start f)) by lia.
  apply Hc. lia.
Qed.

(** A position outside the matches of [```] lies in one of the pairs
    exactly when an odd number of matches start before it and one
    starts after it. *)
Lemma pair_up_parity (len p : nat) (fs : list re_match) :
  forall pos,
    chained len pos fs ->
    (forall f, In f fs -> ~ m_start f <= p < m_end f) ->
    existsb (fun m => (m_start m <=? p) && (p <? m_end m)) (pair_up fs)
    = Nat.odd (length (filter (fun q => q <? p) (map m_start fs)))
      && existsb (fun q => p <? q) (map m_start fs).
Proof.
  induction fs as [| f | f1 f2 rest IH] using list_pair_ind;
    intros pos Hch Hout.
  - reflexivity.
  - cbn [pair_up existsb map filter].
    destruct (Nat.ltb_spec (m_start f) p) as [H1|H1]; cbn [length].
    + destruct (Nat.ltb_spec p (m_start f)); [lia | reflexivity].
    + reflexivity.
  - destruct Hch as (Hp1 & Hse1 & Hel1 & Hp2 & Hse2 & Hel2 & Hch).
    assert (Ho1 := Hout f1 ltac:(left; reflexivity)).
    assert (Ho2 := Hout f2 ltac:(right; left; reflexivity)).
    assert (Hrest : forall f, In f rest -> m_end f2 <= m_start f).
    { intros f Hin. destruct (chained_In _ _ _ _ Hch Hin). lia. }
    specialize (IH (m_end f2) Hch
                  (fun f Hin => Hout f (or_intror (or_intror Hin)))).
    cbn [pair_up existsb map filter m_start m_end].
    destruct (Nat.lt_ge_cases p (m_start f1)) as [Ha|Ha].
    + (* before the first of the pair *)
      assert (Hnone : filter (fun q => q <? p) (map m_start rest) = []).
      { apply filter_none. intros q Hq. apply in_map_iff in Hq.
        destruct Hq as (f & <- & Hin). specialize (Hrest f Hin).
        apply Nat.ltb_ge. lia. }
      rewrite Hnone in IH. cbn [length Nat.odd andb] in IH. rewrite IH.
      destruct (Nat.leb_spec (m_start f1) p); [lia|].
      destruct (Nat.ltb_spec (m_start f1) p); [lia|].
      destruct (Nat.ltb_spec (m_start f2) p); [lia|].
      rewrite Hnone. reflexivity.
    + destruct (Nat.lt_ge_cases p (m_start f2)) as [Hb|Hb].
      * (* between the two *)
        assert (Hnone : filter (fun q => q <? p) (map m_start rest) = []).
        { apply filter_none. intros q Hq. apply in_map_iff in Hq.
          destruct Hq as (f & <- & Hin). specialize (Hrest f Hin).
          apply Nat.ltb_ge. lia. }
        destruct (Nat.leb_spec (m_start f1) p); [|lia].
        destruct (Nat.ltb_spec p (m_end f2)); [|lia].
        destruct (Nat.ltb_spec (m_start f1) p); [|lia].
        destruct (Nat.ltb_spec (m_start f2) p); [lia|].
        destruct (Nat.ltb_spec p (m_start f2)); [|lia].
        rewrite Hnone. cbn. rewrite orb_true_r. reflexivity.
      * (* after the pair *)
        destruct (Nat.ltb_spec p (m_end f2)); [lia|].
        destruct (Nat.ltb_spec (m_start f1) p); [|lia].
        destruct (Nat.ltb_spec (m_start f2) p); [|lia].
        destruct (Nat.ltb_spec p (m_start f1)); [lia|].
        destruct (Nat.ltb_spec p (m_start f2)); [lia|].
        rewrite andb_false_r. cbn [orb length].
        rewrite IH. reflexivity.
Qed.

(** When every run of three backticks starts a line, the matches of
    the code-block pattern are the fenced code blocks: a position that
    holds no backtick lies in a match exactly when it lies inside a
    fenced block. *)
Lemma in_block_inside_fence (T : str) (p : nat) (c : char) :
  backticks_start_lines T = true ->
  nth_error T p = Some c -> c <> backtick ->
  in_block T p = inside_fence T p.
Proof.
  intros H Hc Hne. unfold in_block, inside_fence.
  rewrite blocks_pair_up, <- (fence_lines_starts T H).
  apply (pair_up_parity (length T) p (fences T) 0).
  - apply finditer_from_chained, fence_ok.
  - intros f Hin Hp. rewrite (fence_token T f p Hin Hp) in Hc.
    congruence.
Qed.

Lemma hash_line_at_hash (T : str) (p : nat) :
  hash_line_at T p = true -> nth_error T p = Some hash.
Proof.
  unfold hash_line_at. intros H. apply andb_true_iff in H.
  destruct H as [_ H].
  destruct (lit [hash; space] (skipn p T)) as [rest|] eqn:E; [|discriminate].
  apply lit_Some in E.
  rewrite <- (Nat.add_0_r p), <- nth_error_skipn, E. reflexivity.
Qed.

(** The lines the pass rewrites are then the lines that begin with
    [# ] inside a fenced code block. *)
Lemma demoted_fenced_header (T : str) (p : nat) :
  backticks_start_lines T = true ->
  demoted T p = fenced_header T p.
Proof.
  intros H. unfold demoted, fenced_header.
  destruct (hash_line_at T p) eqn:Hh; [|reflexivity]. cbn [andb].
  apply (in_block_inside_fence T p hash H (hash_line_at_hash T p Hh)).
  discriminate.
Qed.

(** ** The code-block pass and the fenced blocks *)

(** C4 as the specification states it fails: the pass does not keep the
    character length of a text in which it rewrites a line. *)
Lemma neutralize_changes_length :
  length (neutralize_code_block_headers
            (py "```" ++ nl :: py "# x" ++ nl :: py "```"))
  <> length (py "```" ++ nl :: py "# x" ++ nl :: py "```").
Proof. vm_compute. discriminate. Qed.

(** C4, amended: for every input the code-block pass of Strategy B
    only puts [##] in front of lines that begin with [# ], so that they
    begin with [### ], and leaves every other character as it is; it
    keeps the number of lines, and the text grows by two characters for
    each rewritten line.  When every run of three backticks of the
    input starts a line, the rewritten lines are exactly the lines that
    begin with [# ] inside a fenced code block. *)
Theorem neutralize_rewrites_only_block_headers (content : str) :
  (exists rewritten : nat -> bool,
     (forall p, rewritten p = true -> hash_line_at content p = true)
     /\ (backticks_start_lines content = true ->
         forall p, rewritten p = fenced_header content p)
     /\ neutralize_code_block_headers content
        = insert_from rewritten 0 content
     /\ length (neutralize_code_block_headers content)
        = length content
          + 2 * count_marked rewritten 0 (length content))
  /\ count_nl (neutralize_code_block_headers content) = count_nl content.
Proof.
  rewrite neutralize_insert. split.
  - exists (demoted content). split; [|split; [|split]].
    + intros p Hp. unfold demoted in Hp.
      apply andb_true_iff in Hp. apply Hp.
    + intros H p. apply demoted_fenced_header. exact H.
    + reflexivity.
    + apply length_insert_from.
  - apply count_nl_insert_from.
Qed.

Lemma count_marked_ext (f g : nat -> bool) (pos n : nat) :
  (forall p, f p = g p) -> count_marked f pos n = count_marked g pos n.
Proof.
  intros H. unfold count_marked. f_equal. apply filter_ext. exact H.
Qed.

Lemma neutralize_rewrites_only_block_headers_witness :
  neutralize_code_block_headers block_pages_doc
  = insert_from (fenced_header block_pages_doc) 0 block_pages_doc
  /\ length (neutralize_code_block_headers block_pages_doc)
     = length block_pages_doc
       + 2 * count_marked (fenced_header block_pages_doc) 0
               (length block_pages_doc)
  /\ count_nl (neutralize_code_block_headers block_pages_doc)
     = count_nl block_pages_doc.
Proof.
  destruct (neutralize_rewrites_only_block_headers block_pages_doc)
    as ((rewritten & _ & Hblock & Hins & Hlen) & Hnl).
  assert (Hrw : forall p, rewritten p = fenced_header block_pages_doc p)
    by (apply Hblock; vm_compute; reflexivity).
  split; [|split].
  - rewrite Hins. apply insert_from_ext. intros j _. apply Hrw.
  - rewrite Hlen. f_equal. f_equal. apply count_marked_ext. exact Hrw.
  - exact Hnl.
Defined.

Example neutralize_example :
  neutralize_code_block_headers
    (py "intro" ++ nl :: py "```" ++ nl :: py "# not a header" ++ nl ::
     py "#x" ++ nl :: py "```" ++ nl :: py "# Real Header" ++ [nl])
  = py "intro" ++ nl :: py "```" ++ nl :: py "### not a header" ++ nl ::
    py "#x" ++ nl :: py "```" ++ nl :: py "# Real Header" ++ [nl].
Proof. vm_compute. reflexivity. Qed.

(** ** Strategy B: a comment line in a fenced block that starts a page *)

(** C2 fails on the code.  In this text the prose of the second line
    mentions three backticks, and the fence lines at 20 and 28 enclose
    the line [# c] at 24.  The code-block pattern pairs the backticks
    of the prose with the opening fence line, so its only match ends
    there; the closing fence line finds no partner, the pass changes
    nothing, and [# c] is a boundary: the second page takes its title
    from it. *)
Theorem comment_in_fenced_block_starts_page :
  fence_lines inline_backticks_doc = [20; 28]
  /\ fences_well_formed inline_backticks_doc = true
  /\ slice inline_backticks_doc 24 27 = py "# c"
  /\ at_bol inline_backticks_doc 24 = true
  /\ inside_fence inline_backticks_doc 24 = true
  /\ map (fun m => (m_start m, m_end m))
         (finditer CODE_BLOCK inline_backticks_doc) = [(10, 23)]
  /\ neutralize_code_block_headers inline_backticks_doc
     = inline_backticks_doc
  /\ (exists m,
        In m (boundaries HeaderOnly inline_backticks_doc)
        /\ m_start m = 24
        /\ line_of (scanned_text HeaderOnly inline_backticks_doc) (m_start m)
           = line_of inline_backticks_doc 24)
  /\ map title (split_pages HeaderOnly inline_backticks_doc)
     = [py "Doc"; py "c"].
Proof.
  repeat (split; [vm_compute; reflexivity|]). split.
  - exists {| m_start := 24; m_end := 27; m_groups := [py "c"] |}.
    split; [|split; vm_compute; reflexivity].
    vm_compute. right. left. reflexivity.
  - vm_compute. reflexivity.
Qed.

(** The same with a block fenced by four backticks around a fenced
    block: the pattern pairs the first three backticks of the outer
    fence with the inner opening fence line, and the comment line of
    the inner block starts a page. *)
Example nested_fence_starts_page :
  fence_lines nested_fence_doc = [11; 23]
  /\ fences_well_formed nested_fence_doc = true
  /\ slice nested_fence_doc 15 22 = py "# inner"
  /\ inside_fence nested_fence_doc 15 = true
  /\ map (fun m => (m_start m, m_end m))
         (finditer CODE_BLOCK nested_fence_doc) = [(6, 14); (23, 30)]
  /\ map title (split_pages HeaderOnly nested_fence_doc)
     = [py "Doc"; py "inner"].
Proof. repeat split; vm_compute; reflexivity. Qed.

(** The same pairing, the other way round: two mentions of three
    backticks in prose, no fence line at all, and the header between
    them is rewritten and gives no page. *)
Example inline_backticks_demote_header :
  fence_lines
    (py "# Doc" ++ nl :: py "use ``` in prose" ++ nl ::
     py "# Real Header" ++ nl :: py "more ``` prose" ++ [nl]) = []
  /\ neutralize_code_block_headers
       (py "# Doc" ++ nl :: py "use ``` in prose" ++ nl ::
        py "# Real Header" ++ nl :: py "more ``` prose" ++ [nl])
     = py "# Doc" ++ nl :: py "use ``` in prose" ++ nl ::
       py "### Real Header" ++ nl :: py "more ``` prose" ++ [nl]
  /\ map title
       (split_pages HeaderOnly
          (py "# Doc" ++ nl :: py "use ``` in prose" ++ nl ::
           py "# Real Header" ++ nl :: py "more ``` prose" ++ [nl]))
     = [py "Doc"].
Proof. repeat split; vm_compute; reflexivity. Qed.

Example fenced_doc_pages :
  split_pages HeaderOnly fenced_doc
  = [ {| title := py "Real Header"; source_url := None;
         content := py "body"; content_length := 4 |} ].
Proof. vm_compute. reflexivity. Qed.

(** Without a closing fence line the fences are not well-formed, and
    the line after the fence does give a boundary. *)
Example unclosed_fence_boundary :
  fences_well_formed (py "```" ++ nl :: py "# c" ++ [nl]) = false
  /\ map title (split_pages HeaderOnly (py "```" ++ nl :: py "# c" ++ [nl]))
     = [py "c"].
Proof. vm_compute. repeat split. Qed.

(** ** Text before the first boundary, in the scanned text *)

Lemma boundary_pattern_shift (St : strategy) (text : str) (p q : nat) :
  p <= length text ->
  at_bol text p = true ->
  boundary_pattern St (skipn p text) q
  = option_map (shift_back p) (boundary_pattern St text (p + q)).
Proof. destruct St; apply match_body_at_shift. Qed.

Lemma url_of_shift_back (St : strategy) (p : nat) (m : re_match) :
  url_of_strategy St (shift_back p m) = url_of_strategy St m.
Proof. destruct St; reflexivity. Qed.

Lemma pages_of_scanned_cut (St : strategy) (scanned : str) (m0 : re_match)
    (ms : list re_match) :
  finditer (boundary_pattern St) scanned = m0 :: ms ->
  pages_of_scanned St (skipn (m_start m0) scanned) = pages_of_scanned St scanned.
Proof.
  intros Hb. unfold pages_of_scanned. rewrite !build_pages_rec.
  assert (Hok := boundary_pattern_ok St).
  assert (Hin : In m0 (finditer (boundary_pattern St) scanned))
    by (rewrite Hb; left; reflexivity).
  destruct (finditer_from_sound _ _ Hok _ _ _ Hin) as [Hm0 _].
  destruct (Hok _ _ _ Hm0) as [_ Hend].
  assert (Hbol : at_bol scanned (m_start m0) = true).
  { destruct St; cbn [boundary_pattern] in Hm0.
    - destruct (match_body_at_Some _ _ _ _ _ header_url_body_ok Hm0)
        as (H & _). apply H. reflexivity.
    - destruct (match_body_at_Some _ _ _ _ _ header_only_body_ok Hm0)
        as (H & _). apply H. reflexivity. }
  assert (Hscan : finditer (boundary_pattern St) (skipn (m_start m0) scanned)
                  = map (shift_back (m_start m0)) (m0 :: ms)).
  { unfold finditer.
    rewrite (finditer_from_shift _ scanned (m_start m0) Hok) by
      (try lia; intros q; apply boundary_pattern_shift; (lia || exact Hbol)).
    rewrite Nat.add_0_r, length_skipn. f_equal.
    rewrite (finditer_from_fuel _ _ _ (S (length scanned))) by lia.
    apply (finditer_from_skip _ _ Hok _ 0); [lia | exact Hb]. }
  rewrite Hscan, Hb.
  assert (Hlen : m_start m0 <= length scanned) by lia.
  apply (pages_rec_shift _ _ _ _ (url_of_shift_back St (m_start m0))
           Hlen (m_start m0) (Nat.le_refl _)).
  assert (Hch := finditer_from_chained _ scanned Hok (S (length scanned)) 0).
  fold (finditer (boundary_pattern St) scanned) in Hch. rewrite Hb in Hch.
  destruct Hch as (_ & H2 & H3 & H4). repeat split; auto.
Qed.

(** ** Text before the first boundary, in the input of Strategy B *)

(** A line start of the input and its place in the rewritten text. *)
Lemma insert_line_image (mk : nat -> bool) (T : str) (q : nat) :
  q <= length T ->
  at_bol T q = true ->
  at_bol (insert_from mk 0 T) (length (insert_from mk 0 (firstn q T))) = true
  /\ line_of (insert_from mk 0 T) (length (insert_from mk 0 (firstn q T)))
     = line_of T q
  /\ skipn (length (insert_from mk 0 (firstn q T))) (insert_from mk 0 T)
     = insert_from mk q (skipn q T).
Proof.
  intros Hq Hbol.
  assert (HlenA : length (firstn q T) = q) by (rewrite length_firstn; lia).
  assert (HN : insert_from mk 0 T
               = insert_from mk 0 (firstn q T) ++ insert_from mk q (skipn q T)).
  { rewrite <- (firstn_skipn q T) at 1.
    rewrite insert_from_app, HlenA. reflexivity. }
  rewrite HN at 1 2 3.
  set (NA := insert_from mk 0 (firstn q T)).
  set (NB := insert_from mk q (skipn q T)).
  split; [|split].
  - apply at_bol_spec. apply at_bol_spec in Hbol.
    destruct Hbol as [-> | (q' & -> & Hnl)].
    + left. reflexivity.
    + right. subst NA. rewrite (firstn_S_nth_error _ _ _ Hnl).
      destruct (insert_from_last mk 0 (firstn q' T) nl) as (X & ->).
      exists (length X). split.
      * rewrite length_app. cbn [length]. lia.
      * rewrite <- app_assoc, nth_error_app2, Nat.sub_diag by lia.
        reflexivity.
  - unfold line_of.
    replace (length NA) with (length NA + 0) by lia.
    rewrite firstn_app_2. cbn [firstn]. rewrite app_nil_r.
    subst NA. apply count_nl_insert_from.
  - rewrite skipn_app, skipn_all, Nat.sub_diag. reflexivity.
Qed.

Lemma count_nl_no_nl (a : str) : ~ In nl a -> count_nl a = 0.
Proof.
  intros H. unfold count_nl. rewrite filter_none; [reflexivity|].
  intros c Hc. apply N.eqb_neq. intros ->. contradiction.
Qed.

Lemma line_of_le (T : str) (q : nat) : line_of T q <= count_nl T.
Proof.
  unfold line_of. rewrite <- (firstn_skipn q T) at 2.
  rewrite count_nl_app. lia.
Qed.

(** Every line of a text has a start. *)
Lemma line_start_exists (T : str) (k : nat) :
  k <= count_nl T ->
  exists q, q <= length T /\ at_bol T q = true /\ line_of T q = k.
Proof.
  induction k as [|k IH]; intros Hk.
  - exists 0. repeat split. lia.
  - destruct IH as (q & Hq & Hbol & Hline); [lia|].
    destruct (span_line (skipn q T)) as [a rest] eqn:E.
    apply span_line_spec in E. destruct E as (Hs & Ha & Heol).
    assert (Hcount : count_nl T = k + count_nl (skipn q T)).
    { rewrite <- (firstn_skipn q T) at 1. rewrite count_nl_app.
      unfold line_of in Hline. lia. }
    destruct rest as [|c rest].
    { rewrite Hs, app_nil_r, (count_nl_no_nl _ Ha) in Hcount. lia. }
    cbn in Heol. subst c.
    assert (Hl := f_equal (@length char) Hs).
    rewrite length_skipn, length_app in Hl. cbn [length] in Hl.
    assert (Hnl : nth_error T (q + length a) = Some nl).
    { rewrite <- nth_error_skipn, Hs, nth_error_app2, Nat.sub_diag by lia.
      reflexivity. }
    exists (S (q + length a)). split; [lia|]. split.
    + apply at_bol_spec. right. exists (q + length a). auto.
    + rewrite (line_of_after_nl _ _ Hnl). f_equal.
      unfold line_of in *.
      assert (Hf : firstn (q + length a) T = firstn q T ++ a).
      { assert (HlenA : length (firstn q T) = q)
          by (rewrite length_firstn; lia).
        remember (firstn q T) as A eqn:HA.
        assert (HT : T = (A ++ a) ++ nl :: rest).
        { rewrite <- app_assoc, <- Hs, HA. symmetry. apply firstn_skipn. }
        rewrite HT.
        replace (q + length a) with (length (A ++ a) + 0)
          by (rewrite length_app; lia).
        rewrite firstn_app_2. cbn [firstn]. apply app_nil_r. }
      rewrite Hf, count_nl_app, (count_nl_no_nl _ Ha). lia.
Qed.

(** A boundary of Strategy B stands on a line of the input that starts
    outside every code block. *)
Lemma boundary_preimage (T : str) (m : re_match) :
  In m (boundaries HeaderOnly T) ->
  exists q0,
    q0 <= length T
    /\ at_bol T q0 = true
    /\ line_of T q0 = line_of (neutralize_code_block_headers T) (m_start m)
    /\ length (insert_from (demoted T) 0 (firstn q0 T)) = m_start m
    /\ in_block T q0 = false.
Proof.
  intros Hin. apply boundaries_sound in Hin.
  cbn [boundary_pattern scanned_text] in Hin.
  destruct (match_body_at_Some _ _ _ _ _ header_only_body_ok Hin)
    as (Hbol & gs & rest & matched & Hbody & _).
  specialize (Hbol eq_refl).
  rewrite neutralize_insert in *. set (mk := demoted T) in *.
  destruct (line_start_exists T (line_of (insert_from mk 0 T) (m_start m)))
    as (q0 & Hq0 & Hbol0 & Hline0).
  { rewrite <- (count_nl_insert_from mk 0 T). apply line_of_le. }
  destruct (insert_line_image mk T q0 Hq0 Hbol0) as (Hb' & Hl' & Hsk').
  assert (Hpos : length (insert_from mk 0 (firstn q0 T)) = m_start m).
  { apply (line_start_unique (insert_from mk 0 T)); [exact Hb' | exact Hbol|].
    congruence. }
  rewrite Hpos in Hsk'. rewrite Hsk' in Hbody.
  exists q0. repeat split; auto.
  unfold header_only_body in Hbody.
  destruct (header_body (insert_from mk q0 (skipn q0 T)))
    as [[g1 r]|] eqn:Eh; [|discriminate].
  apply header_body_spec in Eh. destruct Eh as (Hs & _).
  destruct (skipn q0 T) as [|c B] eqn:Esk; [discriminate|].
  cbn [insert_from] in Hs.
  destruct (mk q0) eqn:Emk; [cbn [app] in Hs; discriminate|].
  cbn [app] in Hs. injection Hs as -> Hs.
  destruct B as [|d B']; [discriminate|].
  cbn [insert_from] in Hs.
  assert (Hmk1 : mk (S q0) = false).
  { subst mk. unfold demoted.
    rewrite (hash_line_at_after_hash _ _ _ Esk). reflexivity. }
  rewrite Hmk1 in Hs. cbn [app] in Hs. injection Hs as -> _.
  subst mk. unfold demoted, hash_line_at in Emk.
  rewrite Hbol0, Esk in Emk. cbn in Emk. exact Emk.
Qed.

(** A scan is the matches that end before a position outside every
    match, followed by the scan from that position. *)
Lemma finditer_from_split_at (pattern : str -> nat -> option re_match)
    (text : str) (fuel q : nat) :
  pattern_ok pattern ->
  forall n pos,
    q - pos <= n -> pos <= q ->
    length text < fuel + pos ->
    (forall m, In m (finditer_from pattern text fuel pos) ->
               ~ (m_start m < q < m_end m)) ->
    exists pre,
      finditer_from pattern text fuel pos
      = pre ++ finditer_from pattern text fuel q
      /\ forall m, In m pre -> m_end m <= q.
Proof.
  intros Hok. induction n as [|n IH]; intros pos Hn Hpos Hf Hout.
  - replace pos with q by lia. exists []. split; [reflexivity|].
    intros m [].
  - destruct (Nat.eq_dec pos q) as [->|Hne].
    { exists []. split; [reflexivity|]. intros m []. }
    destruct (Nat.lt_ge_cases (length text) pos) as [Hgt|Hle].
    { exists []. rewrite !finditer_from_past by lia.
      split; [reflexivity|]. intros m []. }
    rewrite (finditer_from_step _ _ Hok) in * by lia.
    destruct (pattern text pos) as [m0|] eqn:E.
    + destruct (Hok _ _ _ E) as [Hs He].
      assert (Hend : m_end m0 <= q).
      { specialize (Hout m0 (or_introl eq_refl)). lia. }
      destruct (IH (m_end m0)) as (pre & Hpre & Hall); try lia.
      { intros m Hm. apply Hout. right. exact Hm. }
      exists (m0 :: pre). split.
      * cbn [app]. f_equal. exact Hpre.
      * intros m [<- | Hm]; [exact Hend | exact (Hall m Hm)].
    + destruct (IH (S pos)) as (pre & Hpre & Hall); try lia.
      { exact Hout. }
      exists pre. auto.
Qed.

Lemma match_body_at_shift_free (body : str -> option (list str * str))
    (text : str) (p q : nat) :
  p <= length text ->
  match_body_at false body (skipn p text) q =
  option_map (shift_back p) (match_body_at false body text (p + q)).
Proof.
  intros Hp. unfold match_body_at. cbn [negb orb].
  rewrite skipn_skipn. replace (q + p) with (p + q) by lia.
  destruct (body (skipn (p + q) text)) as [[gs rest]|]; [|reflexivity].
  cbn [option_map]. unfold shift_back. cbn [m_start m_end m_groups].
  rewrite length_skipn. do 2 f_equal; lia.
Qed.

Lemma bool_eq_iff (a b : bool) : (a = true <-> b = true) -> a = b.
Proof. destruct a, b; intros [H1 H2]; auto; symmetry; auto. Qed.

(** Cutting the input at a position outside every code block leaves
    the code blocks after it where they are. *)
Lemma in_block_skipn (T : str) (q0 j : nat) :
  q0 <= length T ->
  in_block T q0 = false ->
  in_block (skipn q0 T) j = in_block T (q0 + j).
Proof.
  intros Hq0 Hout.
  assert (Hcut : finditer CODE_BLOCK (skipn q0 T)
                 = map (shift_back q0)
                     (finditer_from CODE_BLOCK T (S (length T)) q0)).
  { unfold finditer.
    rewrite (finditer_from_shift _ T q0 code_block_ok Hq0)
      by (intros q; apply match_body_at_shift_free; exact Hq0).
    rewrite Nat.add_0_r, length_skipn. f_equal.
    apply finditer_from_fuel; lia. }
  destruct (finditer_from_split_at CODE_BLOCK T (S (length T)) q0
              code_block_ok q0 0) as (pre & Hpre & Hall); try lia.
  { intros m Hm Hov. apply not_true_iff_false in Hout. apply Hout.
    apply in_block_In. exists m. split; [exact Hm | lia]. }
  apply bool_eq_iff. rewrite !in_block_In. rewrite Hcut.
  unfold finditer. rewrite Hpre. split.
  - intros (m' & Hin & Hb). apply in_map_iff in Hin.
    destruct Hin as (m & <- & Hin). exists m. split.
    + apply in_or_app. right. exact Hin.
    + destruct (finditer_from_sound _ _ code_block_ok _ _ _ Hin) as [_ Hge].
      cbn [shift_back m_start m_end] in Hb. lia.
  - intros (m & Hin & Hb). apply in_app_or in Hin.
    destruct Hin as [Hin | Hin].
    + specialize (Hall m Hin). lia.
    + exists (shift_back q0 m). split; [apply in_map; exact Hin|].
      destruct (finditer_from_sound _ _ code_block_ok _ _ _ Hin) as [_ Hge].
      cbn [shift_back m_start m_end]. lia.
Qed.

Lemma demoted_skipn (T : str) (q0 j : nat) :
  q0 <= length T ->
  at_bol T q0 = true ->
  in_block T q0 = false ->
  demoted (skipn q0 T) j = demoted T (q0 + j).
Proof.
  intros Hq0 Hbol Hout. unfold demoted, hash_line_at.
  rewrite in_block_skipn, at_bol_skipn, skipn_skipn by assumption.
  replace (j + q0) with (q0 + j) by lia. reflexivity.
Qed.

(** Under Strategy B the pages of the input are the pages of the input
    cut at the start of the line of its first boundary. *)
Lemma header_pages_cut (T : str) (m0 : re_match) (ms : list re_match) :
  boundaries HeaderOnly T = m0 :: ms ->
  exists q0,
    q0 <= length T
    /\ at_bol T q0 = true
    /\ line_of T q0 = line_of (scanned_text HeaderOnly T) (m_start m0)
    /\ split_pages HeaderOnly (skipn q0 T) = split_pages HeaderOnly T.
Proof.
  intros Hb.
  destruct (boundary_preimage T m0) as (q0 & Hq0 & Hbol & Hline & Hpos & Hout).
  { rewrite Hb. left. reflexivity. }
  exists q0. repeat split; auto.
  rewrite !split_pages_scanned. cbn [scanned_text].
  rewrite <- (pages_of_scanned_cut HeaderOnly
                (neutralize_code_block_headers T) m0 ms Hb).
  f_equal. rewrite !neutralize_insert.
  destruct (insert_line_image (demoted T) T q0 Hq0 Hbol) as (_ & _ & Hsk).
  rewrite <- Hpos, Hsk.
  apply insert_from_ext. intros j _. cbn [Nat.add].
  apply demoted_skipn; assumption.
Qed.

(** C10: when the strategy finds a boundary, the pages returned are the
    pages of the input cut at the start of the line of its first
    boundary, and the pages of the scanned text cut at the start of
    that first boundary match: the characters before it take no part in
    any title, source_url or content, and only text from the first
    boundary on is covered by the pages. *)
Theorem text_before_first_boundary_discarded (St : strategy) (T : str)
    (m0 : re_match) (ms : list re_match) :
  boundaries St T = m0 :: ms ->
  pages_of_scanned St (skipn (m_start m0) (scanned_text St T))
  = split_pages St T
  /\ exists q0,
       q0 <= length T
       /\ at_bol T q0 = true
       /\ line_of T q0 = line_of (scanned_text St T) (m_start m0)
       /\ split_pages St (skipn q0 T) = split_pages St T.
Proof.
  intros Hb. split.
  - rewrite split_pages_scanned. apply (pages_of_scanned_cut St _ m0 ms Hb).
  - destruct St.
    + cbn [scanned_text] in *. exists (m_start m0).
      assert (Hin : In m0 (boundaries WithUrl T))
        by (rewrite Hb; left; reflexivity).
      apply boundaries_sound in Hin. cbn [boundary_pattern scanned_text] in Hin.
      destruct (with_url_ok _ _ _ Hin) as [_ Hend].
      destruct (match_body_at_Some _ _ _ _ _ header_url_body_ok Hin)
        as (Hbol & _).
      split; [lia|]. split; [apply Hbol; reflexivity|]. split; [reflexivity|].
      rewrite !split_pages_scanned. cbn [scanned_text].
      apply (pages_of_scanned_cut WithUrl T m0 ms Hb).
    + apply (header_pages_cut T m0 ms Hb).
Qed.

Lemma text_before_first_boundary_discarded_witness :
  pages_of_scanned WithUrl (skipn 2 (scanned_text WithUrl preamble_doc))
  = split_pages WithUrl preamble_doc
  /\ exists q0,
       q0 <= length preamble_doc
       /\ at_bol preamble_doc q0 = true
       /\ line_of preamble_doc q0
          = line_of (scanned_text WithUrl preamble_doc) 2
       /\ split_pages WithUrl (skipn q0 preamble_doc)
          = split_pages WithUrl preamble_doc.
Proof.
  apply (text_before_first_boundary_discarded WithUrl preamble_doc
           {| m_start := 2; m_end := 22;
              m_groups := [py "A"; py "http://u"] |} []).
  vm_compute. reflexivity.
Defined.

Example header_only_cut_example :
  split_pages HeaderOnly
    (py "intro ```" ++ nl :: py "# c" ++ nl :: py "```" ++ nl ::
     py "# T" ++ nl :: py "```" ++ nl :: py "# d" ++ nl :: py "```")
  = split_pages HeaderOnly
      (py "# T" ++ nl :: py "```" ++ nl :: py "# d" ++ nl :: py "```")
  /\ map content
       (split_pages HeaderOnly
          (py "# T" ++ nl :: py "```" ++ nl :: py "# d" ++ nl :: py "```"))
     = [py "```" ++ nl :: py "### d" ++ nl :: py "```"].
Proof. vm_compute. split; reflexivity. Qed.

(** ** What [strip] leaves *)

Lemma lstrip_idem (s : str) : lstrip (lstrip s) = lstrip s.
Proof.
  induction s as [|c s IH]; [reflexivity|]. cbn [lstrip].
  destruct (isspace c) eqn:E; [exact IH|]. cbn [lstrip]. rewrite E.
  reflexivity.
Qed.

Lemma lstrip_head (s : str) : starts_unspaced (lstrip s).
Proof.
  induction s as [|c s IH]; [exact I|]. cbn [lstrip].
  destruct (isspace c) eqn:E; [exact IH | exact E].
Qed.

Lemma lstrip_fix (s : str) : starts_unspaced s -> lstrip s = s.
Proof.
  destruct s as [|c s]; [reflexivity|]. cbn [starts_unspaced lstrip].
  intros ->. reflexivity.
Qed.

Lemma rstrip_idem (s : str) : rstrip (rstrip s) = rstrip s.
Proof. unfold rstrip. rewrite rev_involutive, lstrip_idem. reflexivity. Qed.

Lemma rstrip_head (s : str) : starts_unspaced s -> starts_unspaced (rstrip s).
Proof.
  intros H. destruct (rstrip_split s) as (trail & Hs & _).
  destruct (rstrip s) as [|c r]; [exact I|].
  rewrite Hs in H. exact H.
Qed.

Lemma strip_idem (s : str) : strip (strip s) = strip s.
Proof.
  unfold strip.
  rewrite (lstrip_fix (rstrip (lstrip s))).
  - apply rstrip_idem.
  - apply rstrip_head, lstrip_head.
Qed.

Lemma In_strip (c : char) (s : str) : In c (strip s) -> In c s.
Proof.
  intros H. destruct (strip_split s) as (lead & trail & Hs & _).
  rewrite Hs. apply in_or_app. right. apply in_or_app. left. exact H.
Qed.

Lemma lstrip_app_keep (x : str) (c : char) (y : str) :
  isspace c = false -> lstrip (x ++ c :: y) = lstrip x ++ c :: y.
Proof.
  intros Hc. induction x as [|d x IH]; cbn [lstrip app].
  - rewrite Hc. reflexivity.
  - destruct (isspace d); [exact IH | reflexivity].
Qed.

Lemma rstrip_app_keep (a : str) (c : char) (b : str) :
  isspace c = false -> rstrip (a ++ c :: b) = a ++ c :: rstrip b.
Proof.
  intros Hc. unfold rstrip.
  rewrite rev_app_distr. cbn [rev]. rewrite <- app_assoc. cbn [app].
  rewrite lstrip_app_keep by exact Hc.
  rewrite rev_app_distr. cbn [rev]. rewrite rev_involutive.
  rewrite <- app_assoc. reflexivity.
Qed.

(** ** Pages and the boundaries they come from *)

Lemma split_pages_In (St : strategy) (T : str) (pg : page) :
  In pg (split_pages St T) ->
  exists i m,
    nth_error (boundaries St T) i = Some m
    /\ nth_error (split_pages St T) i = Some pg
    /\ title pg = strip (group m 1)
    /\ source_url pg = url_of_strategy St m
    /\ content pg =
         strip (slice (scanned_text St T) (m_end m)
                  (body_end (boundaries St T)
                     (length (scanned_text St T)) i)).
Proof.
  intros Hin. apply In_nth_error in Hin. destruct Hin as (i & Hi).
  assert (Hlt : i < length (boundaries St T)).
  { rewrite split_pages_build in Hi.
    rewrite <- (length_build_pages
                  (match St with
                   | WithUrl => fun m => Some (strip (group m 2))
                   | HeaderOnly => fun _ => None
                   end) (scanned_text St T)).
    apply nth_error_Some. rewrite Hi. discriminate. }
  destruct (nth_error (boundaries St T) i) as [m|] eqn:Em;
    [|apply nth_error_None in Em; lia].
  destruct (nth_error_build_pages (url_of_strategy St) (scanned_text St T)
              _ _ _ Em) as (pg' & Hpg' & Ht & Hu & Hc).
  assert (Hsame : nth_error (split_pages St T) i = Some pg').
  { rewrite split_pages_build. destruct St; exact Hpg'. }
  assert (pg' = pg) by congruence. subst pg'.
  exists i, m. repeat split; assumption.
Qed.

Lemma boundary_header_line (St : strategy) (T : str) (m : re_match) :
  In m (boundaries St T) ->
  at_bol (scanned_text St T) (m_start m) = true
  /\ exists rest,
       skipn (m_start m) (scanned_text St T)
       = hash :: space :: group m 1 ++ rest
       /\ group m 1 <> [] /\ ~ In nl (group m 1) /\ at_eol rest
       /\ (St = WithUrl ->
           exists rest',
             rest = nl :: py "Source: " ++ group m 2 ++ rest'
             /\ at_eol rest'
             /\ m_end m = m_start m + 2 + length (group m 1) + 9
                          + length (group m 2)
             /\ exists scheme u,
                  group m 2 = scheme ++ u
                  /\ (scheme = py "http://" \/ scheme = py "https://")
                  /\ u <> [] /\ ~ In nl u)
       /\ (St = HeaderOnly ->
           m_end m = m_start m + 2 + length (group m 1)).
Proof.
  intros Hin. unfold boundaries, finditer in Hin.
  destruct (finditer_from_sound _ _ (boundary_pattern_ok St) _ _ _ Hin)
    as [Hm _].
  destruct St; cbn [boundary_pattern] in Hm.
  - destruct (match_body_at_Some _ _ _ _ _ header_url_body_ok Hm)
      as (Hbol & gs & rest & matched & Hb & Hs & Hne & Heq).
    apply header_url_body_spec in Hb.
    destruct Hb as (g1 & g2 & -> & Hsk & Hg1 & Hn1 & He & Hurl).
    assert (Hg : m_groups m = [g1; g2]) by (rewrite Heq; reflexivity).
    assert (H1 : group m 1 = g1) by (unfold group; rewrite Hg; reflexivity).
    assert (H2 : group m 2 = g2) by (unfold group; rewrite Hg; reflexivity).
    assert (Hmatched : matched = hash :: space :: g1 ++ nl :: py "Source: " ++ g2).
    { rewrite Hs in Hsk.
      assert (Hsk' : matched ++ rest
                     = (hash :: space :: g1 ++ nl :: py "Source: " ++ g2) ++ rest).
      { rewrite Hsk. simpl. rewrite <- app_assoc. reflexivity. }
      apply app_inv_tail in Hsk'. exact Hsk'. }
    assert (Hend : m_end m = m_start m + length matched)
      by (rewrite Heq; reflexivity).
    split; [apply Hbol; reflexivity|].
    rewrite H1, H2. eexists. split; [exact Hsk|].
    split; [exact Hg1|]. split; [exact Hn1|]. split; [reflexivity|].
    split; [|intros [=]].
    intros _. exists rest. split; [reflexivity|]. split; [exact He|].
    split; [|exact Hurl].
    rewrite Hend, Hmatched. cbn [length]. rewrite length_app. cbn [length].
    rewrite length_app. simpl. lia.
  - destruct (match_body_at_Some _ _ _ _ _ header_only_body_ok Hm)
      as (Hbol & gs & rest & matched & Hb & Hs & Hne & Heq).
    unfold header_only_body in Hb.
    destruct (header_body (skipn (m_start m) (scanned_text HeaderOnly T)))
      as [[g1 r]|] eqn:Eh; [|discriminate].
    injection Hb as <- <-.
    apply header_body_spec in Eh. destruct Eh as (Hsk & Hg1 & Hn1 & He).
    assert (Hg : m_groups m = [g1]) by (rewrite Heq; reflexivity).
    assert (H1 : group m 1 = g1) by (unfold group; rewrite Hg; reflexivity).
    assert (Hmatched : matched = hash :: space :: g1).
    { rewrite Hs in Hsk.
      change (hash :: space :: g1 ++ r) with ((hash :: space :: g1) ++ r) in Hsk.
      apply app_inv_tail in Hsk. exact Hsk. }
    assert (Hend : m_end m = m_start m + length matched)
      by (rewrite Heq; reflexivity).
    split; [apply Hbol; reflexivity|].
    rewrite H1. exists r. split; [exact Hsk|].
    split; [exact Hg1|]. split; [exact Hn1|]. split; [exact He|].
    split; [intros [=]|].
    intros _. rewrite Hend, Hmatched. cbn [length]. lia.
Qed.

Lemma chained_nth_order (len pos : nat) (ms : list re_match) (i j : nat)
    (mi mj : re_match) :
  chained len pos ms -> i < j ->
  nth_error ms i = Some mi -> nth_error ms j = Some mj ->
  m_start mi < m_end mi /\ m_end mi <= m_start mj.
Proof.
  revert pos i j. induction ms as [|m ms IH]; intros pos i j Hch Hij Hi Hj.
  - destruct i; discriminate.
  - destruct Hch as (H1 & H2 & H3 & Hch).
    destruct j as [|j]; [lia|]. cbn [nth_error] in Hj.
    destruct i as [|i].
    + injection Hi as <-. apply nth_error_In in Hj.
      destruct (chained_In _ _ _ _ Hch Hj). lia.
    + cbn [nth_error] in Hi. apply (IH (m_end m) i j); auto. lia.
Qed.

Lemma boundaries_chained (St : strategy) (T : str) :
  chained (length (scanned_text St T)) 0 (boundaries St T).
Proof. apply finditer_from_chained, boundary_pattern_ok. Qed.

Lemma line_from_header (text : str) (pos : nat) (g rest : str) :
  skipn pos text = hash :: space :: g ++ rest ->
  ~ In nl g -> at_eol rest ->
  line_from text pos = hash :: space :: g.
Proof.
  intros Hs Hn He. unfold line_from. rewrite Hs.
  change (hash :: space :: g ++ rest) with ((hash :: space :: g) ++ rest).
  rewrite span_line_app; [reflexivity| |exact He].
  intros [H|[H|H]]; [discriminate H | discriminate H | auto].
Qed.

(** X1: the splitter returns one page per boundary, in the order of the
    text: boundaries are not empty and do not overlap, and the title
    of the [i]-th page is the trimmed text after [# ] on the line at
    which the [i]-th boundary starts. *)
Theorem pages_follow_boundaries (St : strategy) (T : str) :
  length (split_pages St T) = length (boundaries St T)
  /\ (forall i j mi mj,
        i < j ->
        nth_error (boundaries St T) i = Some mi ->
        nth_error (boundaries St T) j = Some mj ->
        m_start mi < m_end mi /\ m_end mi <= m_start mj)
  /\ (forall i m,
        nth_error (boundaries St T) i = Some m ->
        exists pg,
          nth_error (split_pages St T) i = Some pg
          /\ at_bol (scanned_text St T) (m_start m) = true
          /\ firstn 2 (line_from (scanned_text St T) (m_start m)) = py "# "
          /\ title pg
             = strip (skipn 2 (line_from (scanned_text St T) (m_start m)))).
Proof.
  split; [|split].
  - rewrite split_pages_build. apply length_build_pages.
  - intros i j mi mj Hij Hi Hj.
    exact (chained_nth_order _ _ _ _ _ _ _ (boundaries_chained St T) Hij Hi Hj).
  - intros i m Hm.
    destruct (nth_error_build_pages (url_of_strategy St) (scanned_text St T)
                _ _ _ Hm) as (pg & Hpg & Ht & _).
    exists pg. split.
    { rewrite split_pages_build. destruct St; exact Hpg. }
    destruct (boundary_header_line St T m (nth_error_In _ _ Hm))
      as (Hbol & rest & Hsk & _ & Hn & He & _).
    rewrite (line_from_header _ _ _ _ Hsk Hn He).
    split; [exact Hbol|]. split; [reflexivity|]. exact Ht.
Qed.

(** X2: the title and the content of every page are trimmed: stripping
    them again changes nothing, and a title never spans a line
    break. *)
Theorem page_fields_are_trimmed (St : strategy) (T : str) :
  Forall (fun pg =>
            strip (title pg) = title pg
            /\ ~ In nl (title pg)
            /\ strip (content pg) = content pg)
         (split_pages St T).
Proof.
  apply Forall_forall. intros pg Hin.
  destruct (split_pages_In St T pg Hin) as (i & m & Hm & _ & Ht & _ & Hc).
  destruct (boundary_header_line St T m (nth_error_In _ _ Hm))
    as (_ & rest & _ & _ & Hn & _).
  rewrite Ht, Hc. split; [apply strip_idem|]. split; [|apply strip_idem].
  intros H. apply Hn. apply In_strip. exact H.
Qed.

Lemma strip_url (scheme u : str) :
  scheme = py "http://" \/ scheme = py "https://" ->
  strip (scheme ++ u) = scheme ++ rstrip u.
Proof.
  unfold strip. intros [-> | ->].
  - change (lstrip (py "http://" ++ u)) with (py "http:/" ++ slash :: u).
    apply rstrip_app_keep. reflexivity.
  - change (lstrip (py "https://" ++ u)) with (py "https:/" ++ slash :: u).
    apply rstrip_app_keep. reflexivity.
Qed.

Lemma In_rstrip (c : char) (s : str) : In c (rstrip s) -> In c s.
Proof.
  intros H. destruct (rstrip_split s) as (trail & Hs & _).
  rewrite Hs. apply in_or_app. left. exact H.
Qed.

(** X3: under Strategy B no page has a source URL; under Strategy A
    every page has one: the trimmed text after [Source: ] on the line
    below the header, which begins with [http://] or [https://], holds
    no line break and has no whitespace at its edges. *)
Theorem source_url_by_strategy (T : str) :
  Forall (fun pg => source_url pg = None) (split_pages HeaderOnly T)
  /\ Forall (fun pg =>
               exists u,
                 source_url pg = Some u
                 /\ (exists r, u = py "http://" ++ r \/ u = py "https://" ++ r)
                 /\ ~ In nl u
                 /\ strip u = u)
            (split_pages WithUrl T)
  /\ forall i m,
       nth_error (boundaries WithUrl T) i = Some m ->
       exists pg,
         nth_error (split_pages WithUrl T) i = Some pg
         /\ firstn 8
              (line_from T (S (m_start m + length (line_from T (m_start m)))))
            = py "Source: "
         /\ source_url pg
            = Some (strip (skipn 8
                (line_from T
                   (S (m_start m + length (line_from T (m_start m))))))).
Proof.
  split; [|split].
  - apply Forall_forall. intros pg Hin.
    destruct (split_pages_In HeaderOnly T pg Hin) as (i & m & _ & _ & _ & Hu & _).
    exact Hu.
  - apply Forall_forall. intros pg Hin.
    destruct (split_pages_In WithUrl T pg Hin) as (i & m & Hm & _ & _ & Hu & _).
    destruct (boundary_header_line WithUrl T m (nth_error_In _ _ Hm))
      as (_ & rest & _ & _ & _ & _ & Hurl & _).
    destruct (Hurl eq_refl) as (rest' & _ & _ & _ & scheme & u & Hg & Hsch & _ & Hn).
    cbn [url_of_strategy] in Hu.
    exists (strip (group m 2)). split; [exact Hu|].
    split; [|split; [|apply strip_idem]].
    + rewrite Hg, (strip_url _ _ Hsch). exists (rstrip u).
      destruct Hsch as [-> | ->]; [left | right]; reflexivity.
    + rewrite Hg, (strip_url _ _ Hsch). intros H.
      apply in_app_or in H. destruct H as [H|H].
      * destruct Hsch as [-> | ->]; vm_compute in H; intuition discriminate.
      * apply Hn, In_rstrip. exact H.
  - intros i m Hm.
    destruct (nth_error_build_pages (url_of_strategy WithUrl) T
                _ _ _ Hm) as (pg & Hpg & _ & Hu & _).
    exists pg. split; [exact Hpg|].
    destruct (boundary_header_line WithUrl T m (nth_error_In _ _ Hm))
      as (_ & rest & Hsk & _ & Hn & He & Hurl & _).
    destruct (Hurl eq_refl)
      as (rest' & -> & He' & _ & scheme & u & Hg & Hsch & Hune & Hnu).
    cbn [scanned_text] in Hsk.
    rewrite (line_from_header _ _ _ _ Hsk Hn He).
    assert (Hnext :
              skipn (S (m_start m + length (hash :: space :: group m 1))) T
              = py "Source: " ++ group m 2 ++ rest').
    { replace (S (m_start m + length (hash :: space :: group m 1)))
        with (S (length (hash :: space :: group m 1)) + m_start m) by lia.
      rewrite <- skipn_skipn, Hsk.
      change (hash :: space :: group m 1
              ++ nl :: py "Source: " ++ group m 2 ++ rest')
        with ((hash :: space :: group m 1)
              ++ nl :: py "Source: " ++ group m 2 ++ rest').
      apply skipn_app_sep. }
    assert (Hline :
              line_from T (S (m_start m + length (hash :: space :: group m 1)))
              = py "Source: " ++ group m 2).
    { unfold line_from. rewrite Hnext, app_assoc.
      rewrite span_line_app; [reflexivity| |exact He'].
      apply source_line_no_nl. exists scheme, u. auto. }
    rewrite Hline. split; [reflexivity|]. exact Hu.
Qed.

Lemma finditer_from_suffix (pattern : str -> nat -> option re_match)
    (text : str) (Hok : pattern_ok pattern) (fuel pos : nat)
    (pre : list re_match) (m : re_match) (rest : list re_match) :
  length text < fuel + pos ->
  finditer_from pattern text fuel pos = pre ++ m :: rest ->
  rest = finditer_from pattern text fuel (m_end m)
  /\ length text < fuel + m_end m.
Proof.
  revert pos. induction pre as [|a pre IH]; intros pos Hf Hfi.
  - assert (Hin : In m (finditer_from pattern text fuel pos))
      by (rewrite Hfi; left; reflexivity).
    destruct (finditer_from_sound _ _ Hok _ _ _ Hin) as [Hm Hge].
    apply Hok in Hm.
    split; [exact (finditer_from_tail _ _ Hok _ _ _ _ Hf Hfi) | lia].
  - cbn [app] in Hfi.
    assert (Hin : In a (finditer_from pattern text fuel pos))
      by (rewrite Hfi; left; reflexivity).
    destruct (finditer_from_sound _ _ Hok _ _ _ Hin) as [Ha Hge].
    apply Hok in Ha.
    apply (IH (m_end a)); [lia|].
    symmetry. exact (finditer_from_tail _ _ Hok _ _ _ _ Hf Hfi).
Qed.

(** X4: the body of a page holds no further boundary: between the end
    of a boundary and the start of the next one (or the end of the
    text) the boundary pattern matches nowhere. *)
Theorem page_body_has_no_boundary (St : strategy) (T : str) (i : nat)
    (m : re_match) (p : nat) :
  nth_error (boundaries St T) i = Some m ->
  m_end m <= p ->
  p < body_end (boundaries St T) (length (scanned_text St T)) i ->
  boundary_pattern St (scanned_text St T) p = None.
Proof.
  intros Hm Hp1 Hp2. unfold body_end in Hp2.
  destruct (nth_error_split _ _ Hm) as (l1 & l2 & Hb & Hl).
  assert (Hnext : nth_error (boundaries St T) (S i) = nth_error l2 0).
  { rewrite Hb. rewrite nth_error_app2 by lia.
    replace (S i - length l1) with 1 by lia. reflexivity. }
  rewrite Hnext in Hp2.
  unfold boundaries, finditer in Hb.
  assert (Hfuel : length (scanned_text St T)
                  < S (length (scanned_text St T)) + 0) by lia.
  destruct (finditer_from_suffix _ _ (boundary_pattern_ok St) _ _ _ _ _
              Hfuel Hb) as [Hl2 Hf].
  destruct l2 as [|m' l2]; cbn [nth_error] in Hp2.
  - apply (finditer_from_nil _ _ (boundary_pattern_ok St)
             (S (length (scanned_text St T))) (m_end m));
      [exact Hf | symmetry; exact Hl2 | exact Hp1].
  - apply (finditer_from_first _ _ (boundary_pattern_ok St)
             (S (length (scanned_text St T))) (m_end m) p m' l2);
      [symmetry; exact Hl2 | lia].
Qed.

Lemma page_body_has_no_boundary_witness :
  boundary_pattern WithUrl (scanned_text WithUrl preamble_doc) 23 = None.
Proof.
  apply (page_body_has_no_boundary WithUrl preamble_doc 0
           {| m_start := 2; m_end := 22;
              m_groups := [py "A"; py "http://u"] |} 23).
  - vm_compute. reflexivity.
  - simpl. lia.
  - vm_compute. lia.
Defined.

(** X5: a text with fewer than two fences has no code block, so the
    code-block pass returns it unchanged and Strategy B splits the
    text as it stands. *)
Theorem neutralize_without_block (T : str) :
  length (fences T) < 2 ->
  neutralize_code_block_headers T = T
  /\ split_with_header_pattern T = pages_of_scanned HeaderOnly T.
Proof.
  intros Hlen.
  assert (Hn : neutralize_code_block_headers T = T).
  { unfold neutralize_code_block_headers, re_sub. rewrite blocks_pair_up.
    destruct (fences T) as [|f1 [|f2 fs]]; [reflexivity | reflexivity|].
    simpl in Hlen. lia. }
  split; [exact Hn|].
  unfold split_with_header_pattern, pages_of_scanned.
  rewrite Hn. reflexivity.
Qed.

Lemma neutralize_without_block_witness :
  neutralize_code_block_headers
    (py "```" ++ nl :: py "# kept" ++ nl :: py "# Page" ++ [nl])
  = py "```" ++ nl :: py "# kept" ++ nl :: py "# Page" ++ [nl]
  /\ split_with_header_pattern
       (py "```" ++ nl :: py "# kept" ++ nl :: py "# Page" ++ [nl])
     = pages_of_scanned HeaderOnly
         (py "```" ++ nl :: py "# kept" ++ nl :: py "# Page" ++ [nl]).
Proof.
  apply (neutralize_without_block
           (py "```" ++ nl :: py "# kept" ++ nl :: py "# Page" ++ [nl])).
  vm_compute. lia.
Defined.

(** ** What [process_source] reports and writes *)

Lemma map_snd_page_files (isalnum : char -> bool) (pages : list page) :
  map snd (page_files isalnum pages) = map PageJson pages.
Proof.
  unfold page_files, enumerate. rewrite map_map.
  generalize 0. induction pages as [|p pages IH]; intros a; [reflexivity|].
  cbn [length seq combine map snd]. f_equal. apply IH.
Qed.

Lemma split_pages_content_length (St : strategy) (T : str) :
  map content_length (split_pages St T)
  = map (fun p => length (content p)) (split_pages St T).
Proof.
  apply map_ext_in. intros p Hin.
  pose proof (build_pages_content_length
                (match St with
                 | WithUrl => fun m => Some (strip (group m 2))
                 | HeaderOnly => fun _ => None
                 end) (scanned_text St T) (boundaries St T)) as H.
  rewrite <- split_pages_build in H. rewrite Forall_forall in H. auto.
Qed.

Lemma process_source_nonempty (isalnum : char -> bool)
    (RAW_DIR OUTPUT_DIR source_name text : str) (St : strategy) :
  split_pages St text <> [] ->
  process_source isalnum RAW_DIR OUTPUT_DIR source_name (Some text)
    (use_header_only St) =
  (Succeeded (length (split_pages St text))
     (fold_right Nat.add 0 (map content_length (split_pages St text)))
     (path_join OUTPUT_DIR source_name),
   map (fun nb : str * file_body =>
          (path_join (path_join OUTPUT_DIR source_name) (fst nb), snd nb))
       (page_files isalnum (split_pages St text))
   ++ [(path_join (path_join OUTPUT_DIR source_name) (py "manifest.json"),
        ManifestJson
          (build_manifest source_name
             (path_join (path_join RAW_DIR source_name) (py "llms-full.txt"))
             (use_header_only St) (split_pages St text)))]).
Proof.
  intros Hne. rewrite process_source_pages.
  destruct (split_pages St text) as [|p0 ps]; [congruence | reflexivity].
Qed.

(** X6: when [process_source] succeeds, the page count it reports is
    the number of boundaries found in the text and is not zero; it has
    written one file per page, in page order, and then the manifest,
    all in the directory of the source; and the manifest's total is
    the number of characters of all the page contents. *)
Theorem process_source_success_report (isalnum : char -> bool)
    (RAW_DIR OUTPUT_DIR source_name text : str) (St : strategy)
    (n total : nat) (dir : str) (files : list (str * file_body)) :
  process_source isalnum RAW_DIR OUTPUT_DIR source_name (Some text)
    (use_header_only St) = (Succeeded n total dir, files) ->
  n = length (boundaries St text)
  /\ 0 < n
  /\ dir = path_join OUTPUT_DIR source_name
  /\ total = fold_right Nat.add 0
               (map (fun p => length (content p))
                    (split_pages St text))
  /\ map snd files
     = map PageJson (split_pages St text)
       ++ [ManifestJson
             (build_manifest source_name
                (path_join (path_join RAW_DIR source_name)
                   (py "llms-full.txt"))
                (use_header_only St) (split_pages St text))]
  /\ Forall (fun f => exists name, fst f = path_join dir name) files.
Proof.
  intros H.
  assert (Hne : split_pages St text <> []).
  { intros E. rewrite process_source_pages, E in H. discriminate. }
  rewrite (process_source_nonempty isalnum RAW_DIR OUTPUT_DIR source_name
             text St Hne) in H.
  injection H as <- <- <- <-.
  split; [rewrite split_pages_build; apply length_build_pages|].
  split.
  { destruct (split_pages St text); [congruence | cbn [length]; lia]. }
  split; [reflexivity|]. split.
  { rewrite <- split_pages_content_length. reflexivity. }
  split.
  { rewrite map_app, map_map. cbn [snd map].
    rewrite <- (map_snd_page_files isalnum). reflexivity. }
  apply Forall_forall. intros f Hin. apply in_app_or in Hin.
  destruct Hin as [Hin | [<- | []]].
  - apply in_map_iff in Hin. destruct Hin as (nb & <- & _).
    exists (fst nb). reflexivity.
  - eexists. reflexivity.
Qed.

Lemma process_source_success_report_witness :
  2 = length (boundaries WithUrl
                (py "# A" ++ nl :: py "Source: http://u" ++ nl ::
                 py "# B" ++ nl :: py "Source: http://v" ++ nl :: py "b"))
  /\ 0 < 2.
Proof.
  pose proof (process_source_success_report (fun _ => false)
                (py "raw") (py "out") (py "Zep")
                (py "# A" ++ nl :: py "Source: http://u" ++ nl ::
                 py "# B" ++ nl :: py "Source: http://v" ++ nl :: py "b")
                WithUrl 2 1 (py "out/Zep") _ eq_refl) as H.
  split; apply H.
Defined.

(** ** Strategy A against the header lines *)

Lemma header_only_no_overlap (text : str) (p pos : nat) (m : re_match) :
  PAGE_PATTERN_HEADER_ONLY text p = Some m ->
  m_start m < pos < m_end m ->
  at_bol text pos = false.
Proof.
  intros Hm Hpos.
  destruct (match_body_at_Some _ _ _ _ _ header_only_body_ok Hm)
    as (_ & gs & rest & matched & Hbody & Hs & _ & ->).
  cbn [m_start m_end] in Hpos.
  unfold header_only_body in Hbody.
  destruct (header_body (skipn p text)) as [[g1 r]|] eqn:Eh; [|discriminate].
  injection Hbody as <- <-.
  apply header_body_spec in Eh. destruct Eh as (Hsk & _ & Hn & _).
  assert (Hmatched : matched = hash :: space :: g1).
  { rewrite Hs in Hsk.
    change (hash :: space :: g1 ++ r) with ((hash :: space :: g1) ++ r) in Hsk.
    apply app_inv_tail in Hsk. exact Hsk. }
  destruct (at_bol text pos) eqn:Hbol; [|reflexivity]. exfalso.
  apply at_bol_spec in Hbol. destruct Hbol as [-> | (q & -> & Hq)]; [lia|].
  assert (Hq' : nth_error matched (q - p) = Some nl).
  { rewrite <- (nth_error_app1 _ r) by lia.
    rewrite <- Hs, nth_error_skipn.
    replace (p + (q - p)) with q by lia. exact Hq. }
  apply nth_error_In in Hq'. rewrite Hmatched in Hq'.
  destruct Hq' as [H|[H|H]]; [discriminate H | discriminate H | auto].
Qed.

Lemma with_url_is_header (T : str) (p : nat) (m : re_match) :
  PAGE_PATTERN_WITH_URL T p = Some m ->
  exists m',
    PAGE_PATTERN_HEADER_ONLY T p = Some m'
    /\ m_start m' = m_start m /\ group m' 1 = group m 1
    /\ m_end m' <= m_end m.
Proof.
  intros Hm.
  destruct (match_body_at_Some _ _ _ _ _ header_url_body_ok Hm)
    as (Hbol & gs & rest & matched & Hbody & Hs & _ & ->).
  unfold PAGE_PATTERN_WITH_URL, match_body_at in Hm.
  unfold PAGE_PATTERN_HEADER_ONLY, match_body_at.
  rewrite (Hbol eq_refl). cbn [negb orb].
  unfold header_url_body in Hbody. unfold header_only_body.
  destruct (header_body (skipn p T)) as [[g1 r1]|] eqn:Eh; [|discriminate].
  destruct (lit (nl :: py "Source: ") r1) as [r2|] eqn:El; [|discriminate].
  destruct (url_body r2) as [[g2 r3]|] eqn:Eu; [|discriminate].
  injection Hbody as <- <-.
  eexists. split; [reflexivity|]. cbn [m_start m_end group m_groups pred nth].
  split; [reflexivity|]. split; [reflexivity|].
  apply header_body_spec in Eh. destruct Eh as (Hsk & _).
  apply lit_Some in El. apply url_body_spec in Eu. destruct Eu as (Hr2 & _).
  assert (Hl1 : length (skipn p T) = length (hash :: space :: g1 ++ r1))
    by (rewrite Hsk; reflexivity).
  assert (Hl2 : length (skipn p T) = length (matched ++ r3))
    by (rewrite Hs; reflexivity).
  assert (Hl3 : length r1 = length ((nl :: py "Source: ") ++ r2))
    by (rewrite El; reflexivity).
  assert (Hl4 : length r2 = length (g2 ++ r3))
    by (rewrite Hr2; reflexivity).
  rewrite length_skipn in Hl1, Hl2. cbn [length] in Hl1.
  rewrite length_app in Hl1, Hl2, Hl3, Hl4. lia.
Qed.

Lemma with_url_boundary_is_header (T : str) (m : re_match) :
  In m (boundaries WithUrl T) ->
  exists m',
    In m' (finditer PAGE_PATTERN_HEADER_ONLY T)
    /\ m_start m' = m_start m /\ group m' 1 = group m 1.
Proof.
  intros Hin.
  pose proof (boundaries_sound WithUrl T m Hin) as Hm.
  cbn [boundary_pattern scanned_text] in Hm.
  destruct (with_url_is_header _ _ _ Hm) as (m' & Hm' & Hs & Hg & _).
  exists m'. split; [|auto].
  destruct (finditer_from_complete _ T header_only_ok (S (length T)) 0
              (m_start m) m' ltac:(lia) ltac:(lia) Hm')
    as [Hin' | (m'' & Hin'' & Hr)]; [exact Hin'|].
  exfalso.
  destruct (finditer_from_sound _ _ header_only_ok _ _ _ Hin'') as [Hm'' _].
  pose proof (header_only_no_overlap _ _ _ _ Hm'' Hr) as Hb.
  destruct (match_body_at_Some _ _ _ _ _ header_url_body_ok Hm)
    as (Hbol & _). rewrite (Hbol eq_refl) in Hb. discriminate.
Qed.

Lemma chained_starts_NoDup (len pos : nat) (ms : list re_match) :
  chained len pos ms -> NoDup (map m_start ms).
Proof.
  intros Hch. apply NoDup_nth_error. intros i j Hi Heq.
  rewrite length_map in Hi. rewrite !nth_error_map in Heq.
  destruct (nth_error ms i) as [mi|] eqn:Ei;
    [|apply nth_error_None in Ei; lia].
  destruct (nth_error ms j) as [mj|] eqn:Ej; [|discriminate].
  cbn [option_map] in Heq. injection Heq as Heq.
  destruct (Nat.lt_trichotomy i j) as [Hlt | [-> | Hlt]]; [|reflexivity|].
  - pose proof (chained_nth_order _ _ _ _ _ _ _ Hch Hlt Ei Ej). lia.
  - pose proof (chained_nth_order _ _ _ _ _ _ _ Hch Hlt Ej Ei). lia.
Qed.

Lemma with_url_pages_le_headers (T : str) :
  length (split_pages WithUrl T)
  <= length (finditer PAGE_PATTERN_HEADER_ONLY T).
Proof.
  rewrite split_pages_build, length_build_pages.
  rewrite <- (length_map m_start (boundaries WithUrl T)).
  rewrite <- (length_map m_start (finditer PAGE_PATTERN_HEADER_ONLY T)).
  apply NoDup_incl_length.
  - exact (chained_starts_NoDup _ _ _ (boundaries_chained WithUrl T)).
  - intros s Hs. apply in_map_iff in Hs. destruct Hs as (m & <- & Hin).
    destruct (with_url_boundary_is_header T m Hin) as (m' & Hin' & Hs' & _).
    apply in_map_iff. exists m'. auto.
Qed.

(** X7: every boundary of Strategy A starts on a header line that the
    header-only pattern finds in the same text, with the same title;
    so Strategy A never returns more pages than the text has
    [# ] header lines. *)
Theorem with_url_boundaries_are_headers (T : str) :
  (forall m, In m (boundaries WithUrl T) ->
     exists m',
       In m' (finditer PAGE_PATTERN_HEADER_ONLY T)
       /\ m_start m' = m_start m /\ group m' 1 = group m 1)
  /\ length (split_pages WithUrl T)
     <= length (finditer PAGE_PATTERN_HEADER_ONLY T).
Proof.
  split; [apply with_url_boundary_is_header | apply with_url_pages_le_headers].
Qed.

(** ** The run over all the sources *)

Lemma str_eqb_eq (a b : str) : str_eqb a b = true <-> a = b.
Proof.
  unfold str_eqb. destruct (list_eq_dec N.eq_dec a b); split;
    congruence.
Qed.

Lemma dict_set_fresh {V} (d : list (str * V)) (k : str) (v : V) :
  ~ In k (map fst d) -> dict_set d k v = d ++ [(k, v)].
Proof.
  intros Hk. unfold dict_set.
  destruct (existsb (fun e => str_eqb (fst e) k) d) eqn:E; [|reflexivity].
  exfalso. apply existsb_exists in E. destruct E as (e & Hin & He).
  apply str_eqb_eq in He. apply Hk. rewrite <- He. apply in_map. exact Hin.
Qed.

Lemma sources_NoDup : NoDup (SOURCES_WITH_URL ++ SOURCES_HEADER_ONLY).
Proof.
  repeat (constructor; [vm_compute; intuition discriminate|]). constructor.
Qed.

Lemma sources_no_slash :
  Forall (fun s => ~ In slash s) (SOURCES_WITH_URL ++ SOURCES_HEADER_ONLY).
Proof. repeat constructor; vm_compute; intuition discriminate. Qed.

Section MainProperties.

Variable isalnum : char -> bool.
Variables RAW_DIR OUTPUT_DIR : str.
Variable read_raw : str -> option str.


Lemma process_sources_unfold (flag : bool) (sources : list str)
    (results0 : list (str * source_result)) (total0 : nat)
    (files0 : list (str * file_body)) :
  NoDup (map fst results0 ++ sources) ->
  process_sources isalnum RAW_DIR OUTPUT_DIR read_raw flag sources
    (results0, total0, files0)
  = (results0 ++ map (fun s => (s, fst (run_source isalnum RAW_DIR OUTPUT_DIR read_raw flag s))) sources,
     total0 + fold_right Nat.add 0
                (map (fun s => counted (fst (run_source isalnum RAW_DIR OUTPUT_DIR read_raw flag s))) sources),
     files0 ++ flat_map (fun s => snd (run_source isalnum RAW_DIR OUTPUT_DIR read_raw flag s)) sources).
Proof.
  unfold process_sources.
  revert results0 total0 files0.
  induction sources as [|s sources IH]; intros results0 total0 files0 Hnd.
  - cbn [fold_left map flat_map fold_right]. rewrite !app_nil_r.
    rewrite Nat.add_0_r. reflexivity.
  - cbn [fold_left].
    destruct (run_source isalnum RAW_DIR OUTPUT_DIR read_raw flag s) as [result files'] eqn:Er.
    rewrite dict_set_fresh.
    2:{ apply NoDup_remove_2 in Hnd. intros Hin. apply Hnd.
        apply in_or_app. left. exact Hin. }
    rewrite IH.
    2:{ rewrite map_app. cbn [map fst]. rewrite <- app_assoc. exact Hnd. }
    cbn [map flat_map fold_right]. rewrite Er. cbn [fst snd].
    rewrite <- !app_assoc. cbn [app]. f_equal. f_equal.
    unfold counted. destruct (is_success result); lia.
Qed.

Lemma process_source_counts (flag : bool) (source : str) :
  counted (fst (run_source isalnum RAW_DIR OUTPUT_DIR read_raw flag source))
  = length (filter (fun f => match snd f with PageJson _ => true
                                         | ManifestJson _ => false end)
              (snd (run_source isalnum RAW_DIR OUTPUT_DIR read_raw flag source)))
  /\ (if is_success (fst (run_source isalnum RAW_DIR OUTPUT_DIR read_raw flag source)) then 1 else 0)
     = length (filter (fun f => match snd f with PageJson _ => false
                                            | ManifestJson _ => true end)
                 (snd (run_source isalnum RAW_DIR OUTPUT_DIR read_raw flag source))).
Proof.
  unfold run_source, process_source.
  destruct (read_raw source) as [content|]; [|split; reflexivity].
  destruct (if flag then split_with_header_pattern content
            else split_with_url_pattern content) as [|p0 ps];
    [split; reflexivity|].
  cbn [fst snd]. unfold counted. cbn [is_success result_page_count].
  rewrite !filter_app, !length_app. cbn [filter snd length].
  assert (Hp : forall (P : file_body -> bool) (l : list (str * file_body))
                 (dir : str),
             filter (fun f => P (snd f))
               (map (fun nb : str * file_body =>
                       (path_join dir (fst nb), snd nb)) l)
             = map (fun nb : str * file_body =>
                      (path_join dir (fst nb), snd nb))
                 (filter (fun f => P (snd f)) l)).
  { intros P l dir. induction l as [|x l IHl]; [reflexivity|].
    cbn [map filter snd]. destruct (P (snd x)); cbn [map]; rewrite IHl;
      reflexivity. }
  rewrite (Hp (fun b => match b with PageJson _ => true
                                | ManifestJson _ => false end)).
  rewrite (Hp (fun b => match b with PageJson _ => false
                                | ManifestJson _ => true end)).
  rewrite !length_map.
  assert (Hall : forall l : list page,
             filter (fun f : str * file_body =>
                       match snd f with PageJson _ => true
                                   | ManifestJson _ => false end)
                    (page_files isalnum l) = page_files isalnum l
             /\ filter (fun f : str * file_body =>
                          match snd f with PageJson _ => false
                                      | ManifestJson _ => true end)
                       (page_files isalnum l) = []).
  { intros l. unfold page_files, enumerate. generalize 0.
    induction l as [|p l IHl]; intros a; [split; reflexivity|].
    cbn [length seq combine map filter snd].
    destruct (IHl (S a)) as [H1 H2]. rewrite H1, H2. split; reflexivity. }
  destruct (Hall (p0 :: ps)) as [H1 H2]. rewrite H1, H2.
  unfold page_files. rewrite length_map, length_enumerate.
  cbn [length]. split; lia.
Qed.

Lemma process_source_paths_NoDup (flag : bool) (source : str) :
  NoDup (map fst (snd (run_source isalnum RAW_DIR OUTPUT_DIR read_raw flag source))).
Proof.
  unfold run_source, process_source.
  destruct (read_raw source) as [content|]; [|constructor].
  destruct (if flag then split_with_header_pattern content
            else split_with_url_pattern content) as [|p0 ps];
    [constructor|].
  cbn [snd]. rewrite map_app, map_map. cbn [map fst].
  set (dir := path_join OUTPUT_DIR source).
  apply NoDup_app.
  - rewrite <- (map_map fst (path_join dir)).
    apply NoDup_map_inj; [apply path_join_inj | apply page_filenames_NoDup].
  - constructor; [intros [] | constructor].
  - intros path Hin [<- | []].
    apply in_map_iff in Hin. destruct Hin as ([name body] & Hpath & Hin).
    cbn [fst] in Hpath. apply path_join_inj in Hpath.
    unfold page_files in Hin. apply in_map_iff in Hin.
    destruct Hin as ([i p] & Hnb & _). injection Hnb as Hname _.
    rewrite <- Hname in Hpath. unfold page_filename in Hpath.
    destruct (format_04d_cons i) as (c & rest & Hf & Hc).
    rewrite Hf in Hpath. cbn in Hpath. injection Hpath as -> _. lia.
Qed.

Lemma process_source_paths_in_dir (flag : bool) (source path : str) :
  In path (map fst (snd (run_source isalnum RAW_DIR OUTPUT_DIR read_raw flag source))) ->
  exists name, path = OUTPUT_DIR ++ slash :: source ++ slash :: name.
Proof.
  unfold run_source, process_source.
  destruct (read_raw source) as [content|]; [|intros []].
  destruct (if flag then split_with_header_pattern content
            else split_with_url_pattern content) as [|p0 ps]; [intros []|].
  cbn [snd]. rewrite map_app, map_map. cbn [map fst].
  intros Hin. apply in_app_or in Hin.
  assert (Hj : forall name,
             path_join (path_join OUTPUT_DIR source) name
             = OUTPUT_DIR ++ slash :: source ++ slash :: name).
  { intros name. unfold path_join. rewrite <- app_assoc. reflexivity. }
  destruct Hin as [Hin | [<- | []]].
  - apply in_map_iff in Hin. destruct Hin as (nb & <- & _).
    exists (fst nb). apply Hj.
  - eexists. apply Hj.
Qed.


Lemma length_filter_flat_map {A B} (P : B -> bool) (f : A -> list B)
    (l : list A) :
  length (filter P (flat_map f l))
  = fold_right Nat.add 0 (map (fun a => length (filter P (f a))) l).
Proof.
  induction l as [|a l IH]; [reflexivity|].
  cbn [flat_map map fold_right]. rewrite filter_app, length_app, IH.
  reflexivity.
Qed.

Lemma length_filter_map_sum {A B} (P : B -> bool) (f : A -> B) (l : list A) :
  length (filter P (map f l))
  = fold_right Nat.add 0 (map (fun a => if P (f a) then 1 else 0) l).
Proof.
  induction l as [|a l IH]; [reflexivity|].
  cbn [map filter fold_right]. destruct (P (f a)); cbn [length]; rewrite IH;
    reflexivity.
Qed.

Lemma filter_source_files (P : file_body -> bool)
    (files : list (str * file_body)) :
  length (filter (fun f : str * written =>
                    match snd f with
                    | SourceFile b => P b
                    | OverallManifest _ => false
                    end)
            (map (fun nb : str * file_body => (fst nb, SourceFile (snd nb)))
                 files))
  = length (filter (fun f => P (snd f)) files).
Proof.
  induction files as [|x files IH]; [reflexivity|].
  cbn [map filter snd]. destruct (P (snd x)); cbn [length]; rewrite IH;
    reflexivity.
Qed.

Lemma main_unfold :
  main isalnum RAW_DIR OUTPUT_DIR read_raw =
  let results :=
    map (fun s => (s, fst (run_source isalnum RAW_DIR OUTPUT_DIR read_raw false s)))
        SOURCES_WITH_URL
    ++ map (fun s => (s, fst (run_source isalnum RAW_DIR OUTPUT_DIR read_raw true s)))
           SOURCES_HEADER_ONLY in
  let total :=
    fold_right Nat.add 0
      (map (fun s => counted (fst (run_source isalnum RAW_DIR OUTPUT_DIR read_raw false s)))
           SOURCES_WITH_URL)
    + fold_right Nat.add 0
        (map (fun s => counted (fst (run_source isalnum RAW_DIR OUTPUT_DIR read_raw true s)))
             SOURCES_HEADER_ONLY) in
  let files :=
    flat_map (fun s => snd (run_source isalnum RAW_DIR OUTPUT_DIR read_raw false s))
      SOURCES_WITH_URL
    ++ flat_map (fun s => snd (run_source isalnum RAW_DIR OUTPUT_DIR read_raw true s))
         SOURCES_HEADER_ONLY in
  let overall :=
    {| sources_processed := length (filter is_success (map snd results));
       total_pages := total;
       results := results |} in
  (overall,
   map (fun nb : str * file_body => (fst nb, SourceFile (snd nb))) files
   ++ [(path_join OUTPUT_DIR (py "manifest.json"), OverallManifest overall)]).
Proof.
  unfold main.
  rewrite (process_sources_unfold false SOURCES_WITH_URL [] 0 []).
  2:{ cbn [map app]. apply (NoDup_app_remove_r _ _ sources_NoDup). }
  cbn [app]. rewrite Nat.add_0_l.
  rewrite process_sources_unfold.
  2:{ rewrite map_map. cbn [fst]. rewrite map_id. apply sources_NoDup. }
  reflexivity.
Qed.

End MainProperties.

(** X8: the totals of the overall manifest agree with the files
    [main] writes: [total_pages] is the number of page files written
    and [sources_processed] the number of per-source manifests, and
    [results] has one entry per configured source, in the order they
    are processed. *)
Theorem main_totals_match_files (isalnum : char -> bool)
    (RAW_DIR OUTPUT_DIR : str) (read_raw : str -> option str) :
  let overall := fst (main isalnum RAW_DIR OUTPUT_DIR read_raw) in
  let files := snd (main isalnum RAW_DIR OUTPUT_DIR read_raw) in
  total_pages overall
  = length (filter (fun f => is_page_file (snd f)) files)
  /\ sources_processed overall
     = length (filter (fun f => is_source_manifest (snd f)) files)
  /\ map fst (results overall) = SOURCES_WITH_URL ++ SOURCES_HEADER_ONLY.
Proof.
  rewrite main_unfold. cbv zeta. cbn [fst snd total_pages sources_processed results].
  split; [|split].
  - rewrite filter_app, length_app. cbn [filter snd is_page_file length].
    rewrite Nat.add_0_r.
    rewrite (filter_source_files
               (fun b => match b with PageJson _ => true
                                 | ManifestJson _ => false end)).
    rewrite filter_app, length_app, !length_filter_flat_map.
    f_equal; f_equal; apply map_ext; intros s;
      apply process_source_counts.
  - rewrite filter_app, length_app. cbn [filter snd is_source_manifest length].
    rewrite Nat.add_0_r.
    rewrite (filter_source_files
               (fun b => match b with PageJson _ => false
                                 | ManifestJson _ => true end)).
    rewrite filter_app, length_app, !length_filter_flat_map.
    rewrite map_app, filter_app, length_app, !map_map. cbn [snd].
    rewrite !length_filter_map_sum.
    f_equal; f_equal; apply map_ext; intros s;
      apply process_source_counts.
  - rewrite map_app, !map_map. cbn [fst]. rewrite !map_id. reflexivity.
Qed.

Lemma source_dir_paths_apart (OUTPUT_DIR s1 s2 n1 n2 : str) :
  ~ In slash s1 -> ~ In slash s2 ->
  OUTPUT_DIR ++ slash :: s1 ++ slash :: n1
  = OUTPUT_DIR ++ slash :: s2 ++ slash :: n2 ->
  s1 = s2.
Proof.
  intros H1 H2 H. apply app_inv_head in H. injection H as H.
  exact (app_sep_inj slash s1 s2 n1 n2 H1 H2 H).
Qed.

Lemma jobs_paths_NoDup (isalnum : char -> bool) (RAW_DIR OUTPUT_DIR : str)
    (read_raw : str -> option str) (jobs : list (bool * str)) :
  NoDup (map snd jobs) ->
  Forall (fun s => ~ In slash s) (map snd jobs) ->
  NoDup (map fst
           (flat_map (fun j => snd (run_source isalnum RAW_DIR OUTPUT_DIR
                                      read_raw (fst j) (snd j))) jobs)).
Proof.
  induction jobs as [|[flag s] jobs IH]; intros Hnd Hsl; [constructor|].
  cbn [map snd flat_map fst] in *. rewrite map_app.
  inversion Hnd as [|? ? Hs Hnd']; subst.
  inversion Hsl as [|? ? Hs1 Hsl']; subst.
  apply NoDup_app.
  - apply process_source_paths_NoDup.
  - apply IH; assumption.
  - intros path Hin Hin'.
    apply process_source_paths_in_dir in Hin. destruct Hin as (n1 & Hp1).
    apply in_map_iff in Hin'. destruct Hin' as (f & Hf & Hin').
    apply in_flat_map in Hin'. destruct Hin' as ([flag' s'] & Hj & Hin').
    cbn [fst snd] in Hin'.
    assert (Hin2 : In path (map fst (snd (run_source isalnum RAW_DIR OUTPUT_DIR
                                            read_raw flag' s')))).
    { rewrite <- Hf. apply in_map. exact Hin'. }
    apply process_source_paths_in_dir in Hin2. destruct Hin2 as (n2 & Hp2).
    assert (Hs' : In s' (map snd jobs)).
    { apply in_map_iff. exists (flag', s'). auto. }
    rewrite Forall_forall in Hsl'.
    rewrite Hp1 in Hp2.
    apply source_dir_paths_apart in Hp2; [|exact Hs1|apply Hsl'; exact Hs'].
    apply Hs. rewrite Hp2. exact Hs'.
Qed.

(** X9: no two files written by [main] have the same path: the pages
    and the manifest of a source lie in the directory of that source,
    the directories of the sources differ, and the overall manifest
    lies beside them; so no file of a run overwrites another. *)
Theorem main_writes_distinct_paths (isalnum : char -> bool)
    (RAW_DIR OUTPUT_DIR : str) (read_raw : str -> option str) :
  NoDup (map fst (snd (main isalnum RAW_DIR OUTPUT_DIR read_raw))).
Proof.
  rewrite main_unfold. cbv zeta. cbn [snd].
  rewrite map_app, map_map. cbn [fst map].
  set (jobs := map (pair false) SOURCES_WITH_URL
               ++ map (pair true) SOURCES_HEADER_ONLY).
  assert (Hfiles :
            flat_map (fun s => snd (run_source isalnum RAW_DIR OUTPUT_DIR
                                      read_raw false s)) SOURCES_WITH_URL
            ++ flat_map (fun s => snd (run_source isalnum RAW_DIR OUTPUT_DIR
                                         read_raw true s)) SOURCES_HEADER_ONLY
            = flat_map (fun j => snd (run_source isalnum RAW_DIR OUTPUT_DIR
                                        read_raw (fst j) (snd j))) jobs).
  { subst jobs. rewrite flat_map_app, !flat_map_concat_map, !map_map.
    reflexivity. }
  rewrite Hfiles.
  assert (Hsnd : map snd jobs = SOURCES_WITH_URL ++ SOURCES_HEADER_ONLY).
  { subst jobs. rewrite map_app, !map_map. cbn [snd]. rewrite !map_id.
    reflexivity. }
  apply NoDup_app.
  - apply jobs_paths_NoDup; rewrite Hsnd;
      [apply sources_NoDup | apply sources_no_slash].
  - constructor; [intros [] | constructor].
  - intros path Hin [<- | []].
    apply in_map_iff in Hin. destruct Hin as (f & Hf & Hin).
    apply in_flat_map in Hin. destruct Hin as ([flag s] & _ & Hin).
    cbn [fst snd] in Hin.
    assert (Hin2 : In (fst f) (map fst (snd (run_source isalnum RAW_DIR
                                               OUTPUT_DIR read_raw flag s))))
      by (apply in_map; exact Hin).
    apply process_source_paths_in_dir in Hin2. destruct Hin2 as (n & Hp).
    rewrite Hf in Hp. unfold path_join in Hp.
    apply app_inv_head in Hp. injection Hp as Hp.
    assert (Hsl : In slash (py "manifest.json")).
    { rewrite Hp. apply in_or_app. right. left. reflexivity. }
    vm_compute in Hsl. intuition discriminate.
Qed.

(** ** The patterns of the structure analysis *)

Lemma url_tail_engine_k (b : bool) (r2 s3 : str) (gs : list str)
    (k : bool -> str -> list str -> option (list str * str)) :
  (forall b1 b2 s gs, k b1 s gs = k b2 s gs) ->
  (forall b c s' gs, c <> nl -> k b (c :: s') gs = None) ->
  exec (Seq (Lit (py "://")) (Plus not_nl)) b s3 gs
    (fun b' s' gs' => k b' s' (gs' ++ [firstn (length r2 - length s') r2]))
  = match lit (py "://") s3 with
    | None => None
    | Some s4 =>
        match span_line s4 with
        | ([], _) => None
        | (_, rest) =>
            k false rest (gs ++ [firstn (length r2 - length rest) r2])
        end
    end.
Proof.
  intros Hfree Hguard. rewrite exec_Seq, exec_Lit.
  destruct (lit (py "://") s3) as [s4|]; [|reflexivity].
  cbn [exec]. destruct s4 as [|c s']; [reflexivity|].
  cbn [span_line]. unfold not_nl at 1.
  destruct (N.eqb_spec c nl) as [->|Hc]; cbn [negb]; [reflexivity|].
  rewrite greedy_star_longest.
  - rewrite drop_while_not_nl. destruct (span_line s'). reflexivity.
  - intros b1 b2 s. apply Hfree.
  - intros b0 c0 s0 Hc0 _. apply Hguard.
    unfold not_nl in Hc0. intros ->. discriminate.
Qed.

Lemma url_group_engine_k (b : bool) (r2 : str) (gs : list str)
    (k : bool -> str -> list str -> option (list str * str)) :
  (forall b1 b2 s gs, k b1 s gs = k b2 s gs) ->
  (forall b c s' gs, c <> nl -> k b (c :: s') gs = None) ->
  exec (Grp RE_URL) b r2 gs k
  = match url_body r2 with
    | Some (g2, rest) => k false rest (gs ++ [g2])
    | None => None
    end.
Proof.
  intros Hfree Hguard. unfold RE_URL, url_body, scheme_body.
  change (exec (Grp ?r) b r2 gs k)
    with (exec r b r2 gs
            (fun b' s' gs' =>
               k b' s' (gs' ++ [firstn (length r2 - length s') r2]))).
  rewrite exec_Seq, exec_Lit.
  destruct (lit (py "http") r2) as [s1|]; [|reflexivity].
  rewrite exec_Seq.
  change (exec (Opt ?r) ?b0 s1 gs ?k0)
    with (match exec r b0 s1 gs k0 with
          | Some x => Some x
          | None => k0 b0 s1 gs
          end).
  rewrite exec_Lit. cbv beta.
  destruct (lit (py "s") s1) as [s2|] eqn:E2;
    rewrite !(url_tail_engine_k _ _ _ _ k Hfree Hguard).
  - assert (Hno : lit (py "://") s1 = None).
    { apply lit_Some in E2. subst s1. reflexivity. }
    rewrite Hno.
    destruct (lit (py "://") s2) as [s3|]; [|reflexivity].
    destruct (span_line s3) as [[|c run] rest]; [reflexivity|].
    destruct (k false rest _); reflexivity.
  - destruct (lit (py "://") s1) as [s3|]; [|reflexivity].
    destruct (span_line s3) as [[|c run] rest]; reflexivity.
Qed.

(** The matcher of the document pattern is the engine on it. *)
Lemma document_engine (text : str) (pos : nat) :
  run RE_DOCUMENT text pos = DOCUMENT_PATTERN text pos.
Proof.
  unfold run, DOCUMENT_PATTERN, match_body_at, document_body,
    header_url_body, header_body, RE_DOCUMENT.
  cbn [negb orb]. rewrite exec_Seq, exec_Bol.
  destruct (at_bol text pos); [|reflexivity].
  rewrite exec_Seq, exec_Lit. change (py "# ") with [hash; space].
  destruct (lit [hash; space] (skipn pos text)) as [s1|]; [|reflexivity].
  rewrite exec_Seq, header_group_engine.
  - destruct (span_line s1) as [g1 rest] eqn:E.
    destruct g1 as [|c g1]; [reflexivity|].
    rewrite exec_Seq, exec_Lit.
    destruct (lit (nl :: py "Source: ") rest) as [r2|]; [|reflexivity].
    rewrite exec_Seq.
    rewrite (url_group_engine_k _ r2 _
               (fun b' s' gs' => exec (Lit [nl]) b' s' gs' accept)).
    + destruct (url_body r2) as [[g2 rest']|]; [|reflexivity].
      rewrite exec_Lit. destruct (lit [nl] rest'); reflexivity.
    + intros b1 b2 s gs. rewrite !exec_Lit. reflexivity.
    + intros b c0 s' gs Hc. rewrite exec_Lit. cbn [lit].
      destruct (N.eqb_spec nl c0); [congruence | reflexivity].
  - intros b1 b2 s gs. rewrite !exec_Seq, !exec_Lit. reflexivity.
  - intros b c s' gs Hc. rewrite exec_Seq, exec_Lit. cbn [lit].
    destruct (N.eqb_spec nl c); [congruence | reflexivity].
Qed.

(** The matcher of a header pattern is the engine on it. *)
Lemma heading_engine (n : nat) (text : str) (pos : nat) :
  run (RE_HEADING n) text pos = HEADING n text pos.
Proof.
  unfold run, HEADING, match_body_at, heading_body, RE_HEADING.
  cbn [negb orb]. rewrite exec_Seq, exec_Bol.
  destruct (at_bol text pos); [|reflexivity].
  rewrite exec_Seq, exec_Lit.
  destruct (lit (repeat hash n ++ [space]) (skipn pos text)) as [s1|];
    [|reflexivity].
  cbn [exec]. destruct s1 as [|c s']; [reflexivity|].
  cbn [span_line]. unfold not_nl at 1.
  destruct (N.eqb_spec c nl) as [->|Hc]; cbn [negb]; [reflexivity|].
  rewrite greedy_star_longest.
  - rewrite drop_while_not_nl. destruct (span_line s'). reflexivity.
  - reflexivity.
  - intros b0 c0 s0 _ H. discriminate.
Qed.

(** ** Documents of the analysis and pages of the splitter *)

Lemma skipn_rest (T : str) (p : nat) (matched r : str) :
  skipn p T = matched ++ r -> skipn (length T - length r) T = r.
Proof.
  intros Hs.
  assert (HT : exists a, T = a ++ r).
  { exists (firstn p T ++ matched).
    rewrite <- app_assoc, <- Hs. symmetry. apply firstn_skipn. }
  clear Hs. destruct HT as (a & ->).
  rewrite length_app.
  replace (length a + length r - length r) with (length a) by lia.
  rewrite skipn_app, skipn_all, Nat.sub_diag. reflexivity.
Qed.

Lemma with_url_rest (T : str) (p : nat) (m : re_match) :
  PAGE_PATTERN_WITH_URL T p = Some m ->
  at_eol (skipn (m_end m) T) /\ m_end m <= length T.
Proof.
  intros Hm. unfold PAGE_PATTERN_WITH_URL, match_body_at in Hm.
  destruct (negb true || at_bol T p); [|discriminate].
  destruct (header_url_body (skipn p T)) as [[gs rest]|] eqn:Eb;
    [|discriminate].
  injection Hm as <-. cbn [m_end].
  destruct (header_url_body_ok _ _ _ Eb) as (matched & _ & Hs).
  rewrite (skipn_rest _ _ _ _ Hs).
  apply header_url_body_spec in Eb.
  destruct Eb as (g1 & g2 & _ & _ & _ & _ & He & _).
  split; [exact He | lia].
Qed.

Lemma document_at (T : str) (p : nat) :
  DOCUMENT_PATTERN T p =
  match PAGE_PATTERN_WITH_URL T p with
  | Some m =>
      match nth_error T (m_end m) with
      | Some c => if (c =? nl)%N then Some (with_newline m) else None
      | None => None
      end
  | None => None
  end.
Proof.
  unfold DOCUMENT_PATTERN, PAGE_PATTERN_WITH_URL, match_body_at, document_body.
  destruct (negb true || at_bol T p); [|reflexivity].
  destruct (header_url_body (skipn p T)) as [[gs r]|] eqn:Eb; [|reflexivity].
  cbn [m_end].
  destruct (header_url_body_ok _ _ _ Eb) as (matched & _ & Hs).
  pose proof (skipn_rest _ _ _ _ Hs) as Hr.
  assert (Hn : nth_error T (length T - length r) = nth_error r 0).
  { rewrite <- Hr at 2. rewrite nth_error_skipn, Nat.add_0_r. reflexivity. }
  rewrite Hn.
  assert (Hlen : length r <= length T).
  { apply (f_equal (@length char)) in Hs.
    rewrite length_skipn, length_app in Hs. lia. }
  destruct r as [|c r']; [reflexivity|].
  cbn [lit nth_error]. rewrite N.eqb_sym.
  destruct (c =? nl)%N; [|reflexivity].
  unfold with_newline. cbn [m_start m_end m_groups length] in *.
  do 2 f_equal. lia.
Qed.

Lemma document_pattern_ok : pattern_ok DOCUMENT_PATTERN.
Proof.
  apply match_body_at_ok. intros s gs rest. unfold document_body.
  destruct (header_url_body s) as [[gs' r]|] eqn:Eb; [|discriminate].
  destruct (lit [nl] r) as [rest'|] eqn:El; [|discriminate].
  intros [= <- <-]. apply lit_Some in El.
  destruct (header_url_body_ok _ _ _ Eb) as (matched & Hne & ->).
  exists (matched ++ [nl]). split.
  - destruct matched; [congruence | discriminate].
  - rewrite El, <- app_assoc. reflexivity.
Qed.

Lemma with_url_none_at_newline (T : str) (p : nat) :
  nth_error T p = Some nl -> PAGE_PATTERN_WITH_URL T p = None.
Proof.
  intros Hp. unfold PAGE_PATTERN_WITH_URL, match_body_at.
  destruct (negb true || at_bol T p); [|reflexivity].
  assert (Hs : exists tl, skipn p T = nl :: tl).
  { destruct (nth_error_split _ _ Hp) as (l1 & l2 & -> & <-).
    exists l2. rewrite skipn_app, skipn_all, Nat.sub_diag. reflexivity. }
  destruct Hs as (tl & ->). reflexivity.
Qed.

Lemma finditer_documents_from (T : str) (k pos : nat) :
  length T < k + pos ->
  (forall m, In m (finditer_from PAGE_PATTERN_WITH_URL T (S (length T)) pos) ->
     m_end m < length T) ->
  finditer_from DOCUMENT_PATTERN T (S (length T)) pos
  = map with_newline
      (finditer_from PAGE_PATTERN_WITH_URL T (S (length T)) pos).
Proof.
  revert pos. induction k as [|k IH]; intros pos Hk H.
  - rewrite !finditer_from_past by lia. reflexivity.
  - destruct (Nat.lt_ge_cases (length T) pos) as [Hlt|Hle].
    { rewrite !finditer_from_past by lia. reflexivity. }
    rewrite (finditer_from_step _ _ document_pattern_ok) by lia.
    rewrite (finditer_from_step _ _ with_url_ok) by lia.
    rewrite (finditer_from_step _ _ with_url_ok) in H by lia.
    rewrite document_at.
    destruct (PAGE_PATTERN_WITH_URL T pos) as [m|] eqn:Em.
    + assert (Hend : m_end m < length T) by (apply H; left; reflexivity).
      destruct (with_url_rest _ _ _ Em) as [He _].
      assert (Hnl : nth_error T (m_end m) = Some nl).
      { destruct (nth_error T (m_end m)) as [c|] eqn:Ec;
          [|apply nth_error_None in Ec; lia].
        destruct (nth_error_split _ _ Ec) as (l1 & l2 & HT & Hl).
        rewrite HT, <- Hl, skipn_app, skipn_all, Nat.sub_diag in He.
        cbn in He. congruence. }
      rewrite Hnl, N.eqb_refl. cbn [map]. f_equal.
      cbn [with_newline m_end].
      destruct (with_url_ok _ _ _ Em) as [_ Hpos].
      assert (Hstep :
                finditer_from PAGE_PATTERN_WITH_URL T (S (length T)) (m_end m)
                = finditer_from PAGE_PATTERN_WITH_URL T (S (length T))
                    (S (m_end m))).
      { rewrite (finditer_from_step _ _ with_url_ok) by lia.
        rewrite (with_url_none_at_newline _ _ Hnl). reflexivity. }
      rewrite Hstep. apply IH; [lia|].
      intros m' Hin. apply H. right. rewrite Hstep. exact Hin.
    + apply IH; [lia | exact H].
Qed.

Lemma finditer_documents (T : str) :
  Forall (fun m => m_end m < length T) (boundaries WithUrl T) ->
  finditer DOCUMENT_PATTERN T = map with_newline (boundaries WithUrl T).
Proof.
  intros H. rewrite Forall_forall in H.
  apply (finditer_documents_from T (S (length T)) 0); [lia | exact H].
Qed.

Lemma strip_after_newline (s : str) : strip (nl :: s) = strip s.
Proof. reflexivity. Qed.

Lemma slice_cons (T : str) (a b : nat) (c : char) :
  nth_error T a = Some c -> a < b ->
  slice T a b = c :: slice T (S a) b.
Proof.
  intros Ha Hab. unfold slice.
  destruct (nth_error_split _ _ Ha) as (l1 & l2 & -> & <-).
  rewrite skipn_app_sep.
  rewrite skipn_app, skipn_all, Nat.sub_diag. cbn [skipn app].
  replace (b - length l1) with (S (b - S (length l1))) by lia.
  reflexivity.
Qed.

(** X10: when no boundary's [Source:] line is the unterminated last
    line of the text, the analysis splits the text at the same places
    as Strategy A: document by document it has the content and the
    size of the page, and its title and URL are those of the page
    before trimming. *)
Theorem documents_agree_with_pages (T : str) :
  Forall (fun m => m_end m < length T) (boundaries WithUrl T) ->
  map page_of_document (split_into_documents T) = split_with_url_pattern T.
Proof.
  intros H. unfold split_into_documents, split_with_url_pattern, build_pages.
  rewrite (finditer_documents T H). fold (boundaries WithUrl T).
  change (finditer PAGE_PATTERN_WITH_URL T) with (boundaries WithUrl T).
  set (ms := boundaries WithUrl T) in *.
  rewrite map_map.
  assert (Hen : enumerate (map with_newline ms)
                = map (fun im : nat * re_match =>
                         (fst im, with_newline (snd im))) (enumerate ms)).
  { unfold enumerate. rewrite length_map. generalize 0.
    induction ms as [|m l IHl]; intros a; [reflexivity|].
    cbn [length seq combine map fst snd]. f_equal. apply IHl.
    inversion H; assumption. }
  rewrite Hen, map_map. apply map_ext_in. intros [i m] Hin.
  cbn [fst snd]. unfold page_of_document.
  cbn [doc_title doc_source_url doc_content size_chars with_newline m_end
       m_groups group]. rewrite length_map.
  assert (Hi : nth_error ms i = Some m).
  { apply In_nth_error in Hin. destruct Hin as (j & Hj).
    rewrite nth_error_enumerate in Hj.
    destruct (nth_error ms j) as [m'|] eqn:Ej; [|discriminate].
    cbn in Hj. injection Hj as <- <-. exact Ej. }
  assert (Hm : In m ms) by (apply nth_error_In in Hi; exact Hi).
  rewrite Forall_forall in H. pose proof (H m Hm) as Hend.
  pose proof (boundaries_sound WithUrl T m Hm) as Hpat.
  cbn [boundary_pattern scanned_text] in Hpat.
  destruct (with_url_rest _ _ _ Hpat) as [He _].
  assert (Hnl : nth_error T (m_end m) = Some nl).
  { destruct (nth_error T (m_end m)) as [c|] eqn:Ec;
      [|apply nth_error_None in Ec; lia].
    destruct (nth_error_split _ _ Ec) as (l1 & l2 & HT & Hl).
    rewrite HT, <- Hl, skipn_app, skipn_all, Nat.sub_diag in He.
    cbn in He. congruence. }
  set (e := if i + 1 <? length ms
            then m_start (nth (i + 1) ms dummy_match) else length T).
  assert (He' : (if i + 1 <? length ms
                 then m_start (nth (i + 1) (map with_newline ms) dummy_match)
                 else length T) = e).
  { subst e. destruct (Nat.ltb_spec (i + 1) (length ms)) as [Hlt|]; [|reflexivity].
    rewrite (nth_indep _ dummy_match (with_newline dummy_match))
      by (rewrite length_map; exact Hlt).
    rewrite map_nth. reflexivity. }
  rewrite He'.
  assert (Hlt : m_end m < e).
  { subst e. destruct (Nat.ltb_spec (i + 1) (length ms)) as [Hlt|]; [|exact Hend].
    destruct (nth_error ms (i + 1)) as [m'|] eqn:Ej;
      [|apply nth_error_None in Ej; lia].
    rewrite (nth_error_nth _ _ dummy_match Ej).
    pose proof (chained_nth_order _ _ _ i (i + 1) m m'
                  (boundaries_chained WithUrl T) ltac:(lia) Hi Ej) as [_ Hle].
    assert (Hne : m_start m' <> m_end m).
    { intros Heq.
      pose proof (boundaries_sound WithUrl T m' (nth_error_In _ _ Ej)) as Hp'.
      cbn [boundary_pattern scanned_text] in Hp'.
      rewrite Heq, (with_url_none_at_newline _ _ Hnl) in Hp'. discriminate. }
    lia. }
  rewrite (slice_cons T (m_end m) e nl Hnl Hlt), strip_after_newline.
  reflexivity.
Qed.

Lemma documents_agree_with_pages_witness :
  map page_of_document
    (split_into_documents
       (py "# A" ++ nl :: py "Source: http://u " ++ nl :: py "body" ++ nl ::
        py "# B " ++ nl :: py "Source: https://v" ++ [nl]))
  = split_with_url_pattern
      (py "# A" ++ nl :: py "Source: http://u " ++ nl :: py "body" ++ nl ::
       py "# B " ++ nl :: py "Source: https://v" ++ [nl]).
Proof.
  apply (documents_agree_with_pages
           (py "# A" ++ nl :: py "Source: http://u " ++ nl :: py "body" ++ nl ::
            py "# B " ++ nl :: py "Source: https://v" ++ [nl])).
  vm_compute. repeat constructor.
Defined.

Lemma finditer_from_same_ends (pat1 pat2 : str -> nat -> option re_match)
    (T : str) (fuel pos : nat) :
  (forall p, option_map m_end (pat1 T p) = option_map m_end (pat2 T p)) ->
  map m_end (finditer_from pat1 T fuel pos)
  = map m_end (finditer_from pat2 T fuel pos).
Proof.
  intros H. revert pos. induction fuel as [|f IH]; intros pos; [reflexivity|].
  cbn [finditer_from]. destruct (length T <? pos); [reflexivity|].
  specialize (H pos).
  destruct (pat1 T pos) as [m1|], (pat2 T pos) as [m2|];
    cbn [option_map] in H; try discriminate.
  - injection H as H. cbn [map]. rewrite H, IH. reflexivity.
  - apply IH.
Qed.

Lemma heading_1_ends (T : str) (p : nat) :
  option_map m_end (HEADING 1 T p)
  = option_map m_end (PAGE_PATTERN_HEADER_ONLY T p).
Proof.
  unfold HEADING, PAGE_PATTERN_HEADER_ONLY, match_body_at, heading_body,
    header_only_body, header_body.
  destruct (negb true || at_bol T p); [|reflexivity].
  change (repeat hash 1 ++ [space]) with [hash; space].
  destruct (lit [hash; space] (skipn p T)) as [s1|]; [|reflexivity].
  destruct (span_line s1) as [[|c run] rest]; reflexivity.
Qed.

Lemma h1_is_header_only_count (T : str) :
  h1 (analyze_headers T) = length (finditer PAGE_PATTERN_HEADER_ONLY T).
Proof.
  cbn [analyze_headers h1]. unfold finditer.
  rewrite <- (length_map m_end), <- (length_map m_end (finditer_from PAGE_PATTERN_HEADER_ONLY _ _ _)).
  f_equal. apply finditer_from_same_ends. apply heading_1_ends.
Qed.

Lemma document_is_boundary (T : str) (d : re_match) :
  In d (finditer DOCUMENT_PATTERN T) ->
  exists m, In m (boundaries WithUrl T) /\ m_start m = m_start d.
Proof.
  intros Hin.
  destruct (finditer_from_sound _ _ document_pattern_ok _ _ _ Hin) as [Hd _].
  rewrite document_at in Hd.
  destruct (PAGE_PATTERN_WITH_URL T (m_start d)) as [m|] eqn:Em;
    [|discriminate].
  exists m. destruct (with_url_ok _ _ _ Em) as [Hs _]. split; [|exact Hs].
  destruct (finditer_from_complete _ T with_url_ok (S (length T)) 0
              (m_start d) m ltac:(lia) ltac:(lia) Em)
    as [Hin' | (m'' & Hin'' & Hr)]; [exact Hin'|].
  exfalso.
  destruct (finditer_from_sound _ _ with_url_ok _ _ _ Hin'') as [Hm'' _].
  destruct (match_body_at_Some _ _ _ _ _ header_url_body_ok Em)
    as (Hbol & gs & rest & matched & Hb & Hsk & _).
  apply header_url_body_spec in Hb.
  destruct Hb as (g1 & g2 & _ & Hsk' & _).
  exact (with_url_no_overlap T _ (m_start d) m'' _ Hm'' Hr (Hbol eq_refl) Hsk').
Qed.

(** X11: the analysis never counts more documents than Strategy A
    yields pages, and Strategy A never yields more pages than the
    analysis counts level-one headers. *)
Theorem analysis_counts_bound_pages (T : str) :
  length (split_into_documents T) <= length (split_with_url_pattern T)
  /\ length (split_with_url_pattern T) <= h1 (analyze_headers T).
Proof.
  split.
  - unfold split_into_documents.
    rewrite length_map, length_enumerate.
    change (split_with_url_pattern T) with (split_pages WithUrl T).
    rewrite split_pages_build, length_build_pages.
    rewrite <- (length_map m_start (finditer DOCUMENT_PATTERN T)).
    rewrite <- (length_map m_start (boundaries WithUrl T)).
    apply NoDup_incl_length.
    + apply (chained_starts_NoDup (length T) 0).
      apply finditer_from_chained, document_pattern_ok.
    + intros s Hs. apply in_map_iff in Hs. destruct Hs as (d & <- & Hin).
      destruct (document_is_boundary T d Hin) as (m & Hm & Hst).
      apply in_map_iff. exists m. auto.
  - rewrite h1_is_header_only_count. apply (with_url_pages_le_headers T).
Qed.

(** ** Loading the files of the splitter *)

Lemma rfind_from_notin (c : char) (s : str) (pos : nat) (found : option nat) :
  ~ In c s -> rfind_from c s pos found = found.
Proof.
  revert pos found. induction s as [|d s IH]; intros pos found Hn;
    [reflexivity|].
  cbn [rfind_from]. destruct (N.eqb_spec d c) as [->|Hne].
  - exfalso. apply Hn. left. reflexivity.
  - apply IH. intros H. apply Hn. right. exact H.
Qed.

Lemma rfind_from_last (c : char) (a b : str) (pos : nat)
    (found : option nat) :
  ~ In c b -> rfind_from c (a ++ c :: b) pos found = Some (pos + length a).
Proof.
  intros Hb. revert pos found.
  induction a as [|d a IH]; intros pos found.
  - cbn [app rfind_from length]. rewrite N.eqb_refl, Nat.add_0_r.
    apply rfind_from_notin. exact Hb.
  - cbn [app rfind_from length]. rewrite IH. f_equal. lia.
Qed.

Lemma stem_json (a : str) : a <> [] -> stem (a ++ py ".json") = a.
Proof.
  intros Ha. unfold stem, rfind.
  change (py ".json") with (dot :: py "json").
  rewrite rfind_from_last.
  2:{ vm_compute. intuition discriminate. }
  cbn [Nat.add]. rewrite length_app.
  change (length (dot :: py "json")) with 5.
  destruct a as [|c a]; [congruence|].
  cbn [length]. 
  destruct (Nat.ltb_spec 0 (S (length a))); [|lia].
  destruct (Nat.ltb_spec (S (length a)) (S (length a) + 5 - 1)); [|lia].
  cbn [andb].
  change (S (length a)) with (length (c :: a)).
  rewrite firstn_app, firstn_all, Nat.sub_diag. cbn [firstn].
  apply app_nil_r.
Qed.

Lemma split_first_sep (sep : char) (a b : str) :
  ~ In sep a -> split_first sep (a ++ sep :: b) = a.
Proof.
  induction a as [|c a IH]; intros Hn; cbn [app split_first].
  - rewrite N.eqb_refl. reflexivity.
  - destruct (N.eqb_spec c sep) as [->|Hne].
    + exfalso. apply Hn. left. reflexivity.
    + f_equal. apply IH. intros H. apply Hn. right. exact H.
Qed.

(** The page number the loader reads off a file name of the splitter
    is the zero-padded index of the page. *)
Lemma page_number_of_filename (isalnum : char -> bool) (i : nat) (p : page) :
  split_first underscore (stem (page_filename isalnum i p)) = format_04d i.
Proof.
  unfold page_filename. cbv zeta.
  set (safe := re_sub SPACE_RUN _ _).
  replace (format_04d i ++ underscore :: safe ++ py ".json")
    with ((format_04d i ++ underscore :: safe) ++ py ".json")
    by (rewrite <- app_assoc; reflexivity).
  rewrite stem_json.
  - apply split_first_sep, format_04d_no_underscore.
  - destruct (format_04d i); discriminate.
Qed.

Lemma str_eqb_refl (a : str) : str_eqb a a = true.
Proof. apply str_eqb_eq. reflexivity. Qed.

Lemma page_filename_selected (isalnum : char -> bool) (i : nat) (p : page) :
  glob_suffix (py ".json") (page_filename isalnum i p)
  && negb (str_eqb (page_filename isalnum i p) (py "manifest.json")) = true.
Proof.
  apply andb_true_intro. split.
  - unfold glob_suffix, page_filename. cbv zeta.
    set (safe := re_sub SPACE_RUN _ _).
    replace (format_04d i ++ underscore :: safe ++ py ".json")
      with ((format_04d i ++ underscore :: safe) ++ py ".json")
      by (rewrite <- app_assoc; reflexivity).
    rewrite length_app.
    apply andb_true_intro. split; [apply Nat.leb_le; lia|].
    replace (length (format_04d i ++ underscore :: safe) + length (py ".json")
             - length (py ".json"))
      with (length (format_04d i ++ underscore :: safe)) by lia.
    rewrite skipn_app, skipn_all, Nat.sub_diag. cbn [skipn app].
    apply str_eqb_refl.
  - apply negb_true_iff.
    destruct (str_eqb (page_filename isalnum i p) (py "manifest.json")) eqn:E;
      [|reflexivity].
    apply str_eqb_eq in E. unfold page_filename in E.
    destruct (format_04d_cons i) as (c & rest & Hf & Hc).
    rewrite Hf in E. cbn in E. injection E as -> _. lia.
Qed.

Lemma Permutation_filter {A} (P : A -> bool) (l l' : list A) :
  Permutation l l' -> Permutation (filter P l) (filter P l').
Proof.
  induction 1 as [|x l l' _ IH|x y l|l l' l'' _ IH1 _ IH2]; cbn [filter].
  - constructor.
  - destruct (P x); [constructor|]; exact IH.
  - destruct (P x), (P y); try apply Permutation_refl. constructor.
  - exact (Permutation_trans IH1 IH2).
Qed.

Lemma filter_page_files_written (isalnum : char -> bool) (pages : list page)
    (mf : manifest) :
  filter (fun f => glob_suffix (py ".json") (fst f)
                   && negb (str_eqb (fst f) (py "manifest.json")))
         (page_files isalnum pages ++ [(py "manifest.json", ManifestJson mf)])
  = page_files isalnum pages.
Proof.
  rewrite filter_app. cbn [filter fst].
  rewrite str_eqb_refl, andb_false_r, app_nil_r.
  unfold page_files.
  induction (enumerate pages) as [|[i p] l IH]; [reflexivity|].
  cbn [map filter fst]. rewrite page_filename_selected, IH. reflexivity.
Qed.

Lemma load_page_files (isalnum : char -> bool) (source_name : str)
    (source_manifest : source_result) (pages : list page)
    (files : list (str * file_body)) :
  incl files (page_files isalnum pages) ->
  load_json_files source_name source_manifest files
  = inr (map (fun f =>
                match snd f with
                | PageJson data =>
                    document_of_page source_name source_manifest
                      (Nat.of_uint (digits_uint (split_first underscore
                                                   (stem (fst f)))))
                      data
                | ManifestJson _ =>
                    document_of_page source_name source_manifest 0
                      {| title := []; source_url := None; content := [];
                         content_length := 0 |}
                end) files).
Proof.
  induction files as [|f files IH]; intros Hincl; [reflexivity|].
  cbn [load_json_files map].
  rewrite IH by (intros x Hx; apply Hincl; right; exact Hx).
  assert (Hf : In f (page_files isalnum pages))
    by (apply Hincl; left; reflexivity).
  unfold page_files in Hf. apply in_map_iff in Hf.
  destruct Hf as ([i p] & <- & _).
  unfold load_json_file. cbn [fst snd].
  rewrite page_number_of_filename.
  unfold document_of_page. do 2 f_equal.
  assert (Hi : Nat.of_uint (digits_uint (format_04d i)) = i).
  { unfold format_04d. rewrite of_uint_zeros, digits_uint_uint_digits.
    apply DecimalNat.Unsigned.of_to. }
  rewrite Hi. reflexivity.
Qed.

Lemma page_files_documents (isalnum : char -> bool) (source_name : str)
    (source_manifest : source_result) (pages : list page) :
  map (fun f =>
         match snd f with
         | PageJson data =>
             document_of_page source_name source_manifest
               (Nat.of_uint (digits_uint (split_first underscore
                                            (stem (fst f)))))
               data
         | ManifestJson _ =>
             document_of_page source_name source_manifest 0
               {| title := []; source_url := None; content := [];
                  content_length := 0 |}
         end) (page_files isalnum pages)
  = map (fun ip => document_of_page source_name source_manifest
                     (fst ip) (snd ip)) (enumerate pages).
Proof.
  unfold page_files. rewrite map_map. apply map_ext. intros [i p].
  cbn [fst snd]. rewrite page_number_of_filename.
  unfold format_04d. rewrite of_uint_zeros, digits_uint_uint_digits.
  rewrite DecimalNat.Unsigned.of_to. reflexivity.
Qed.

Lemma doc_ids_NoDup (source_name : str) (source_manifest : source_result)
    (pages : list page) :
  NoDup (map md_doc_id
           (map (fun ip => document_of_page source_name source_manifest
                             (fst ip) (snd ip)) (enumerate pages))).
Proof.
  rewrite map_map. cbn [document_of_page md_doc_id].
  apply NoDup_nth_error. intros i j Hi Heq.
  rewrite length_map, length_enumerate in Hi.
  rewrite !nth_error_map, !nth_error_enumerate in Heq.
  destruct (nth_error pages i) as [p|] eqn:Ep;
    [|apply nth_error_None in Ep; lia].
  destruct (nth_error pages j) as [q|] eqn:Eq; [|discriminate].
  cbn in Heq. injection Heq as Heq. apply app_inv_head in Heq.
  injection Heq as Heq. apply format_04d_inj. exact Heq.
Qed.

(** X12: the loader reads back what the splitter wrote for a source:
    whatever the order in which the directory lists the page files and
    the manifest, it raises no error and makes one document per page,
    with the content of the page, [Untitled] for an empty title, and
    the zero-padded index of the page as its page number; the document
    identifiers of a source are pairwise distinct. *)
Theorem load_reads_written_pages (isalnum : char -> bool)
    (source_name : str) (source_manifest : source_result)
    (pages : list page) (mf : manifest) (listing : list (str * file_body)) :
  Permutation listing
    (page_files isalnum pages ++ [(py "manifest.json", ManifestJson mf)]) ->
  exists docs,
    load_source_documents source_name source_manifest listing = inr docs
    /\ Permutation docs
         (map (fun ip => document_of_page source_name source_manifest
                           (fst ip) (snd ip)) (enumerate pages))
    /\ NoDup (map md_doc_id docs).
Proof.
  intros Hperm.
  set (sel := fun f : str * file_body =>
                glob_suffix (py ".json") (fst f)
                && negb (str_eqb (fst f) (py "manifest.json"))).
  assert (Hsel : Permutation (filter sel listing) (page_files isalnum pages)).
  { rewrite <- (filter_page_files_written isalnum pages mf).
    apply Permutation_filter. exact Hperm. }
  unfold load_source_documents. fold sel.
  rewrite (load_page_files isalnum _ _ pages).
  2:{ intros f Hf. apply (Permutation_in _ Hsel). exact Hf. }
  eexists. split; [reflexivity|].
  assert (Hdocs : Permutation
            (map (fun f =>
                    match snd f with
                    | PageJson data =>
                        document_of_page source_name source_manifest
                          (Nat.of_uint (digits_uint
                             (split_first underscore (stem (fst f))))) data
                    | ManifestJson _ =>
                        document_of_page source_name source_manifest 0
                          {| title := []; source_url := None; content := [];
                             content_length := 0 |}
                    end) (filter sel listing))
            (map (fun ip => document_of_page source_name source_manifest
                              (fst ip) (snd ip)) (enumerate pages))).
  { rewrite <- (page_files_documents isalnum).
    apply Permutation_map. exact Hsel. }
  split; [exact Hdocs|].
  apply (Permutation_NoDup (Permutation_sym (Permutation_map md_doc_id Hdocs))).
  apply doc_ids_NoDup.
Qed.

Lemma load_reads_written_pages_witness :
  exists docs,
    load_source_documents (py "Zep") (Succeeded 2 1 (py "out/Zep"))
      ((py "manifest.json",
        ManifestJson (build_manifest (py "Zep") (py "raw/Zep/llms-full.txt")
                        true
                        (split_pages HeaderOnly
                           (py "# A" ++ nl :: py "# " ++ nl :: py "# B" ++ nl :: py "b"))))
       :: page_files (fun _ => false)
            (split_pages HeaderOnly
               (py "# A" ++ nl :: py "# " ++ nl :: py "# B" ++ nl :: py "b")))
    = inr docs
    /\ Permutation docs
         (map (fun ip => document_of_page (py "Zep")
                           (Succeeded 2 1 (py "out/Zep")) (fst ip) (snd ip))
              (enumerate
                 (split_pages HeaderOnly
                    (py "# A" ++ nl :: py "# " ++ nl :: py "# B" ++ nl :: py "b"))))
    /\ NoDup (map md_doc_id docs).
Proof.
  apply (load_reads_written_pages (fun _ => false) (py "Zep")
           (Succeeded 2 1 (py "out/Zep"))
           (split_pages HeaderOnly
              (py "# A" ++ nl :: py "# " ++ nl :: py "# B" ++ nl :: py "b"))
           (build_manifest (py "Zep") (py "raw/Zep/llms-full.txt") true
              (split_pages HeaderOnly
                 (py "# A" ++ nl :: py "# " ++ nl :: py "# B" ++ nl :: py "b")))).
  apply Permutation_cons_append.
Defined.

Lemma load_json_files_source (source_name : str)
    (source_manifest : source_result) (files : list (str * file_body))
    (docs : list document) :
  load_json_files source_name source_manifest files = inr docs ->
  Forall (fun d => md_source_name d = source_name) docs.
Proof.
  revert docs. induction files as [|f files IH]; intros docs;
    cbn [load_json_files].
  - intros [= <-]. constructor.
  - destruct (load_json_file source_name source_manifest f) as [e|d] eqn:Ed;
      [discriminate|].
    destruct (load_json_files source_name source_manifest files) as [e|ds];
      [discriminate|].
    intros [= <-]. constructor; [|apply IH; reflexivity].
    unfold load_json_file in Ed. destruct (snd f); [|discriminate].
    injection Ed as <-. reflexivity.
Qed.

Lemma filter_all {A} (P : A -> bool) (l : list A) :
  Forall (fun x => P x = true) l -> filter P l = l.
Proof.
  induction 1 as [|x l Hx _ IH]; [reflexivity|].
  cbn [filter]. rewrite Hx, IH. reflexivity.
Qed.

Lemma filter_none_of {A} (P : A -> bool) (l : list A) :
  Forall (fun x => P x = false) l -> filter P l = [].
Proof.
  induction 1 as [|x l Hx _ IH]; [reflexivity|].
  cbn [filter]. rewrite Hx, IH. reflexivity.
Qed.

Lemma load_entries_filter (results : list (str * source_result))
    (names : list str)
    (entries : list (str * option (list (str * file_body))))
    (docs : list document) :
  names <> [] ->
  load_entries results None entries = inr docs ->
  load_entries results (Some names) entries
  = inr (filter (fun d => existsb (str_eqb (md_source_name d)) names) docs).
Proof.
  intros Hne. destruct names as [|n0 names]; [congruence|]. clear Hne.
  revert docs. induction entries as [|[s entry] entries IH]; intros docs.
  - intros [= <-]. reflexivity.
  - cbn [load_entries]. destruct entry as [listing|]; [|apply IH].
    cbn [negb].
    destruct (dict_get results s) as [sm|] eqn:Eg.
    + destruct (load_source_documents s sm listing) as [e|ds] eqn:El;
        [discriminate|].
      destruct (load_entries results None entries) as [e|docs'] eqn:Er;
        [discriminate|].
      intros [= <-]. rewrite (IH docs' eq_refl). rewrite filter_app.
      pose proof (load_json_files_source _ _ _ _ El) as Hsrc.
      destruct (existsb (str_eqb s) (n0 :: names)) eqn:Ein; cbn [negb].
      * rewrite (filter_all _ ds); [reflexivity|].
        eapply Forall_impl; [|exact Hsrc]. cbv beta. intros d ->. exact Ein.
      * rewrite (filter_none_of _ ds); [reflexivity|].
        eapply Forall_impl; [|exact Hsrc]. cbv beta. intros d ->. exact Ein.
    + intros Hd. rewrite (IH docs Hd).
      destruct (negb (existsb (str_eqb s) (n0 :: names))); reflexivity.
Qed.

(** X13: a source filter selects documents by their source: when the
    unfiltered load succeeds, the load with a non-empty filter returns
    exactly its documents whose [source_name] is in the filter, in the
    same order; an empty filter list filters nothing; and without the
    overall manifest every load fails. *)
Theorem source_filter_selects
    (results : list (str * source_result))
    (entries : list (str * option (list (str * file_body)))) :
  (forall names docs,
     names <> [] ->
     load_documents (Some results) None entries = inr docs ->
     load_documents (Some results) (Some names) entries
     = inr (filter (fun d => existsb (str_eqb (md_source_name d)) names)
                   docs))
  /\ load_documents (Some results) (Some []) entries
     = load_documents (Some results) None entries
  /\ forall source_filter,
       load_documents None source_filter entries = inl ManifestNotFound.
Proof.
  split; [|split].
  - intros names docs Hne Hd. cbn [load_documents] in *.
    apply load_entries_filter; assumption.
  - cbn [load_documents].
    induction entries as [|[s entry] entries IH]; [reflexivity|].
    cbn [load_entries]. rewrite IH. reflexivity.
  - reflexivity.
Qed.

(** ** Batches *)

Lemma length_list_slice {A} (l : list A) (a s : nat) :
  length (list_slice l a (a + s)) = Nat.min s (length l - a).
Proof.
  unfold list_slice. rewrite length_firstn, length_skipn.
  replace (a + s - a) with s by lia. reflexivity.
Qed.

Lemma range_batches {A} (l : list A) (s fuel i : nat) :
  0 < s -> length l <= fuel + i ->
  let bl := map (fun j => list_slice l j (j + s))
                (range_from fuel i (length l) s) in
  concat bl = skipn i l
  /\ Forall (fun b => 0 < length b <= s) bl
  /\ (forall k b, nth_error bl k = Some b -> S k < length bl -> length b = s)
  /\ (i < length l -> bl <> []).
Proof.
  intros Hs. revert i. induction fuel as [|f IH]; intros i Hf; cbv zeta.
  - cbn [range_from map concat]. rewrite skipn_all2 by lia.
    repeat split; [constructor | intros [|k] b H; discriminate | lia].
  - cbn [range_from]. destruct (Nat.ltb_spec i (length l)) as [Hlt|Hge].
    + cbn [map concat].
      destruct (IH (i + s) ltac:(lia)) as (Hc & Hall & Hfull & Hne).
      cbv zeta in Hc, Hall, Hfull, Hne.
      split; [|split; [|split]].
      * rewrite Hc. unfold list_slice.
        replace (i + s - i) with s by lia.
        replace (i + s) with (s + i) by lia.
        rewrite <- skipn_skipn. apply firstn_skipn.
      * constructor; [|exact Hall]. rewrite length_list_slice. lia.
      * intros [|k] b Hb Hk.
        -- injection Hb as <-. rewrite length_list_slice.
           cbn [length] in Hk.
           destruct (Nat.lt_ge_cases (i + s) (length l)) as [Hin|Hout]; [lia|].
           exfalso. cbn [range_from] in Hk.
           assert (Hnil : range_from f (i + s) (length l) s = []).
           { destruct f; [reflexivity|]. cbn [range_from].
             destruct (Nat.ltb_spec (i + s) (length l)); [lia | reflexivity]. }
           rewrite Hnil in Hk. cbn in Hk. lia.
        -- cbn [nth_error] in Hb. cbn [length] in Hk.
           apply (Hfull k b Hb). lia.
      * intros _. discriminate.
    + cbn [map concat]. rewrite skipn_all2 by lia.
      repeat split; [constructor | intros [|k] b H; discriminate | lia].
Qed.

(** X14: with a positive batch size the batches are a partition of
    the documents in order: concatenated they give the documents back,
    no batch is empty or larger than the batch size, and every batch
    but the last is full.  A negative batch size gives no batch at
    all, so nothing is uploaded, and a batch size of zero is the only
    one for which the range raises an error. *)
Theorem batches_partition {A} (documents : list A) (batch_size : Z) :
  match batches documents batch_size with
  | None => batch_size = 0%Z
  | Some bl =>
      batch_size <> 0%Z
      /\ ((batch_size < 0)%Z -> bl = [])
      /\ ((0 < batch_size)%Z ->
          concat bl = documents
          /\ Forall (fun b => 0 < length b <= Z.to_nat batch_size) bl
          /\ (forall k b, nth_error bl k = Some b -> S k < length bl ->
                length b = Z.to_nat batch_size)
          /\ (documents <> [] -> bl <> []))
  end.
Proof.
  unfold batches, py_range.
  destruct (Z.eqb_spec batch_size 0) as [->|Hne]; [reflexivity|].
  destruct (Z.ltb_spec batch_size 0) as [Hneg|Hpos].
  - cbn [map]. split; [exact Hne|]. split; [reflexivity | lia].
  - split; [exact Hne|]. split; [lia|]. intros _.
    destruct (range_batches documents (Z.to_nat batch_size)
                (length documents) 0 ltac:(lia) ltac:(lia))
      as (Hc & Hall & Hfull & Hnonempty).
    cbv zeta in Hc, Hall, Hfull, Hnonempty.
    split; [exact Hc|]. split; [exact Hall|]. split; [exact Hfull|].
    intros Hd. apply Hnonempty. destruct documents; [congruence|].
    cbn [length]. lia.
Qed.

(** ** Uploading *)







(** ** Strategy B: which lines are boundaries *)

Lemma not_bol_inside_line (T : str) (q : nat) (a r : str) (j : nat) :
  skipn q T = a ++ r -> ~ In nl a -> q < j <= q + length a ->
  at_bol T j = false.
Proof.
  intros Hs Hn Hj. destruct j as [|j]; [lia|]. cbn [at_bol].
  assert (Hnth : nth_error T j = nth_error a (j - q)).
  { replace j with (q + (j - q)) at 1 by lia.
    rewrite <- nth_error_skipn, Hs. apply nth_error_app1. lia. }
  rewrite Hnth.
  destruct (nth_error a (j - q)) as [c|] eqn:Ec; [|reflexivity].
  apply nth_error_In in Ec.
  destruct (N.eqb_spec c nl) as [->|]; [contradiction | reflexivity].
Qed.

Lemma line_insert (T : str) (q : nat) (a r : str) :
  skipn q T = a ++ r -> ~ In nl a -> at_eol r ->
  demoted T q = false ->
  exists r',
    insert_from (demoted T) q (skipn q T) = a ++ r' /\ at_eol r'.
Proof.
  intros Hs Hn He Hq. rewrite Hs, insert_from_app.
  rewrite (insert_from_unmarked (demoted T) q a).
  2:{ intros j Hj. destruct (Nat.eq_dec j q) as [->|Hne]; [exact Hq|].
      unfold demoted, hash_line_at.
      rewrite (not_bol_inside_line T q a r j Hs Hn) by lia. reflexivity. }
  eexists. split; [reflexivity|].
  destruct r as [|c r0]; [exact I|].
  cbn in He. subst c. cbn [insert_from].
  assert (Hmk : demoted T (q + length a) = false).
  { unfold demoted, hash_line_at.
    replace (skipn (q + length a) T) with (nl :: r0).
    - cbn. rewrite andb_false_r. reflexivity.
    - replace (q + length a) with (length a + q) by lia.
      rewrite <- skipn_skipn, Hs, skipn_app, skipn_all, Nat.sub_diag.
      reflexivity. }
  rewrite Hmk. reflexivity.
Qed.

Lemma span_line_unique (a1 r1 a2 r2 : str) :
  a1 ++ r1 = a2 ++ r2 -> ~ In nl a1 -> at_eol r1 -> ~ In nl a2 -> at_eol r2 ->
  a1 = a2.
Proof.
  intros H H1 E1 H2 E2.
  assert (S1 : span_line (a1 ++ r1) = (a1, r1)) by (apply span_line_app; auto).
  assert (S2 : span_line (a2 ++ r2) = (a2, r2)) by (apply span_line_app; auto).
  rewrite H in S1. congruence.
Qed.

Lemma header_no_nl (ttl : str) : ~ In nl ttl -> ~ In nl (hash :: space :: ttl).
Proof. intros H [E|[E|E]]; [discriminate E | discriminate E | auto]. Qed.

(** X16: Strategy B finds a boundary with the title text [ttl] on a
    line of the rewritten text exactly when that line of the input is
    a header line [# ttl] outside every code block: no header outside
    the code blocks is missed, and nothing else is a boundary. *)
Theorem strategy_b_boundary_iff (T : str) (k : nat) (ttl : str) :
  (exists m,
      In m (boundaries HeaderOnly T)
      /\ line_of (scanned_text HeaderOnly T) (m_start m) = k
      /\ group m 1 = ttl)
  <-> (exists p,
          header_line_at T p ttl /\ line_of T p = k /\ in_block T p = false).
Proof.
  split.
  - intros (m & Hin & Hk & Hg).
    destruct (boundary_preimage T m Hin) as (q0 & Hq0 & Hbol0 & Hl0 & Hpos & Hblk).
    destruct (boundary_header_line HeaderOnly T m Hin)
      as (_ & rest & Hsk & Hne & Hnn & He & _).
    cbn [scanned_text] in Hsk, Hk. rewrite neutralize_insert in Hsk.
    destruct (insert_line_image (demoted T) T q0 Hq0 Hbol0) as (_ & _ & Him).
    rewrite Hpos, Hsk in Him.
    destruct (span_line (skipn q0 T)) as [a r] eqn:Esp.
    apply span_line_spec in Esp. destruct Esp as (Hs & Hna & Hea).
    assert (Hdem : demoted T q0 = false)
      by (unfold demoted; rewrite Hblk; apply andb_false_r).
    destruct (line_insert T q0 a r Hs Hna Hea Hdem) as (r' & Hins & Her').
    rewrite Hins in Him.
    change (hash :: space :: group m 1 ++ rest)
      with ((hash :: space :: group m 1) ++ rest) in Him.
    pose proof (span_line_unique _ _ _ _ Him (header_no_nl _ Hnn) He Hna Her')
      as Ha.
    exists q0. split; [|split; [congruence | exact Hblk]].
    split; [exact Hbol0|]. exists r. rewrite <- Hg.
    split; [rewrite Hs, <- Ha; reflexivity|]. auto.
  - intros (p & (Hbol & rest & Hsk & Hne & Hnn & He) & Hk & Hblk).
    assert (Hp : p <= length T).
    { destruct (Nat.le_gt_cases p (length T)) as [H|H]; [exact H|].
      rewrite skipn_all2 in Hsk by lia. discriminate. }
    destruct (insert_line_image (demoted T) T p Hp Hbol) as (Hb' & Hl' & Him).
    set (q := length (insert_from (demoted T) 0 (firstn p T))) in *.
    assert (Hdem : demoted T p = false)
      by (unfold demoted; rewrite Hblk; apply andb_false_r).
    change (hash :: space :: ttl ++ rest)
      with ((hash :: space :: ttl) ++ rest) in Hsk.
    destruct (line_insert T p _ rest Hsk (header_no_nl _ Hnn) He Hdem)
      as (r' & Hins & Her').
    rewrite Hins in Him. rewrite <- neutralize_insert in Him, Hb', Hl'.
    assert (Hm : exists m,
               PAGE_PATTERN_HEADER_ONLY (neutralize_code_block_headers T) q
               = Some m /\ m_start m = q /\ group m 1 = ttl).
    { unfold PAGE_PATTERN_HEADER_ONLY, match_body_at. rewrite Hb'.
      cbn [negb orb]. unfold header_only_body.
      assert (Hh : header_body (skipn q (neutralize_code_block_headers T))
                   = Some (ttl, r')).
      { apply header_body_spec. rewrite Him. auto. }
      rewrite Hh. eexists. split; [reflexivity|]. split; reflexivity. }
    destruct Hm as (m & Hm & Hst & Hg).
    exists m. split; [|split; [cbn [scanned_text]; congruence | exact Hg]].
    unfold boundaries, finditer. cbn [boundary_pattern scanned_text].
    destruct (finditer_from_complete _ (neutralize_code_block_headers T)
                header_only_ok
                (S (length (neutralize_code_block_headers T))) 0 q m
                ltac:(lia) ltac:(lia) Hm)
      as [Hin | (m'' & Hin'' & Hr)]; [exact Hin|].
    exfalso.
    destruct (finditer_from_sound _ _ header_only_ok _ _ _ Hin'') as [Hm'' _].
    pose proof (header_only_no_overlap _ _ _ _ Hm'' Hr) as Hb.
    congruence.
Qed.

(** ** What a substitution leaves in a text *)

Lemma Forall_slice (P : char -> Prop) (text : str) (a b : nat) :
  (forall p c, a <= p < b -> nth_error text p = Some c -> P c) ->
  Forall P (slice text a b).
Proof.
  intros H. apply Forall_forall. intros c Hc.
  apply In_nth_error in Hc. destruct Hc as (i & Hi).
  unfold slice in Hi.
  assert (Hlt : i < b - a).
  { assert (Hl : i < length (firstn (b - a) (skipn a text)))
      by (apply nth_error_Some; rewrite Hi; discriminate).
    rewrite length_firstn in Hl. lia. }
  rewrite nth_error_firstn in Hi.
  destruct (Nat.ltb_spec i (b - a)); [|lia].
  rewrite nth_error_skipn in Hi. apply (H (a + i)); [lia | exact Hi].
Qed.

Lemma sub_pieces_Forall (P : char -> Prop) (repl : str -> str) (text : str)
    (ms : list re_match) :
  (forall m, In m ms -> Forall P (repl (slice text (m_start m) (m_end m)))) ->
  forall pos,
    chained (length text) pos ms ->
    (forall p c, pos <= p -> nth_error text p = Some c ->
       P c \/ exists m, In m ms /\ m_start m <= p < m_end m) ->
    Forall P (sub_pieces repl text pos ms).
Proof.
  induction ms as [|m ms IH]; intros Hrepl pos Hch Hout; cbn [sub_pieces].
  - rewrite <- slice_to_end. apply Forall_slice. intros p c Hp Hc.
    destruct (Hout p c ltac:(lia) Hc) as [H | (m & [] & _)]. exact H.
  - destruct Hch as (Hs & Hse & Hel & Hch).
    apply Forall_app. split; [|apply Forall_app; split].
    + apply Forall_slice. intros p c Hp Hc.
      destruct (Hout p c ltac:(lia) Hc) as [H | (m' & [<- | Hin] & Hm')];
        [exact H | lia |].
      destruct (chained_In _ _ _ _ Hch Hin). lia.
    + apply Hrepl. left. reflexivity.
    + apply IH.
      * intros m' Hin. apply Hrepl. right. exact Hin.
      * exact Hch.
      * intros p c Hp Hc.
        destruct (Hout p c ltac:(lia) Hc) as [H | (m' & [<- | Hin] & Hm')];
          [left; exact H | lia |].
        right. exists m'. split; assumption.
Qed.

Lemma sub_pieces_length (repl : str -> str) (text : str)
    (ms : list re_match) :
  (forall m, In m ms ->
     length (repl (slice text (m_start m) (m_end m)))
     <= m_end m - m_start m) ->
  forall pos,
    chained (length text) pos ms ->
    length (sub_pieces repl text pos ms) <= length text - pos.
Proof.
  induction ms as [|m ms IH]; intros Hrepl pos Hch; cbn [sub_pieces].
  - rewrite length_skipn. lia.
  - destruct Hch as (Hs & Hse & Hel & Hch).
    rewrite !length_app, length_slice by lia.
    pose proof (Hrepl m (or_introl eq_refl)) as H1.
    pose proof (IH (fun m' Hin => Hrepl m' (or_intror Hin)) _ Hch) as H2.
    lia.
Qed.

Lemma re_sub_Forall (P : char -> Prop)
    (pattern : str -> nat -> option re_match) (repl : str -> str)
    (text : str) :
  pattern_ok pattern ->
  (forall m, Forall P (repl (slice text (m_start m) (m_end m)))) ->
  (forall p c, nth_error text p = Some c ->
     P c \/ exists m, pattern text p = Some m) ->
  Forall P (re_sub pattern repl text).
Proof.
  intros Hok Hrepl Hout. unfold re_sub.
  apply sub_pieces_Forall.
  - intros m _. apply Hrepl.
  - apply finditer_from_chained, Hok.
  - intros p c _ Hc. destruct (Hout p c Hc) as [H | (m & Hm)]; [left; exact H|].
    right.
    destruct (finditer_from_complete _ text Hok (S (length text)) 0 p m
                ltac:(lia) ltac:(lia) Hm) as [Hin | (m' & Hin & Hr)].
    + exists m. split; [exact Hin|]. apply Hok in Hm. lia.
    + exists m'. split; [exact Hin | lia].
Qed.

Lemma re_sub_length (pattern : str -> nat -> option re_match)
    (repl : str -> str) (text : str) :
  pattern_ok pattern ->
  (forall m, In m (finditer pattern text) ->
     length (repl (slice text (m_start m) (m_end m)))
     <= m_end m - m_start m) ->
  length (re_sub pattern repl text) <= length text.
Proof.
  intros Hok Hrepl. unfold re_sub.
  pose proof (sub_pieces_length repl text (finditer pattern text) Hrepl 0
                (finditer_from_chained _ _ Hok _ _)). lia.
Qed.

Lemma space_run_body_ok : body_ok space_run_body.
Proof.
  intros s gs rest. unfold space_run_body.
  destruct (span_space s) as [run r] eqn:E.
  destruct run as [|c run]; [discriminate|]. intros [= <- <-].
  exists (c :: run). split; [discriminate|].
  revert c run r E. induction s as [|d s IH]; intros c run r E;
    cbn [span_space] in E; [discriminate|].
  destruct (isspace d); [|discriminate].
  destruct (span_space s) as [run0 r0] eqn:E0.
  injection E as <- <- <-.
  destruct run0 as [|c0 run0].
  - destruct s as [|d' s']; cbn [span_space] in E0.
    + injection E0 as <-. reflexivity.
    + destruct (isspace d'); [destruct (span_space s'); discriminate|].
      injection E0 as <-. reflexivity.
  - cbn [app]. f_equal. apply (IH c0 run0 r0). reflexivity.
Qed.

Lemma space_run_ok : pattern_ok SPACE_RUN.
Proof. apply match_body_at_ok, space_run_body_ok. Qed.

Lemma unsafe_char_body_ok (isalnum : char -> bool) :
  body_ok (unsafe_char_body isalnum).
Proof.
  intros s gs rest. unfold unsafe_char_body.
  destruct s as [|c s]; [discriminate|].
  destruct (isword isalnum c || isspace c || (c =? hyphen)%N); [discriminate|].
  intros [= <- <-]. exists [c]. split; [discriminate | reflexivity].
Qed.

Lemma unsafe_char_ok (isalnum : char -> bool) :
  pattern_ok (UNSAFE_CHAR isalnum).
Proof. apply match_body_at_ok, unsafe_char_body_ok. Qed.

Lemma nth_error_skipn_cons (text : str) (p : nat) (c : char) :
  nth_error text p = Some c -> exists tl, skipn p text = c :: tl.
Proof.
  intros Hp. destruct (nth_error_split _ _ Hp) as (l1 & l2 & -> & <-).
  exists l2. rewrite skipn_app, skipn_all, Nat.sub_diag. reflexivity.
Qed.

(** X17: the file name of a page is its zero-padded index, an
    underscore, a safe form of the title and [.json]; the safe title
    has at most fifty characters, none of them whitespace, and each of
    them a word character or a hyphen. *)
Theorem page_filename_is_safe (isalnum : char -> bool) (i : nat) (p : page) :
  exists safe_title,
    page_filename isalnum i p
    = format_04d i ++ underscore :: safe_title ++ py ".json"
    /\ length safe_title <= 50
    /\ Forall (fun c => isspace c = false
                        /\ (isword isalnum c = true \/ c = hyphen))
              safe_title.
Proof.
  unfold page_filename. cbv zeta.
  set (kept := re_sub (UNSAFE_CHAR isalnum) (fun _ => []) (title p)).
  set (cut := strip (firstn 50 kept)).
  exists (re_sub SPACE_RUN (fun _ => [underscore]) cut).
  split; [reflexivity|].
  assert (Hkept : Forall (fun c => isword isalnum c || isspace c
                                   || (c =? hyphen)%N = true) kept).
  { apply re_sub_Forall.
    - apply unsafe_char_ok.
    - intros m. constructor.
    - intros q c Hc.
      destruct (isword isalnum c || isspace c || (c =? hyphen)%N) eqn:E;
        [left; reflexivity|].
      right. unfold UNSAFE_CHAR, match_body_at. cbn [negb orb].
      destruct (nth_error_skipn_cons _ _ _ Hc) as (tl & ->).
      cbn [unsafe_char_body]. rewrite E. eexists. reflexivity. }
  assert (Hcut : Forall (fun c => isword isalnum c || isspace c
                                  || (c =? hyphen)%N = true) cut).
  { apply Forall_forall. intros c Hc. subst cut. apply In_strip in Hc.
    assert (Hk : In c kept).
    { rewrite <- (firstn_skipn 50 kept). apply in_or_app. left. exact Hc. }
    rewrite Forall_forall in Hkept. auto. }
  assert (Hlen : length cut <= 50).
  { subst cut. destruct (strip_split (firstn 50 kept))
      as (lead & trail & Hs & _).
    apply (f_equal (@length char)) in Hs.
    rewrite !length_app, length_firstn in Hs. lia. }
  split.
  - etransitivity; [|exact Hlen].
    apply re_sub_length; [apply space_run_ok|].
    intros m Hin. cbn [length].
    destruct (finditer_from_sound _ _ space_run_ok _ _ _ Hin) as [Hm _].
    apply space_run_ok in Hm. lia.
  - apply re_sub_Forall.
    + apply space_run_ok.
    + intros m. constructor; [|constructor]. split; [reflexivity|].
      left. unfold isword. rewrite N.eqb_refl. apply orb_true_r.
    + intros q c Hc.
      destruct (isspace c) eqn:Esp.
      * right. unfold SPACE_RUN, match_body_at. cbn [negb orb].
        destruct (nth_error_skipn_cons _ _ _ Hc) as (tl & ->).
        unfold space_run_body. cbn [span_space]. rewrite Esp.
        destruct (span_space tl). eexists. reflexivity.
      * left. split; [reflexivity|].
        rewrite Forall_forall in Hcut.
        pose proof (Hcut c (nth_error_In _ _ Hc)) as Hk.
        rewrite Esp, orb_false_r in Hk.
        apply orb_true_iff in Hk. destruct Hk as [Hk|Hk]; [left; exact Hk|].
        right. apply N.eqb_eq. exact Hk.
Qed.

(** ** The search tool *)

Lemma clamp_k_range (k : Z) : (1 <= clamp_k k <= 20)%Z.
Proof. unfold clamp_k. lia. Qed.

Lemma clamp_k_idem (k : Z) : clamp_k (clamp_k k) = clamp_k k.
Proof. unfold clamp_k. lia. Qed.

Lemma search_results_clamped
    (similarity_search : str -> Z -> option str -> str + list document)
    (query : str) (k : Z) (source : option str) :
  search_results similarity_search query (clamp_k k) source
  = search_results similarity_search query k source.
Proof. unfold search_results. rewrite clamp_k_idem. reflexivity. Qed.

Lemma search_results_ext
    (ss ss' : str -> Z -> option str -> str + list document)
    (query : str) (k : Z) (source : option str) :
  (forall q k' f, (1 <= k' <= 60)%Z -> ss q k' f = ss' q k' f) ->
  search_results ss query k source = search_results ss' query k source.
Proof.
  intros H. unfold search_results. cbv zeta.
  pose proof (clamp_k_range k) as Hk.
  rewrite <- (H query (clamp_k k)) by lia.
  rewrite <- (H query (clamp_k k * 3)%Z) by lia.
  reflexivity.
Qed.

(** X18: [search_docs] depends on [k] only through its clamp to the
    range 1..20, and asks the store for at most 20 results, or 60 in
    the fallback: stores that agree on such requests give the same
    answer.  When the filtered search fails and the fallback is taken,
    the results kept are documents of the requested source, at least
    one and at most the clamped [k]. *)
Theorem search_docs_bounded
    (similarity_search : str -> Z -> option str -> str + list document)
    (store_error : option str) (query : str) (k : Z) (source : option str) :
  search_docs similarity_search store_error query (clamp_k k) source
  = search_docs similarity_search store_error query k source
  /\ (1 <= clamp_k k <= 20)%Z
  /\ (forall similarity_search',
        (forall q k' f, (1 <= k' <= 60)%Z ->
           similarity_search q k' f = similarity_search' q k' f) ->
        search_docs similarity_search store_error query k source
        = search_docs similarity_search' store_error query k source)
  /\ (forall e results,
        similarity_search query (clamp_k k)
          (if truthy source then source else None) = inl e ->
        search_results similarity_search query k source = Results results ->
        (exists s, source = Some s
                   /\ Forall (fun doc => md_source_name doc = s) results)
        /\ 0 < length results <= Z.to_nat (clamp_k k)).
Proof.
  split; [|split; [|split]].
  - unfold search_docs. rewrite search_results_clamped. reflexivity.
  - apply clamp_k_range.
  - intros ss' H. unfold search_docs.
    rewrite (search_results_ext _ ss' _ _ _ H). reflexivity.
  - intros e results He. unfold search_results. cbv zeta. rewrite He.
    destruct (truthy source && contains (py "Index required") e) eqn:Et;
      [|discriminate].
    destruct (similarity_search query (clamp_k k * 3)%Z None) as [e'|found];
      [discriminate|].
    apply andb_true_iff in Et. destruct Et as [Ht _].
    destruct source as [s|]; [|discriminate].
    set (kept := filter (fun doc => str_eqb (md_source_name doc) s) found).
    destruct (firstn (Z.to_nat (clamp_k k)) kept) as [|d ds] eqn:Ef;
      [discriminate|].
    intros [= <-]. split.
    + exists s. split; [reflexivity|].
      apply Forall_forall. intros doc Hin. rewrite <- Ef in Hin.
      assert (Hk : In doc kept).
      { rewrite <- (firstn_skipn (Z.to_nat (clamp_k k)) kept).
        apply in_or_app. left. exact Hin. }
      apply filter_In in Hk. destruct Hk as [_ Hk].
      apply str_eqb_eq. exact Hk.
    + assert (Hl : length (d :: ds) <= Z.to_nat (clamp_k k)).
      { rewrite <- Ef. rewrite length_firstn. lia. }
      cbn [length] in *. lia.
Qed.

(** ** Removing stale projects *)








(** ** The environment file *)

Lemma dict_get_set {V} (d : list (str * V)) (k : str) (v : V) :
  dict_get (dict_set d k v) k = Some v.
Proof.
  unfold dict_set.
  destruct (existsb (fun e => str_eqb (fst e) k) d) eqn:Ex.
  - induction d as [|[k' v'] d IH]; [discriminate|].
    cbn [existsb fst] in Ex. cbn [map fst].
    destruct (str_eqb k' k) eqn:E.
    + cbn [dict_get]. rewrite str_eqb_refl. reflexivity.
    + cbn [dict_get]. rewrite E. apply IH. exact Ex.
  - induction d as [|[k' v'] d IH].
    + cbn [app dict_get]. rewrite str_eqb_refl. reflexivity.
    + cbn [existsb fst] in Ex. apply orb_false_iff in Ex.
      destruct Ex as [E Ex]. cbn [app dict_get]. rewrite E. apply IH.
      exact Ex.
Qed.

Lemma dict_set_keys {V} (P : str -> Prop) (d : list (str * V)) (k : str)
    (v : V) :
  P k -> Forall (fun e => P (fst e)) d ->
  Forall (fun e => P (fst e)) (dict_set d k v).
Proof.
  intros Hk Hd. unfold dict_set.
  destruct (existsb (fun e => str_eqb (fst e) k) d).
  - apply Forall_forall. intros e He. apply in_map_iff in He.
    destruct He as (e0 & <- & Hin). rewrite Forall_forall in Hd.
    destruct (str_eqb (fst e0) k); [exact Hk | apply Hd; exact Hin].
  - apply Forall_app. split; [exact Hd|]. constructor; [exact Hk|constructor].
Qed.

Lemma split_first_no_sep (sep : char) (s : str) :
  ~ In sep (split_first sep s).
Proof.
  induction s as [|c s IH]; cbn [split_first]; [intros []|].
  destruct (N.eqb_spec c sep) as [->|Hne]; [intros []|].
  intros [H|H]; [congruence | exact (IH H)].
Qed.

Lemma strip_line_end (x : str) :
  x <> [] -> strip x = x -> strip (x ++ [nl]) = x.
Proof.
  intros Hne Hx.
  assert (Hhead : starts_unspaced x).
  { rewrite <- Hx. unfold strip. apply rstrip_head, lstrip_head. }
  assert (Hr : rstrip x = x).
  { rewrite <- Hx at 1. unfold strip. rewrite rstrip_idem. exact Hx. }
  unfold strip. rewrite lstrip_fix.
  - unfold rstrip. rewrite rev_app_distr. cbn [rev app lstrip].
    exact Hr.
  - destruct x as [|c x]; [congruence | exact Hhead].
Qed.

Lemma read_env_keys (lines : list str) (env_vars : list (str * str)) :
  Forall (fun e => ~ In equals_sign (fst e)) env_vars ->
  Forall (fun e => ~ In equals_sign (fst e))
         (fold_left read_env_line lines env_vars).
Proof.
  revert env_vars. induction lines as [|l lines IH]; intros env_vars H;
    [exact H|].
  cbn [fold_left]. apply IH. unfold read_env_line. cbv zeta.
  destruct (_ && _ && _); [|exact H].
  apply (dict_set_keys (fun k => ~ In equals_sign k)); [|exact H].
  apply split_first_no_sep.
Qed.

(** X20: a line [key=value] of the environment file sets the key to
    everything after its first [=], further [=] signs and quotes
    included, and the last such line of the file wins; the keys read
    never hold an [=]. *)
Theorem read_env_last_assignment (lines : list str) (key value : str) :
  ~ In equals_sign key ->
  startswith (py "#") key = false ->
  strip (key ++ equals_sign :: value) = key ++ equals_sign :: value ->
  dict_get (read_env (lines ++ [key ++ equals_sign :: value ++ [nl]])) key
  = Some value
  /\ Forall (fun e => ~ In equals_sign (fst e))
            (read_env (lines ++ [key ++ equals_sign :: value ++ [nl]])).
Proof.
  intros Hkey Hhash Hstrip. split; [|apply read_env_keys; constructor].
  unfold read_env. rewrite fold_left_app. cbn [fold_left].
  set (env_vars := fold_left read_env_line lines []).
  unfold read_env_line. cbv zeta.
  replace (key ++ equals_sign :: value ++ [nl])
    with ((key ++ equals_sign :: value) ++ [nl])
    by (rewrite <- app_assoc; reflexivity).
  rewrite strip_line_end; [|destruct key; discriminate | exact Hstrip].
  assert (Hcond : match key ++ equals_sign :: value with
                  | [] => false | _ :: _ => true end
                  && negb (startswith (py "#") (key ++ equals_sign :: value))
                  && existsb (N.eqb equals_sign) (key ++ equals_sign :: value)
                  = true).
  { apply andb_true_intro. split; [apply andb_true_intro; split|].
    - destruct key; reflexivity.
    - apply negb_true_iff. destruct key as [|c key]; [reflexivity|].
      unfold startswith in *. cbn [app py map list_ascii_of_string lit] in *.
      destruct (N_of_ascii "#" =? c)%N; [discriminate Hhash | reflexivity].
    - apply existsb_exists. exists equals_sign.
      split; [apply in_or_app; right; left; reflexivity | apply N.eqb_refl]. }
  rewrite Hcond. rewrite (split_first_sep _ _ _ Hkey).
  rewrite skipn_app_sep. apply dict_get_set.
Qed.

Lemma read_env_last_assignment_witness :
  dict_get (read_env ([py "# keys" ++ [nl]; py "A=1" ++ [nl]]
                      ++ [py "A" ++ equals_sign :: py "x=y" ++ [nl]]))
           (py "A")
  = Some (py "x=y")
  /\ Forall (fun e => ~ In equals_sign (fst e))
            (read_env ([py "# keys" ++ [nl]; py "A=1" ++ [nl]]
                       ++ [py "A" ++ equals_sign :: py "x=y" ++ [nl]])).
Proof.
  apply (read_env_last_assignment
           [py "# keys" ++ [nl]; py "A=1" ++ [nl]] (py "A") (py "x=y")).
  - vm_compute. intuition discriminate.
  - reflexivity.
  - reflexivity.
Defined.

(** ** Strategy B: comment lines between fence lines *)

(** X21: under Strategy B, in a text in which every run of three
    backticks starts a line, a line that begins with [#] inside a
    fenced code block gives no page boundary: no boundary is on that
    line, and every returned page takes its title from a boundary on
    another line. *)
Theorem no_boundary_between_fence_lines (T : str) (p : nat) :
  backticks_start_lines T = true ->
  at_bol T p = true ->
  nth_error T p = Some hash ->
  inside_fence T p = true ->
  (forall m, In m (boundaries HeaderOnly T) ->
     line_of (scanned_text HeaderOnly T) (m_start m) <> line_of T p)
  /\ (forall i pg, nth_error (split_pages HeaderOnly T) i = Some pg ->
        exists m,
          nth_error (boundaries HeaderOnly T) i = Some m
          /\ title pg = strip (group m 1)
          /\ line_of (scanned_text HeaderOnly T) (m_start m) <> line_of T p).
Proof.
  intros H Hbol Hhash Hin.
  assert (Hblock : in_block T p = true).
  { rewrite (in_block_inside_fence T p hash H Hhash); [exact Hin|].
    discriminate. }
  assert (Hno : forall m, In m (boundaries HeaderOnly T) ->
            line_of (scanned_text HeaderOnly T) (m_start m) <> line_of T p).
  { intros m Hm. exact (no_boundary_in_block T p m Hbol Hhash Hblock Hm). }
  split; [exact Hno|].
  intros i pg Hpg.
  destruct (nth_error (boundaries HeaderOnly T) i) as [m|] eqn:Em.
  - destruct (nth_error_build_pages (fun _ => None)
                (scanned_text HeaderOnly T) _ _ _ Em)
      as (pg' & Hpg' & Htitle & _).
    change (build_pages (fun _ => None) (scanned_text HeaderOnly T)
              (boundaries HeaderOnly T))
      with (split_pages HeaderOnly T) in Hpg'.
    assert (pg' = pg) by congruence. subst pg'.
    exists m. repeat split; auto. apply Hno. eapply nth_error_In. exact Em.
  - exfalso. apply nth_error_None in Em.
    assert (Hlen : length (split_pages HeaderOnly T)
                   = length (boundaries HeaderOnly T))
      by apply length_build_pages.
    assert (Hi : i < length (split_pages HeaderOnly T))
      by (apply nth_error_Some; congruence).
    lia.
Qed.

Lemma no_boundary_between_fence_lines_witness :
  (forall m, In m (boundaries HeaderOnly fenced_doc) ->
     line_of (scanned_text HeaderOnly fenced_doc) (m_start m)
     <> line_of fenced_doc 4)
  /\ (forall i pg, nth_error (split_pages HeaderOnly fenced_doc) i = Some pg ->
        exists m,
          nth_error (boundaries HeaderOnly fenced_doc) i = Some m
          /\ title pg = strip (group m 1)
          /\ line_of (scanned_text HeaderOnly fenced_doc) (m_start m)
             <> line_of fenced_doc 4).
Proof.
  apply (no_boundary_between_fence_lines fenced_doc 4);
    vm_compute; reflexivity.
Defined.
